(** * ssb-conn: connection scheduler, CONN facade and legacy gossip adapter

    A shallow embedding of [src/conn.ts], [src/conn-scheduler.ts] and
    [src/gossip.ts].  The three pools (address database, hub, staging) and
    the query facade live in separate packages; they are modelled from the
    specification and marked as such.  JavaScript numbers that hold
    millisecond timestamps, quotas and counters are integers ([Z]). *)

From Stdlib Require Import ZArith List String Ascii Bool Lia QArith.
From Stdlib Require Import Permutation Sorted DecimalString.
From stdpp Require Import base gmap strings.

Import ListNotations.
Local Open Scope string_scope.
Local Open Scope list_scope.
Local Open Scope Z_scope.

(** ** JavaScript values that reach the code through configuration *)

Inductive JsVal :=
| JUndefined
| JNull
| JBool (b : bool)
| JNum (z : Z)
| JStr (s : string).

(** ToBoolean. *)
Definition truthy (v : JsVal) : bool :=
  match v with
  | JUndefined | JNull => false
  | JBool b => b
  | JNum z => negb (z =? 0)
  | JStr s => negb (String.eqb s "")
  end.

(** [v == null]. *)
Definition looseNull (v : JsVal) : bool :=
  match v with
  | JUndefined | JNull => true
  | _ => false
  end.

(** [o === 'lit'] for an optional string field. *)
Definition str_is (o : option string) (lit : string) : bool :=
  match o with
  | Some s => String.eqb s lit
  | None => false
  end.

(** ** Data model *)

Abbreviation Address := string (only parsing).
Abbreviation FeedId := string (only parsing).

Record PeerData := mkPeerData {
  key : option FeedId;
  host : option string;
  port : option Z;
  source : option string;
  type : option string;
  autoconnect : option bool;
  stateChange : option Z;
  stagingUpdated : option Z;
  failure : option Z;
  duration_mean : option Z;
  ping_rtt_mean : option Z;
  address : option string
}.

Abbreviation Peer := (Address * PeerData)%type (only parsing).

(** The object literal [{}]. *)
Definition emptyData : PeerData :=
  mkPeerData None None None None None None None None None None None None.

Definition with_stateChange (t : Z) (d : PeerData) : PeerData :=
  mkPeerData (key d) (host d) (port d) (source d) (type d) (autoconnect d)
    (Some t) (stagingUpdated d) (failure d) (duration_mean d)
    (ping_rtt_mean d) (address d).

Definition with_stagingUpdated (t : Z) (d : PeerData) : PeerData :=
  mkPeerData (key d) (host d) (port d) (source d) (type d) (autoconnect d)
    (stateChange d) (Some t) (failure d) (duration_mean d)
    (ping_rtt_mean d) (address d).

Inductive ConnectionState :=
| idle
| connecting
| connected
| disconnected
| connecting_failed.

Abbreviation HubEntry :=
  (Address * (ConnectionState * PeerData))%type (only parsing).

(** Configuration object handed to both plugins. *)
Record Timers := mkTimers { timers_ping : option Z }.

Record Config := mkConfig {
  gossip : option (gmap string JsVal);
  timers : option Timers
}.

(** Calls that reach the hub and the staging pool, in the order made. *)
Inductive Call :=
| HubConnect (a : Address) (data : option PeerData)
| HubDisconnect (a : Address)
| StagingStage (a : Address) (data : PeerData)
| StagingUnstage (a : Address).

(** Notifications pushed on the legacy gossip change stream. *)
Inductive Notification :=
| Discover (peer : PeerData) (state : option ConnectionState) (src : string).

(** Everything one synchronous run of the code can read or write.  A run
    is not interleaved with anything else (§5): the clock and the answers of
    the environment stay what they are while it lasts. *)
Record World := mkWorld {
  (* the three pools *)
  db : list Peer;
  hub : list HubEntry;
  staging : list Peer;
  (* fields of ConnScheduler *)
  hasSsbDb : bool;
  closed : bool;
  isLoadingHops : bool;
  lastMessageAt : Z;
  hasScheduledAnUpdate : bool;
  hops : gmap FeedId Z;
  config : Config;
  (* module-level variables of conn-scheduler.ts *)
  lastCheck : Z;
  lastValue : option bool;
  (* answers of the environment during the run *)
  clock : Z;              (* Date.now() *)
  network : bool;         (* hasNetwork() *)
  logReady : bool;        (* ssb.ready() *)
  hasFriendsHops : bool;  (* ssb.friends && ssb.friends.hops *)
  ssb_id : FeedId;        (* ssb.id *)
  rand : nat -> Q;        (* successive results of Math.random() *)
  randIx : nat;
  (* observations *)
  calls : list Call;
  notified : list Notification
}.

Definition set_db (f : list Peer -> list Peer) (w : World) : World :=
  mkWorld (f (db w)) (hub w) (staging w) (hasSsbDb w) (closed w)
    (isLoadingHops w) (lastMessageAt w) (hasScheduledAnUpdate w) (hops w)
    (config w) (lastCheck w) (lastValue w) (clock w) (network w) (logReady w)
    (hasFriendsHops w) (ssb_id w) (rand w) (randIx w) (calls w) (notified w).

Definition set_hub (f : list HubEntry -> list HubEntry) (w : World) : World :=
  mkWorld (db w) (f (hub w)) (staging w) (hasSsbDb w) (closed w)
    (isLoadingHops w) (lastMessageAt w) (hasScheduledAnUpdate w) (hops w)
    (config w) (lastCheck w) (lastValue w) (clock w) (network w) (logReady w)
    (hasFriendsHops w) (ssb_id w) (rand w) (randIx w) (calls w) (notified w).

Definition set_staging (f : list Peer -> list Peer) (w : World) : World :=
  mkWorld (db w) (hub w) (f (staging w)) (hasSsbDb w) (closed w)
    (isLoadingHops w) (lastMessageAt w) (hasScheduledAnUpdate w) (hops w)
    (config w) (lastCheck w) (lastValue w) (clock w) (network w) (logReady w)
    (hasFriendsHops w) (ssb_id w) (rand w) (randIx w) (calls w) (notified w).

Definition set_isLoadingHops (b : bool) (w : World) : World :=
  mkWorld (db w) (hub w) (staging w) (hasSsbDb w) (closed w)
    b (lastMessageAt w) (hasScheduledAnUpdate w) (hops w)
    (config w) (lastCheck w) (lastValue w) (clock w) (network w) (logReady w)
    (hasFriendsHops w) (ssb_id w) (rand w) (randIx w) (calls w) (notified w).

Definition set_lastMessageAt (t : Z) (w : World) : World :=
  mkWorld (db w) (hub w) (staging w) (hasSsbDb w) (closed w)
    (isLoadingHops w) t (hasScheduledAnUpdate w) (hops w)
    (config w) (lastCheck w) (lastValue w) (clock w) (network w) (logReady w)
    (hasFriendsHops w) (ssb_id w) (rand w) (randIx w) (calls w) (notified w).

Definition set_hops (h : gmap FeedId Z) (w : World) : World :=
  mkWorld (db w) (hub w) (staging w) (hasSsbDb w) (closed w)
    (isLoadingHops w) (lastMessageAt w) (hasScheduledAnUpdate w) h
    (config w) (lastCheck w) (lastValue w) (clock w) (network w) (logReady w)
    (hasFriendsHops w) (ssb_id w) (rand w) (randIx w) (calls w) (notified w).

Definition set_netCache (c : Z) (v : option bool) (w : World) : World :=
  mkWorld (db w) (hub w) (staging w) (hasSsbDb w) (closed w)
    (isLoadingHops w) (lastMessageAt w) (hasScheduledAnUpdate w) (hops w)
    (config w) c v (clock w) (network w) (logReady w)
    (hasFriendsHops w) (ssb_id w) (rand w) (randIx w) (calls w) (notified w).

Definition set_randIx (n : nat) (w : World) : World :=
  mkWorld (db w) (hub w) (staging w) (hasSsbDb w) (closed w)
    (isLoadingHops w) (lastMessageAt w) (hasScheduledAnUpdate w) (hops w)
    (config w) (lastCheck w) (lastValue w) (clock w) (network w) (logReady w)
    (hasFriendsHops w) (ssb_id w) (rand w) n (calls w) (notified w).

Definition log_call (c : Call) (w : World) : World :=
  mkWorld (db w) (hub w) (staging w) (hasSsbDb w) (closed w)
    (isLoadingHops w) (lastMessageAt w) (hasScheduledAnUpdate w) (hops w)
    (config w) (lastCheck w) (lastValue w) (clock w) (network w) (logReady w)
    (hasFriendsHops w) (ssb_id w) (rand w) (randIx w) (calls w ++ [c])
    (notified w).

Definition log_notify (n : Notification) (w : World) : World :=
  mkWorld (db w) (hub w) (staging w) (hasSsbDb w) (closed w)
    (isLoadingHops w) (lastMessageAt w) (hasScheduledAnUpdate w) (hops w)
    (config w) (lastCheck w) (lastValue w) (clock w) (network w) (logReady w)
    (hasFriendsHops w) (ssb_id w) (rand w) (randIx w) (calls w)
    (notified w ++ [n]).


Definition set_hasScheduledAnUpdate (b : bool) (w : World) : World :=
  mkWorld (db w) (hub w) (staging w) (hasSsbDb w) (closed w)
    (isLoadingHops w) (lastMessageAt w) b (hops w)
    (config w) (lastCheck w) (lastValue w) (clock w) (network w) (logReady w)
    (hasFriendsHops w) (ssb_id w) (rand w) (randIx w) (calls w) (notified w).

(** ** Computations: state plus JavaScript exceptions *)

Inductive Outcome (A : Type) :=
| Returned (a : A) (w : World)
| Thrown (msg : string) (w : World).
Arguments Returned {A} a w.
Arguments Thrown {A} msg w.

Definition M (A : Type) : Type := World -> Outcome A.

Definition ret {A} (a : A) : M A := fun w => Returned a w.

Definition bind {A B} (m : M A) (k : A -> M B) : M B :=
  fun w =>
    match m w with
    | Returned a w' => k a w'
    | Thrown e w' => Thrown e w'
    end.

Definition gets {A} (f : World -> A) : M A := fun w => Returned (f w) w.
Definition modify (f : World -> World) : M unit := fun w => Returned tt (f w).
Definition throw {A} (msg : string) : M A := fun w => Thrown msg w.

Notation "x <- m ;; k" := (bind m (fun x => k))
  (at level 100, m at next level, right associativity).
Notation "m ;;; k" := (bind m (fun _ => k))
  (at level 100, right associativity).

(** [arr.forEach(f)]. *)
Fixpoint forEach {A} (f : A -> M unit) (l : list A) : M unit :=
  match l with
  | [] => ret tt
  | x :: l' => f x ;;; forEach f l'
  end.

(** [arr.filter(f)] for a callback with side effects. *)
Fixpoint filterM {A} (f : A -> M bool) (l : list A) : M (list A) :=
  match l with
  | [] => ret []
  | x :: l' =>
      b <- f x ;;
      rest <- filterM f l' ;;
      ret (if b then x :: rest else rest)
  end.

(** [Math.random()]. *)
Definition Math_random : M Q :=
  fun w => Returned (rand w (randIx w)) (set_randIx (S (randIx w)) w).

(** [try { body } catch (err) { handler(err) }]. *)
Definition tryCatch {A} (body : M A) (handler : string -> M A) : M A :=
  fun w =>
    match body w with
    | Returned a w' => Returned a w'
    | Thrown e w' => handler e w'
    end.

(** ** Association lists keyed by address (JavaScript [Map], insertion order) *)

Fixpoint lookup_addr {V} (a : Address) (l : list (Address * V)) : option V :=
  match l with
  | [] => None
  | (a', v) :: l' => if String.eqb a' a then Some v else lookup_addr a l'
  end.

Definition remove_addr {V} (a : Address) (l : list (Address * V))
  : list (Address * V) :=
  List.filter (fun e => negb (String.eqb (fst e) a)) l.

Definition has_addr {V} (a : Address) (l : list (Address * V)) : bool :=
  match lookup_addr a l with
  | Some _ => true
  | None => false
  end.

(** ** JavaScript string primitives *)

(** [s.indexOf(needle)]. *)
Definition js_indexOf (s needle : string) : Z :=
  match String.index 0 needle s with
  | Some n => Z.of_nat n
  | None => -1
  end.

(** [s.substring(from, to)]: both ends are clamped to the string and
    swapped when out of order. *)
Definition js_substring (s : string) (from to : Z) : string :=
  let len := Z.of_nat (String.length s) in
  let a := Z.max 0 (Z.min from len) in
  let b := Z.max 0 (Z.min to len) in
  String.substring (Z.to_nat (Z.min a b)) (Z.to_nat (Z.max a b - Z.min a b)) s.

(** [s.endsWith(suffix)]. *)
Definition js_endsWith (s suffix : string) : bool :=
  let n := String.length s in
  let k := String.length suffix in
  (k <=? n)%nat && String.eqb (String.substring (n - k) k s) suffix.

(** [s.split(c)] for a one-character separator. *)
Fixpoint js_split (c : ascii) (s : string) : list string :=
  match s with
  | EmptyString => [EmptyString]
  | String x rest =>
      if Ascii.eqb x c then EmptyString :: js_split c rest
      else match js_split c rest with
           | [] => [String x EmptyString]
           | piece :: pieces => String x piece :: pieces
           end
  end.

(** How [join] renders an array element: missing values as the empty
    string, numbers in decimal. *)
Definition js_str (o : option string) : string := from_option id "" o.
Definition js_num (o : option Z) : string :=
  match o with
  | Some z => NilZero.string_of_int (Z.to_int z)
  | None => ""
  end.

(** [pieces.join('')]. *)
Definition js_join (pieces : list string) : string := String.concat "" pieces.

(** [s.replace(/^\@/, '')]. *)
Definition js_dropLeadingAt (s : string) : string :=
  match s with
  | String "@"%char rest => rest
  | _ => s
  end.

(** [s.replace(/suffix$/, '')] for a literal suffix. *)
Definition js_dropSuffix (suffix s : string) : string :=
  if js_endsWith s suffix
  then String.substring 0 (String.length s - String.length suffix) s
  else s.

(** ** Packages outside the repository

    Pure helpers imported from [ssb-conn-query], [ip],
    [multiserver-address] and [ssb-ref], and the host engine's
    [Array.prototype.sort] when the comparator ignores its arguments (the
    order it produces is engine-defined; it is a rearrangement of its
    input).  The development holds for every implementation of them. *)
Class Collaborators := {
  (* ssb-conn-query *)
  hasNoAttempts : Peer -> bool;
  hasOnlyFailedAttempts : Peer -> bool;
  hasPinged : Peer -> bool;
  hasSuccessfulAttempts : Peer -> bool;
  passesExpBackoff : Z -> Z -> Z -> Peer -> bool;   (* step, max, timestamp *)
  passesGroupDebounce : Z -> Z -> list Peer -> list Peer; (* min, timestamp *)
  (* ip *)
  ip_isLoopback : option string -> bool;
  ip_isPrivate : option string -> bool;
  (* multiserver-address *)
  msAddress_check : Address -> bool;
  (* ssb-ref *)
  ref_isFeed : option string -> bool;
  ref_isAddress : option string -> bool;
  ref_parseAddress : string -> option PeerData;
  ref_getKeyFromAddress : string -> option FeedId;
  (* Array.prototype.sort under a comparator that ignores its arguments:
     the k-th comparison answers [results k]; returns the rearranged array
     and the number of comparisons made *)
  arraySort : forall A : Type, (nat -> Q) -> list A -> list A * nat;
  (* what the development relies on *)
  passesGroupDebounce_incl :
    forall (min now : Z) (group : list Peer),
      incl (passesGroupDebounce min now group) group;
  arraySort_perm :
    forall (A : Type) (results : nat -> Q) (l : list A),
      Permutation l (fst (arraySort A results l))
}.

(** ** The pools and the query facade *)

Section Pools.

(** Modelled from the spec: the order of ssb-conn-query's
    [sortByStateChange], "stable sort ascending by stateChange".  A record
    without the timestamp compares as equal to every other (the
    comparator's difference is then NaN, which [sort] reads as zero). *)
Definition stateChange_le (a b : Peer) : bool :=
  match stateChange (snd a), stateChange (snd b) with
  | Some x, Some y => x <=? y
  | _, _ => true
  end.

(** Modelled from the spec: one insertion of that stable sort; the new
    element goes before the first one it is not after. *)
Fixpoint insertByStateChange (p : Peer) (l : list Peer) : list Peer :=
  match l with
  | [] => [p]
  | q :: l' =>
      if stateChange_le p q then p :: q :: l'
      else q :: insertByStateChange p l'
  end.

(** Modelled from the spec: ssb-conn-query's [sortByStateChange] (§4.4). *)
Fixpoint sortByStateChange (peers : list Peer) : list Peer :=
  match peers with
  | [] => []
  | p :: l => insertByStateChange p (sortByStateChange l)
  end.

(** Modelled from the spec: [hub.getState] of ssb-conn-hub (§4.2), "returns
    the current state or undefined" of a "live registry of connections keyed
    by address". *)
Definition Hub_getState (a : Address) (w : World) : option ConnectionState :=
  option_map fst (lookup_addr a (hub w)).

(** Modelled from the spec: the states of a live address, "connecting" and
    "connected" (§3 invariant 1, §4.4). *)
Definition inConnectionState (s : ConnectionState) : bool :=
  match s with
  | connecting | connected => true
  | _ => false
  end.

(** Modelled from the spec: the hub holds an active entry for the address
    (§4.2). *)
Definition Hub_isActive (a : Address) (w : World) : bool :=
  match Hub_getState a w with
  | Some s => inConnectionState s
  | None => false
  end.

(** Modelled from the spec: the staging pool of ssb-conn-staging (§4.3).
    [unstage] drops the entry. *)
Definition Staging_unstage (a : Address) : M unit :=
  modify (fun w => set_staging (remove_addr a) (log_call (StagingUnstage a) w)).

(** Modelled from the spec: [stage] "inserts if not present ... returns
    boolean success"; every staged record carries [stagingUpdated]. *)
Definition Staging_stage (a : Address) (data : PeerData) : M bool :=
  modify (log_call (StagingStage a data)) ;;;
  present <- gets (fun w => has_addr a (staging w)) ;;
  if present then ret false
  else
    now <- gets clock ;;
    modify (set_staging (fun l => l ++ [(a, with_stagingUpdated now data)])) ;;;
    ret true.

(** Modelled from the spec: [hub.connect] "marks the entry connecting";
    with an active entry the dial is rejected (AlreadyConnected) and nothing
    changes.  Its completion (connected or connecting-failed) is a later
    event.  The interpool glue of [./interpool-glue] unstages the address
    when the hub marks it connecting (§3 invariant 1, §4.5). *)
Definition Hub_connect (a : Address) (data : option PeerData) : M unit :=
  modify (log_call (HubConnect a data)) ;;;
  active <- gets (Hub_isActive a) ;;
  if active then ret tt
  else
    now <- gets clock ;;
    let record := with_stateChange now (from_option id emptyData data) in
    modify (set_hub (fun l => remove_addr a l ++ [(a, (connecting, record))])) ;;;
    modify (set_staging (remove_addr a)).

(** Modelled from the spec: [hub.disconnect] "tears down the transport and
    marks disconnected"; "Hub entry: ... removed on disconnect".  Idempotent
    on addresses without an entry. *)
Definition Hub_disconnect (a : Address) : M unit :=
  modify (fun w => set_hub (remove_addr a) (log_call (HubDisconnect a) w)).

(** Modelled from the spec: the address database of ssb-conn-db (§4.1),
    whose [set] "merges data over any existing record". *)
Definition mergeData (old new : PeerData) : PeerData :=
  let pick {A} (n o : option A) := match n with Some _ => n | None => o end in
  mkPeerData (pick (key new) (key old)) (pick (host new) (host old))
    (pick (port new) (port old)) (pick (source new) (source old))
    (pick (type new) (type old)) (pick (autoconnect new) (autoconnect old))
    (pick (stateChange new) (stateChange old))
    (pick (stagingUpdated new) (stagingUpdated old))
    (pick (failure new) (failure old))
    (pick (duration_mean new) (duration_mean old))
    (pick (ping_rtt_mean new) (ping_rtt_mean old))
    (pick (address new) (address old)).

(** Modelled from the spec: [db.set] on the in-memory image, "upsert". *)
Fixpoint upsert (a : Address) (data : PeerData) (l : list Peer) : list Peer :=
  match l with
  | [] => [(a, data)]
  | (a', d) :: l' =>
      if String.eqb a' a then (a', mergeData d data) :: l'
      else (a', d) :: upsert a data l'
  end.

(** Modelled from the spec: [db.has], a synchronous read. *)
Definition DB_has (a : Address) (w : World) : bool := has_addr a (db w).

(** Modelled from the spec: [db.get], a synchronous read. *)
Definition DB_get (a : Address) (w : World) : option PeerData :=
  lookup_addr a (db w).

(** Modelled from the spec: [db.set]; the delayed write to disk is not part
    of the run. *)
Definition DB_set (a : Address) (data : PeerData) : M unit :=
  modify (set_db (upsert a data)).

(** Modelled from the spec: [db.delete], "removes the entry". *)
Definition DB_delete (a : Address) : M unit :=
  modify (set_db (remove_addr a)).

(** Modelled from the spec: the pools a query can start from (§4.4). *)
Inductive Origin := OriginDb | OriginStaging.

(** Modelled from the spec: [peersInConnection], "Hub entries in
    {connecting, connected}". *)
Definition peersInConnection (w : World) : list Peer :=
  map (fun e => (fst e, snd (snd e)))
    (List.filter (fun e => inConnectionState (fst (snd e))) (hub w)).

(** Modelled from the spec: [peersConnected], "Hub entries in {connected}
    only". *)
Definition peersConnected (w : World) : list Peer :=
  map (fun e => (fst e, snd (snd e)))
    (List.filter
       (fun e => match fst (snd e) with connected => true | _ => false end)
       (hub w)).

(** Modelled from the spec: [peersConnectable], "entries from the chosen
    pool whose state is not connecting/connected". *)
Definition peersConnectable (origin : Origin) (w : World) : list Peer :=
  List.filter (fun p => negb (Hub_isActive (fst p) w))
    (match origin with OriginDb => db w | OriginStaging => staging w end).

(** Modelled from the spec: [hub.reset], "forcibly disconnect all entries"
    (§4.2). *)
Definition Hub_reset : M unit :=
  entries <- gets hub ;;
  forEach (fun e => Hub_disconnect (fst e)) entries.

(** Modelled from the spec: [staging.get], a synchronous read (§4.3). *)
Definition Staging_get (a : Address) (w : World) : option PeerData :=
  lookup_addr a (staging w).

(** Modelled from the spec: [db.getAddressForId], which "scans entries and
    returns the first address whose key matches" (§4.1). *)
Definition DB_getAddressForId (id : FeedId) (w : World) : option Address :=
  option_map fst (List.find (fun e => str_is (key (snd e)) id) (db w)).

End Pools.

(** ** [src/conn.ts]: the CONN plugin *)

Module CONN.

(** What a caller can put in an argument position: nothing, an object, or a
    function. *)
Inductive Arg :=
| ArgUndefined
| ArgObject (d : PeerData)
| ArgFunction.

Definition isFunction (a : Arg) : bool :=
  match a with ArgFunction => true | _ => false end.

Definition asObject (a : Arg) : option PeerData :=
  match a with ArgObject d => Some d | _ => None end.

(** [cb(...)]: calling something that is not a function is a TypeError. *)
Definition invoke (cb : Arg) : M unit :=
  match cb with
  | ArgFunction => ret tt
  | _ => throw "TypeError: cb is not a function"
  end.

Definition MIN : Z := 10000.
Definition DEFAULT : Z := 5 * 60000.
Definition MAX : Z := 30 * 60000.

(** [x || def] where [x] is a number or undefined. *)
Definition numberOr (x : option Z) (def : Z) : Z :=
  match x with
  | Some n => if n =? 0 then def else n
  | None => def
  end.

(** [ping]: the timeout handed to pull-ping. *)
Definition ping (config : Config) : Z :=
  let timeout :=
    numberOr (match timers config with
              | Some t => timers_ping t
              | None => None
              end) DEFAULT in
  Z.max MIN (Z.min timeout MAX).

Section CONN.
Context `{Collaborators}.

Definition assertValidAddress (address : Address) : M unit :=
  if msAddress_check address then ret tt
  else throw "The given address is not a valid multiserver-address".

Definition remember (address : Address) (data : option PeerData) : M unit :=
  assertValidAddress address ;;;
  DB_set address (from_option id emptyData data).

Definition forget (address : Address) : M unit :=
  assertValidAddress address ;;;
  DB_delete address.


(** [connect(address, second, third)].  The promise returned by the hub
    settles after the synchronous run; its callbacks are not part of it. *)
Definition connect (address : Address) (second third : Arg) : M unit :=
  if isFunction second && isFunction third then
    throw "CONN.connect() received incorrect arguments"
  else
    let cb := if isFunction third then third else second in
    let data := if isFunction third then asObject second else None in
    valid <- tryCatch (assertValidAddress address ;;; ret true)
                      (fun _ => invoke cb ;;; ret false) ;;
    if valid then Hub_connect address data else ret tt.

Definition disconnect (address : Address) (cb : Arg) : M unit :=
  valid <- tryCatch (assertValidAddress address ;;; ret true)
                    (fun _ => invoke cb ;;; ret false) ;;
  if valid then Hub_disconnect address else ret tt.

Definition stageDefault : PeerData :=
  mkPeerData None None None None (Some "internet") None None None None None
    None None.

Definition stage (address : Address) (data : option PeerData) : M bool :=
  let data := from_option id stageDefault data in
  state <- gets (Hub_getState address) ;;
  if (match state with Some _ => true | None => false end) then ret false
  else Staging_stage address data.

Definition unstage (address : Address) : M unit :=
  Staging_unstage address.

End CONN.
End CONN.

(** ** [src/conn-scheduler.ts]: the scheduler *)

Module ConnScheduler.

Record Opts := mkOpts {
  quota : Z;
  backoffStep : Z;
  backoffMax : Z;
  groupMin : Z
}.

Definition minute : Z := 60000.
Definition hour : Z := 60 * 60000.

Definition take {T} (n : Z) (arr : list T) : list T :=
  firstn (Z.to_nat (Z.max n 0)) arr.

Definition neverJustOne (x : Z) : Z :=
  if x =? 1 then x + 1 else x.

(** [t! + ms < Date.now()]; a missing timestamp makes the sum NaN and the
    comparison false. *)
Definition olderThan (t : option Z) (ms now : Z) : bool :=
  match t with
  | Some x => x + ms <? now
  | None => false
  end.

Definition weBlockThem (w : World) (p : Peer) : bool :=
  match key (snd p) with
  | None => false
  | Some k =>
      if String.eqb k "" then false
      else match hops w !! k with
           | Some h => h =? -1
           | None => false
           end
  end.

Definition weFollowThem (w : World) (p : Peer) : bool :=
  match key (snd p) with
  | None => false
  | Some k =>
      if String.eqb k "" then false
      else match hops w !! k with
           | Some h => (0 <? h) && (h <=? 1)
           | None => false
           end
  end.

Section ConnScheduler.
Context `{Collaborators}.

Definition hasNetworkDebounced : M (option bool) :=
  lc <- gets lastCheck ;;
  now <- gets clock ;;
  (if lc + 1000 <? now then
     net <- gets network ;;
     modify (set_netCache now (Some net))
   else ret tt) ;;;
  gets lastValue.

Definition isOffline (p : Peer) : M bool :=
  if ip_isLoopback (host (snd p)) || str_is (host (snd p)) "localhost"
  then ret false
  else
    v <- hasNetworkDebounced ;;
    ret (negb (match v with Some b => b | None => false end)).

Definition canBeConnected (p : Peer) : M bool :=
  off <- isOffline p ;;
  ret (negb off).

Definition isLocal (p : Peer) : bool :=
  negb (ip_isLoopback (host (snd p))) &&
  ip_isPrivate (host (snd p)) &&
  (str_is (source (snd p)) "local" || str_is (type (snd p)) "lan").

Definition isLegacy (peer : Peer) : bool :=
  hasSuccessfulAttempts peer && negb (hasPinged peer).

Definition shufflePeers (peers : list Peer) : M (list Peer) :=
  fun w =>
    let results := fun k => (rand w (randIx w + k)%nat - (1 # 2))%Q in
    let '(sorted, used) := arraySort Peer results peers in
    Returned sorted (set_randIx (randIx w + used)%nat w).

Definition conf (name : string) (def : JsVal) : M JsVal :=
  cfg <- gets config ;;
  match gossip cfg with
  | None => ret def
  | Some g =>
      let value := from_option id JUndefined (g !! name) in
      ret (if looseNull value
              || match value with JStr s => String.eqb s "" | _ => false end
           then def else value)
  end.

Definition isCurrentlyDownloading : M bool :=
  last <- gets lastMessageAt ;;
  now <- gets clock ;;
  ret (negb (last =? 0) && (now - 500 <? last)).

Definition updateTheseConnections (test : Peer -> bool) (opts : Opts)
  : M unit :=
  peersUp <- gets (fun w => List.filter test (peersInConnection w)) ;;
  peersDown <- gets (fun w => List.filter test (peersConnectable OriginDb w)) ;;
  let up := Z.of_nat (length peersUp) in
  let excess := if quota opts * 2 <? up then up - quota opts else 0 in
  let freeSlots := neverJustOne (Z.max (quota opts - up) 0) in
  (* Disconnect from excess *)
  forEach (fun p => CONN.disconnect (fst p) CONN.ArgUndefined)
          (take excess (sortByStateChange peersUp)) ;;;
  (* Connect to suitable candidates *)
  notBlocked <-
    gets (fun w => List.filter (fun p => negb (weBlockThem w p)) peersDown) ;;
  online <- filterM canBeConnected notBlocked ;;
  let auto :=
    List.filter
      (fun p => negb (match autoconnect (snd p) with
                      | Some false => true
                      | _ => false
                      end)) online in
  now <- gets clock ;;
  let debounced := passesGroupDebounce (groupMin opts) now auto in
  let ready :=
    List.filter (passesExpBackoff (backoffStep opts) (backoffMax opts) now)
      debounced in
  r <- Math_random ;;
  ordered <-
    (if Qle_bool r (3 # 10) then shufflePeers ready
     else ret (sortByStateChange ready)) ;;
  forEach (fun p => CONN.connect (fst p) (CONN.ArgObject (snd p))
                      CONN.ArgUndefined)
          (take freeSlots ordered).

Definition updateStagingNow : M unit :=
  (* Stage all db peers with autoconnect=false *)
  toStage <-
    gets (fun w =>
      List.filter
        (fun p => match autoconnect (snd p) with
                  | Some false => true
                  | _ => false
                  end)
        (List.filter (fun p => negb (weBlockThem w p))
           (peersConnectable OriginDb w))) ;;
  forEach (fun p => _ <- CONN.stage (fst p) (Some (snd p)) ;; ret tt)
          toStage ;;;
  (* Purge staged peers that are now blocked *)
  blocked <-
    gets (fun w =>
      List.filter (weBlockThem w) (peersConnectable OriginStaging w)) ;;
  forEach (fun p => CONN.unstage (fst p)) blocked ;;;
  (* Purge some old staged LAN peers *)
  oldLan <-
    gets (fun w =>
      List.filter (fun p => olderThan (stagingUpdated (snd p)) 10000 (clock w))
        (List.filter (fun p => str_is (type (snd p)) "lan")
           (peersConnectable OriginStaging w))) ;;
  forEach (fun p => CONN.unstage (fst p)) oldLan ;;;
  (* Purge some old staged Bluetooth peers *)
  oldBt <-
    gets (fun w =>
      List.filter (fun p => olderThan (stagingUpdated (snd p)) 30000 (clock w))
        (List.filter (fun p => str_is (type (snd p)) "bt")
           (peersConnectable OriginStaging w))) ;;
  forEach (fun p => CONN.unstage (fst p)) oldBt.

Definition updateHubNow : M unit :=
  seed <- conf "seed" (JBool true) ;;
  (if truthy seed then
     updateTheseConnections (fun p => str_is (source (snd p)) "seed")
       (mkOpts 3 2000 (10 * minute) 1000)
   else ret tt) ;;;
  (* If there are no peers, then try *any* connection ASAP *)
  inConnection <- gets peersInConnection ;;
  (if (length inConnection =? 0)%nat then
     updateTheseConnections (fun _ => true) (mkOpts 1 1000 6000 0)
   else ret tt) ;;;
  (* Connect to rooms, up to 10 of them, prioritized over pubs *)
  updateTheseConnections (fun p => str_is (type (snd p)) "room")
    (mkOpts 10 5000 (5 * minute) 5000) ;;;
  updateTheseConnections hasPinged (mkOpts 2 10000 (10 * minute) 5000) ;;;
  updateTheseConnections hasNoAttempts (mkOpts 2 30000 (30 * minute) 15000) ;;;
  updateTheseConnections hasOnlyFailedAttempts
    (mkOpts 3 (1 * minute) (3 * hour) (5 * minute)) ;;;
  updateTheseConnections isLegacy
    (mkOpts 1 (4 * minute) (3 * hour) (5 * minute)) ;;;
  (* Automatically connect to (five) staged peers we follow *)
  followed <-
    gets (fun w =>
      take 5 (List.filter (weFollowThem w) (peersConnectable OriginStaging w))) ;;
  forEach (fun p => CONN.connect (fst p) (CONN.ArgObject (snd p))
                      CONN.ArgUndefined) followed ;;;
  (* Purge connected peers that are now blocked *)
  blocked <-
    gets (fun w => List.filter (weBlockThem w) (peersInConnection w)) ;;
  forEach (fun p => CONN.disconnect (fst p) CONN.ArgUndefined) blocked ;;;
  (* Purge some ongoing frustrating connection attempts *)
  frustrating <-
    gets (fun w =>
      List.filter (fun peer => olderThan (stateChange (snd peer)) 10000 (clock w))
        (List.filter
           (fun peer =>
              let permanent := hasPinged peer || isLocal peer in
              let state := Hub_getState (fst peer) w in
              negb permanent ||
              match state with Some connecting => true | _ => false end)
           (peersInConnection w))) ;;
  forEach (fun p => CONN.disconnect (fst p) CONN.ArgUndefined) frustrating ;;;
  (* Purge an internet connection after it has been up for 1h *)
  longLived <-
    gets (fun w =>
      List.filter (fun peer => olderThan (stateChange (snd peer)) (1 * hour) (clock w))
        (List.filter
           (fun peer => negb (str_is (type (snd peer)) "bt") &&
                        negb (str_is (type (snd peer)) "lan"))
           (peersConnected w))) ;;
  forEach (fun p => CONN.disconnect (fst p) CONN.ArgUndefined) longLived.

Definition updateNow : M unit :=
  hasDb <- gets hasSsbDb ;;
  ready <- gets logReady ;;
  if hasDb && negb ready then ret tt
  else
    downloading <- isCurrentlyDownloading ;;
    if downloading then ret tt
    else
      loading <- gets isLoadingHops ;;
      if loading then ret tt
      else updateStagingNow ;;; updateHubNow.

(** [loadHops]: the request part; the answer of ssb-friends arrives later
    through [hopsLoaded]. *)
Definition loadHops : M unit :=
  present <- gets hasFriendsHops ;;
  if negb present then ret tt
  else modify (set_isLoadingHops true).

Definition hopsLoaded (err : bool) (newHops : gmap FeedId Z)
    (doneCallback : option (M unit)) : M unit :=
  if err then ret tt
  else
    modify (set_hops newHops) ;;;
    modify (set_isLoadingHops false) ;;;
    match doneCallback with
    | Some cb => cb
    | None => ret tt
    end.

(** The handler the constructor registers with [ssb.post]. *)
Definition onPost (author : FeedId) (contentType : option string) : M unit :=
  id <- gets ssb_id ;;
  (if negb (String.eqb author id) then
     now <- gets clock ;;
     modify (set_lastMessageAt now)
   else ret tt) ;;;
  if str_is contentType "contact" then loadHops else ret tt.

(** [updateSoon(period = 1000)].  The result is the delay of the timer it
    arms, if it arms one; [updateSoonTimer] is what that timer runs. *)
Definition updateSoonTimer : M unit :=
  updateNow ;;;
  modify (set_hasScheduledAnUpdate false).

Definition updateSoon (period : option Z) : M (option Q) :=
  let period := from_option id 1000 period in
  isClosed <- gets closed ;;
  if isClosed then ret None
  else
    scheduled <- gets hasScheduledAnUpdate ;;
    if scheduled then ret None
    else
      r <- Math_random ;;
      let fuzzyPeriod := (inject_Z period * (1 # 2) + inject_Z period * r)%Q in
      modify (set_hasScheduledAnUpdate true) ;;;
      ret (Some fuzzyPeriod).

(** What [config.seeds] can hold: nothing, one address, or an array whose
    elements are addresses or missing. *)
Inductive Seeds :=
| SeedsUndefined
| SeedsString (s : string)
| SeedsArray (l : list (option string)).

(** [(Array.isArray(seeds) ? seeds : [seeds]).filter(Boolean)]. *)
Definition seedList (seeds : Seeds) : list string :=
  let truthyString (o : option string) :=
    match o with
    | Some s => if String.eqb s "" then [] else [s]
    | None => []
    end in
  match seeds with
  | SeedsUndefined => []
  | SeedsString s => truthyString (Some s)
  | SeedsArray l => flat_map truthyString l
  end.

(** [populateWithSeeds], with [config.seeds] handed in. *)
Definition populateWithSeeds (seeds : Seeds) : M unit :=
  forEach
    (fun addr =>
       let key := ref_getKeyFromAddress addr in
       CONN.remember addr
         (Some (mkPeerData key None None (Some "seed") None None None None
                  None None None None)))
    (seedList seeds).


Record BTPeer := mkBTPeer {
  remoteAddress : string;
  peerId : string;          (* the field [id] *)
  displayName : string
}.

(** The multiserver address synthesised for a Bluetooth device. *)
Definition btAddress (btPeer : BTPeer) : string :=
  ("bt:" +:+ js_join (js_split ":"%char (remoteAddress btPeer)))
  +:+ "~"
  +:+ ("shs:" +:+ js_dropSuffix ".ed25519" (js_dropLeadingAt (peerId btPeer))).

(** The handler [setupBluetoothDiscovery] drains the scans with.  The
    [note] of the data object is a label; records here carry no such
    field. *)
Definition onBluetoothScan (discovered : list BTPeer) : M unit :=
  forEach
    (fun btPeer =>
       let address := btAddress btPeer in
       let data :=
         mkPeerData (Some (peerId btPeer)) None None None (Some "bt") None None
           None None None None None in
       follow <- gets (fun w => weFollowThem w (address, data)) ;;
       if follow then
         CONN.connect address (CONN.ArgObject data) CONN.ArgUndefined
       else
         _ <- CONN.stage address (Some data) ;; ret tt)
    discovered.

(** The handler [setupLanDiscovery] drains the beacons with.  The
    [verified] flag of the data object is a label; records here carry no
    such field. *)
Definition onLanDiscovered (address : string) : M unit :=
  match ref_parseAddress address with
  | None => ret tt
  | Some peer =>
      match key peer with
      | None => ret tt
      | Some k =>
          if String.eqb k "" then ret tt
          else
            let data :=
              mkPeerData (Some k) None None None (Some "lan") None None None
                None None None None in
            follow <- gets (fun w => weFollowThem w (address, data)) ;;
            if follow then
              CONN.connect address (CONN.ArgObject data) CONN.ArgUndefined
            else
              _ <- CONN.stage address (Some data) ;; ret tt
      end
  end.




End ConnScheduler.
End ConnScheduler.

(** ** [src/gossip.ts]: the deprecated gossip plugin *)

Module Gossip.

(** A [Peer | string] argument as it arrives over RPC. *)
Inductive AddrArg :=
| AddrString (s : string)
| AddrObject (o : PeerData)
| AddrOther (isNull : bool).   (* undefined, null, numbers, booleans *)

Section Gossip.
Context `{Collaborators}.

(** [toBase64] on a string key; anything else is taken for a buffer, and
    a missing key has no [toString]. *)
Definition toBase64 (s : option string) : M string :=
  match s with
  | Some s => ret (js_substring s 1 (js_indexOf s "."))
  | None => throw "TypeError: Cannot read property 'toString' of undefined"
  end.

Definition toAddressString (o : PeerData) : M string :=
  if ref_isAddress (address o) then ret (js_str (address o))
  else if str_is (source o) "dht" then
    ret (("dht" +:+ ":" +:+ js_str (host o)) +:+ "~" +:+ "noauth")
  else
    let protocol :=
      match host o with
      | Some h => if negb (String.eqb h "") && js_endsWith h ".onion"
                  then "onion" else "net"
      | None => "net"
      end in
    b64 <- toBase64 (key o) ;;
    ret ((protocol +:+ ":" +:+ js_str (host o) +:+ ":" +:+ js_num (port o))
         +:+ "~" +:+ ("shs" +:+ ":" +:+ b64)).

Definition isDhtAddress (addr : string) : bool :=
  String.eqb (String.substring 0 4 addr) "dht:".

Definition parseDhtAddress (addr : string) : M PeerData :=
  let transport := hd "" (js_split "~"%char addr) in
  let parts := js_split ":"%char transport in
  let dhtTag := nth_error parts 0 in
  let seed := nth_error parts 1 in
  let remoteId := nth_error parts 2 in
  if negb (str_is dhtTag "dht") then throw ("Invalid DHT address " +:+ addr)
  else
    match remoteId with
    | None => throw "TypeError: Cannot read property '0' of undefined"
    | Some remoteId =>
        ret (mkPeerData
               (Some (if String.eqb (String.substring 0 1 remoteId) "@"
                      then remoteId else "@" +:+ remoteId))
               (Some (from_option id "undefined" seed +:+ ":" +:+ remoteId))
               (Some 0) (Some "dht") None None None None None None None None)
    end.

Definition parseAddress (address : string) : M (option PeerData) :=
  if isDhtAddress address then
    p <- parseDhtAddress address ;; ret (Some p)
  else
    match ref_parseAddress address with
    | Some legacyParsing => ret (Some legacyParsing)
    | None =>
        if ref_isAddress (Some address) then
          ret (Some (mkPeerData (ref_getKeyFromAddress address) None None None
                       None None None None None None None None))
        else ret None
    end.

Definition validateAddr (addr : AddrArg) : M (string * PeerData) :=
  match addr with
  | AddrOther _ => throw "address should be an object or string"
  | AddrString "" => throw "address should be an object or string"
  | AddrString s =>
      parsed <- parseAddress s ;;
      match parsed with
      | None => throw "TypeError: Cannot read property 'key' of undefined"
      | Some parsed =>
          if negb (match key parsed with
                   | Some k => negb (String.eqb k "")
                   | None => false
                   end)
          then throw "address must have ed25519 key"
          else if negb (ref_isFeed (key parsed))
          then throw "key must be ed25519 public id"
          else ret (s, parsed)
      end
  | AddrObject o =>
      addressString <- toAddressString o ;;
      if negb (match key o with
               | Some k => negb (String.eqb k "")
               | None => false
               end)
      then throw "address must have ed25519 key"
      else if negb (ref_isFeed (key o))
      then throw "key must be ed25519 public id"
      else ret (addressString, o)
  end.

(** [x || 'manual'] for an optional string. *)
Definition orManual (src : option string) : string :=
  match src with
  | Some s => if String.eqb s "" then "manual" else s
  | None => "manual"
  end.

Definition with_source (src : option string) (d : PeerData) : PeerData :=
  mkPeerData (key d) (host d) (port d) src (type d) (autoconnect d)
    (stateChange d) (stagingUpdated d) (failure d) (duration_mean d)
    (ping_rtt_mean d) (address d).

(** [add(addr, source)]; the result is [undefined] ([None]) or a record. *)
Definition add (addr : AddrArg) (src : option string) : M (option PeerData) :=
  validated <- validateAddr addr ;;
  let '(addressString, parsed) := validated in
  id <- gets ssb_id ;;
  if str_is (key parsed) id then ret None
  else if str_is src "local" then ret None
  else
    known <- gets (DB_has addressString) ;;
    if known then gets (DB_get addressString)
    else
      DB_set addressString
        (mkPeerData (key parsed) (host parsed) (port parsed) src None None
           None None None None None (Some addressString)) ;;;
      state <- gets (Hub_getState addressString) ;;
      modify (log_notify
                (Discover (with_source (Some (orManual src)) parsed) state
                   (orManual src))) ;;;
      stored <- gets (DB_get addressString) ;;
      ret (match stored with Some d => Some d | None => Some parsed end).

Definition inferSource (address : string) : string :=
  if String.prefix "net:" address then "local" else "manual".

Definition idToAddr (id : string) : M string :=
  addr <- gets (DB_getAddressForId id) ;;
  match addr with
  | Some a =>
      if String.eqb a "" then throw ("no known address for peer:" +:+ id)
      else ret a
  | None => throw ("no known address for peer:" +:+ id)
  end.

(** The [try] block shared by [connect] and [disconnect]: a feed id is
    looked up in the database first ([ref.isFeed] answers false on whatever
    is not a string), then the address is validated. *)
Definition resolveAddr (addr : AddrArg) : M string :=
  inputAddr <-
    match addr with
    | AddrString s =>
        if ref_isFeed (Some s) then a <- idToAddr s ;; ret (AddrString a)
        else ret addr
    | _ => ret addr
    end ;;
  validated <- validateAddr inputAddr ;;
  ret (fst validated).

Definition connect (addr : AddrArg) (cb : CONN.Arg) : M unit :=
  resolved <-
    tryCatch (a <- resolveAddr addr ;; ret (Some a))
             (fun _ => CONN.invoke cb ;;; ret None) ;;
  match resolved with
  | None => ret tt
  | Some addressString =>
      _ <- add (AddrString addressString) (Some "manual") ;;
      stagedData <-
        gets (fun w => from_option id emptyData (Staging_get addressString w)) ;;
      dbData <-
        gets (fun w => from_option id emptyData (DB_get addressString w)) ;;
      let data := mergeData dbData stagedData in
      CONN.connect addressString (CONN.ArgObject data) cb
  end.

Definition disconnect (addr : AddrArg) (cb : CONN.Arg) : M unit :=
  resolved <-
    tryCatch (a <- resolveAddr addr ;; ret (Some a))
             (fun _ => CONN.invoke cb ;;; ret None) ;;
  match resolved with
  | None => ret tt
  | Some addressString => CONN.disconnect addressString cb
  end.

(** [reconnect]. *)
Definition reconnect : M unit := Hub_reset.

End Gossip.
End Gossip.

(** ** One implementation of the outside packages

    Used to run the embedding on concrete pools. *)

Module Reference.

(** Modelled from the spec: [hasNoAttempts], "no recorded dial attempts"
    (§4.4); an attempt leaves a [stateChange]. *)
Definition hasNoAttempts (p : Peer) : bool :=
  match stateChange (snd p) with None => true | Some _ => false end.

(** Modelled from the spec: [hasSuccessfulAttempts], "≥1 connection
    completed"; a completed connection leaves a positive mean duration. *)
Definition hasSuccessfulAttempts (p : Peer) : bool :=
  match duration_mean (snd p) with Some d => 0 <? d | None => false end.

(** Modelled from the spec: [hasOnlyFailedAttempts], "≥1 attempt, all
    failed". *)
Definition hasOnlyFailedAttempts (p : Peer) : bool :=
  negb (hasNoAttempts p) && negb (hasSuccessfulAttempts p).

(** Modelled from the spec: [hasPinged], "ping.rtt.mean is defined". *)
Definition hasPinged (p : Peer) : bool :=
  match ping_rtt_mean (snd p) with Some _ => true | None => false end.

(** Modelled from the spec: [passesExpBackoff], "now − lastAttempt ≥
    min(step · 2^failures, max)". *)
Definition passesExpBackoff (step max now : Z) (p : Peer) : bool :=
  let lastAttempt := from_option id 0 (stateChange (snd p)) in
  let failures := from_option id 0 (failure (snd p)) in
  Z.min (step * 2 ^ failures) max <=? now - lastAttempt.

(** Modelled from the spec: the debounce group of a peer, "grouping is by
    host (or key when host is absent)". *)
Definition groupOf (p : Peer) : option string :=
  match host (snd p) with
  | Some h => Some h
  | None => key (snd p)
  end.

(** The two peers are in one debounce group. *)
Definition sameGroup (p q : Peer) : bool :=
  match groupOf p, groupOf q with
  | Some g, Some g' => String.eqb g g'
  | _, _ => false
  end.

(** The peer changed state within the last [min] ms. *)
Definition recentlyTried (min now : Z) (p : Peer) : bool :=
  match stateChange (snd p) with
  | Some t => now <? t + min
  | None => false
  end.

(** Modelled from the spec: "at most one address per debounce group is
    allowed to pass per min ms window"; the first peer of a group passes
    when nobody of the group was tried inside the window. *)
Fixpoint debounce (min now : Z) (seen rest : list Peer) : list Peer :=
  match rest with
  | [] => []
  | p :: rest' =>
      if existsb (sameGroup p) seen
         || existsb (fun q => sameGroup p q && recentlyTried min now q)
              (p :: rest')
      then debounce min now (p :: seen) rest'
      else p :: debounce min now (p :: seen) rest'
  end.

(** Modelled from the spec: [passesGroupDebounce] (§4.4). *)
Definition passesGroupDebounce (min now : Z) (group : list Peer) : list Peer :=
  debounce min now [] group.

(** [s.startsWith(pre)] for an optional string. *)
Definition startsWith (pre : string) (o : option string) : bool :=
  match o with
  | Some s => String.prefix pre s
  | None => false
  end.

(** Loopback hosts: 127.x.x.x and the IPv6 loopback spellings. *)
Definition ip_isLoopback (h : option string) : bool :=
  startsWith "127." h || str_is h "::1" || str_is h "fe80::1" || str_is h "::".

(** Privately routable IPv4 hosts. *)
Definition ip_isPrivate (h : option string) : bool :=
  startsWith "10." h || startsWith "192.168." h || startsWith "127." h
  || startsWith "169.254." h.

(** A multiserver address has a transport and a transform part. *)
Definition msAddress_check (a : Address) : bool :=
  (0 <? js_indexOf a ":") && (0 <? js_indexOf a "~").

(** A FeedId is "@<base64>.ed25519" (§3). *)
Definition ref_isFeed (k : option string) : bool :=
  match k with
  | Some k => String.prefix "@" k && js_endsWith k ".ed25519"
  | None => false
  end.

(** A multiserver address authenticated with shs. *)
Definition ref_isAddress (a : option string) : bool :=
  match a with
  | Some a => msAddress_check a && (0 <? js_indexOf a "~shs:")
  | None => false
  end.

(** The FeedId of the key after "~shs:". *)
Definition ref_getKeyFromAddress (a : string) : option FeedId :=
  match js_split "~"%char a with
  | _ :: transform :: _ =>
      match js_split ":"%char transform with
      | "shs" :: k :: _ => Some ("@" +:+ k +:+ ".ed25519")
      | _ => None
      end
  | _ => None
  end.

(** Host, port and key of "transport:host:port~shs:key" (§6). *)
Definition ref_parseAddress (a : string) : option PeerData :=
  match js_split "~"%char a with
  | transport :: _ :: _ =>
      match js_split ":"%char transport, ref_getKeyFromAddress a with
      | [_; h; p], Some k =>
          Some (mkPeerData (Some k) (Some h)
                  (option_map Z.of_int (NilZero.int_of_string p))
                  None None None None None None None None None)
      | _, _ => None
      end
  | _ => None
  end.

(** An insertion sort whose comparisons are answered by the oracle: a
    negative answer puts the new element first. *)
Fixpoint insertBlind {A} (results : nat -> Q) (k : nat) (x : A) (l : list A)
  : list A * nat :=
  match l with
  | [] => ([x], k)
  | y :: l' =>
      if Qle_bool 0 (results k)
      then let '(r, k') := insertBlind results (S k) x l' in (y :: r, k')
      else (x :: y :: l', S k)
  end.

(** The insertion sort built from it; also counts the comparisons. *)
Fixpoint sortBlind {A} (results : nat -> Q) (l : list A) : list A * nat :=
  match l with
  | [] => ([], O)
  | x :: l' =>
      let '(s, k) := sortBlind results l' in
      insertBlind results k x s
  end.

(** The packages put together; the two obligations are that the debounce
    only drops peers and that the blind sort only rearranges. *)
Definition collaborators : Collaborators.
Proof.
  refine (Build_Collaborators
            hasNoAttempts hasOnlyFailedAttempts hasPinged
            hasSuccessfulAttempts passesExpBackoff passesGroupDebounce
            ip_isLoopback ip_isPrivate msAddress_check
            ref_isFeed ref_isAddress ref_parseAddress ref_getKeyFromAddress
            (fun A results l => sortBlind results l) _ _).
  - intros min now group. unfold passesGroupDebounce.
    generalize (@nil (string * PeerData)).
    induction group as [|p rest IH]; intros seen; simpl.
    + apply incl_refl.
    + destruct (_ || _).
      * apply incl_tl, IH.
      * apply incl_cons; [left; reflexivity | apply incl_tl, IH].
  - intros A results l.
    assert (Hins : forall k (x : A) s,
               Permutation (x :: s) (fst (insertBlind results k x s))).
    { intros k x s. revert k.
      induction s as [|y s IH]; intros k; simpl.
      - apply Permutation_refl.
      - destruct (Qle_bool 0 (results k)).
        + specialize (IH (S k)).
          destruct (insertBlind results (S k) x s) as [r k']; simpl in *.
          rewrite perm_swap. apply perm_skip, IH.
        + apply Permutation_refl. }
    induction l as [|x l IH]; simpl.
    + apply Permutation_refl.
    + destruct (sortBlind results l) as [s k]; simpl in *.
      rewrite <- Hins. apply perm_skip, IH.
Defined.

End Reference.

(** ** Sample worlds *)

Module Examples.

Definition me : string := "@ME.ed25519".
Definition alice : string := "@ALICE.ed25519".
Definition bob : string := "@BOB.ed25519".
Definition carol : string := "@CAROL.ed25519".
Definition mallory : string := "@MALLORY.ed25519".

Definition addrOf (ip name : string) : string :=
  "net:" +:+ ip +:+ ":8008~shs:" +:+ name.

(** A record with a key, a host and the fields a scenario needs. *)
Definition record (k h : string) (src ty : option string)
    (changed staged : option Z) : PeerData :=
  mkPeerData (Some k) (Some h) (Some 8008) src ty None changed staged
    None None None None.

Definition world (database : list Peer) (live : list HubEntry)
    (staged : list Peer) (hopsTable : gmap string Z) (now : Z) : World :=
  mkWorld database live staged false false false 0 false hopsTable
    (mkConfig None None) 0 None now true true true me (fun _ => 1 # 2) O
    [] [].

(** Three staged peers we follow, nobody connected, an empty database. *)
Definition followedStaged : World :=
  world [] []
    [(addrOf "10.0.0.1" "ALICE", record alice "10.0.0.1" None (Some "pub") None (Some 1000));
     (addrOf "10.0.0.2" "BOB", record bob "10.0.0.2" None (Some "pub") None (Some 1000));
     (addrOf "10.0.0.3" "CAROL", record carol "10.0.0.3" None (Some "pub") None (Some 1000))]
    (<[alice := 1]> (<[bob := 1]> (<[carol := 1]> ∅)))
    5000.

Definition seedClass (p : Peer) : bool := str_is (source (snd p)) "seed".

Definition seed (ip name k : string) (changed : option Z) : Peer :=
  (addrOf ip name, record k ip (Some "seed") None changed None).

Definition live (p : Peer) : HubEntry := (fst p, (connected, snd p)).

(** Three connected seeds, for a class with quota 1. *)
Definition crowded : World :=
  world []
    [live (seed "1.1.1.1" "ALICE" alice (Some 300));
     live (seed "2.2.2.2" "BOB" bob (Some 100));
     live (seed "3.3.3.3" "CAROL" carol (Some 200))]
    [] ∅ 5000.

(** Two connected seeds and three more in the database, quota 3. *)
Definition bootstrapping : World :=
  world
    [seed "3.3.3.3" "CAROL" carol None;
     seed "4.4.4.4" "MALLORY" mallory None;
     seed "5.5.5.5" "ME" me None]
    [live (seed "1.1.1.1" "ALICE" alice (Some 300));
     live (seed "2.2.2.2" "BOB" bob (Some 100))]
    [] ∅ 5000.

(** At time 20 s: a LAN peer staged 5 s ago whose key we block. *)
Definition youngBlocked : Peer :=
  (addrOf "192.168.1.5" "MALLORY",
   record mallory "192.168.1.5" None (Some "lan") None (Some 15000)).

Definition blockedLan : World :=
  world [] [] [youngBlocked] (<[mallory := -1]> ∅) 20000.

(** At time 40 s: a LAN peer staged 10.1 s ago, one staged 9.9 s ago, a
    Bluetooth peer staged 30.1 s ago and the blocked LAN peer are staged; a
    peer we block is connected. *)
Definition oldLan : Peer :=
  (addrOf "192.168.1.6" "ALICE",
   record alice "192.168.1.6" None (Some "lan") None (Some 29900)).
Definition youngLan : Peer :=
  (addrOf "192.168.1.7" "BOB",
   record bob "192.168.1.7" None (Some "lan") None (Some 30100)).
Definition oldBt : Peer :=
  ("bt:aabbccddeeff~shs:CAROL",
   mkPeerData (Some carol) None None None (Some "bt") None None (Some 9900)
     None None None None).

Definition mixed : World :=
  world []
    [live (addrOf "6.6.6.6" "MALLORY",
           record mallory "6.6.6.6" None None (Some 39000) None)]
    [oldLan; youngLan; oldBt; youngBlocked]
    (<[mallory := -1]> ∅) 40000.

(** The same pools seen by a scheduler whose guards hold it back. *)
Definition guarded (hasDb ready loading : bool) (lastMessage : Z) : World :=
  mkWorld (db mixed) (hub mixed) (staging mixed) hasDb false loading
    lastMessage false (hops mixed) (mkConfig None None) 0 None 40000 true
    ready true me (fun _ => 1 # 2) O [] [].

(** At time 5 s: a pub the database holds with [autoconnect] off, nobody
    connected, nothing staged. *)
Definition suggestion : Peer :=
  (addrOf "9.9.9.9" "CAROL",
   mkPeerData (Some carol) (Some "9.9.9.9") (Some 8008) (Some "pub")
     (Some "pub") (Some false) None None None None None None).

Definition suggested : World := world [suggestion] [] [] ∅ 5000.

(** A scheduler with an update pending whose hub holds a connection, to a
    peer we block, under something that is not a multiserver address. *)
Definition wedged : World :=
  mkWorld []
    [("bogus", (connected, record mallory "6.6.6.6" None None (Some 39000) None))]
    [] false false false 0 true (<[mallory := -1]> ∅) (mkConfig None None)
    0 None 40000 true true true me (fun _ => 1 # 2) O [] [].


End Examples.

(** * Vocabulary of the properties

    World transformers, snapshots and assertions the statements below are
    phrased with. *)

Section Vocabulary.
Context `{Collaborators}.

(** ** Timestamps *)

(** Every record of the list carries a [stateChange]. *)
Definition timed (l : list Peer) : Prop :=
  Forall (fun p => stateChange (snd p) <> None) l.

(** The [stateChange] of a record that has one. *)
Definition stamp (p : Peer) : Z := from_option id 0 (stateChange (snd p)).

(** ** Requests and what they do to the world *)

(** Several calls appended to the log at once. *)
Definition log_calls (cs : list Call) (w : World) : World :=
  mkWorld (db w) (hub w) (staging w) (hasSsbDb w) (closed w)
    (isLoadingHops w) (lastMessageAt w) (hasScheduledAnUpdate w) (hops w)
    (config w) (lastCheck w) (lastValue w) (clock w) (network w) (logReady w)
    (hasFriendsHops w) (ssb_id w) (rand w) (randIx w) (calls w ++ cs)
    (notified w).

(** [msAddress.check] accepts the address. *)
Definition valid (a : Address) : Prop := msAddress_check a = true.

(** Every address held by a pool is a multiserver address: [remember]
    and [connect] refuse others. *)
Definition validPools (w : World) : Prop :=
  Forall valid (map fst (db w)) /\
  Forall valid (map fst (hub w)) /\
  Forall valid (map fst (staging w)).

(** What a disconnect request of the scheduler does to the world. *)
Definition disconnectW (a : Address) (w : World) : World :=
  set_hub (remove_addr a) (log_call (HubDisconnect a) w).

(** What a dial request of the scheduler does to the world. *)
Definition connectW (a : Address) (w : World) : World :=
  let w1 := log_call (HubConnect a None) w in
  if Hub_isActive a w then w1
  else
    set_staging (remove_addr a)
      (set_hub
         (fun l => remove_addr a l
                   ++ [(a, (connecting, with_stateChange (clock w) emptyData))])
         w1).

(** What an unstage request does to the world. *)
Definition unstageW (a : Address) (w : World) : World :=
  set_staging (remove_addr a) (log_call (StagingUnstage a) w).

(** What a stage request of the scheduler does to the world. *)
Definition stageW (a : Address) (d : PeerData) (w : World) : World :=
  match Hub_getState a w with
  | Some _ => w
  | None =>
      let w1 := log_call (StagingStage a d) w in
      if has_addr a (staging w) then w1
      else set_staging
             (fun l => l ++ [(a, with_stagingUpdated (clock w) d)]) w1
  end.

(** Several addresses removed from a pool. *)
Definition removeAll {V} (gone : list Address) (l : list (Address * V))
  : list (Address * V) :=
  fold_left (fun l a => remove_addr a l) gone l.

(** The entry's address is not among the removed ones. *)
Definition gone_from (gone : list Address) {V} (e : Address * V) : bool :=
  negb (existsb (String.eqb (fst e)) gone).


(** ** The debounced network probe *)

(** What [hasNetworkDebounced] answers in this world. *)
Definition answer (w : World) : option bool :=
  if lastCheck w + 1000 <? clock w then Some (network w) else lastValue w.

(** The world after [hasNetworkDebounced] has been asked. *)
Definition refreshed (w : World) : World :=
  if lastCheck w + 1000 <? clock w
  then set_netCache (clock w) (Some (network w)) w
  else w.

(** Judging this peer asks the probe: its host is neither loopback nor
    localhost. *)
Definition asksNetwork (p : Peer) : bool :=
  negb (ip_isLoopback (host (snd p)) || str_is (host (snd p)) "localhost").

(** The network predicate [canBeConnected] of §4.6.3 for a given probe
    answer. *)
Definition onlineBy (v : option bool) (p : Peer) : bool :=
  ip_isLoopback (host (snd p)) || str_is (host (snd p)) "localhost"
  || match v with Some b => b | None => false end.

(** ** What a run leaves alone *)

(** The fields no run of the scheduler writes. *)
Definition frame (w : World) :=
  (db w, hops w, clock w, config w, network w, rand w, ssb_id w, notified w,
   (hasSsbDb w, closed w, isLoadingHops w, lastMessageAt w,
    hasScheduledAnUpdate w, logReady w, hasFriendsHops w)).

(** The cache of the network probe. *)
Definition cacheOf (w : World) := (lastCheck w, lastValue w).

(** The fields a class pass reads besides the pools. *)
Definition ambient (w : World) := (frame w, cacheOf w, randIx w).

(** The part of the world staging maintenance never changes. *)
Definition outsideStaging (w : World) :=
  (frame w, hub w, cacheOf w, randIx w).

(** A computation that only inspects its arguments. *)
Definition inert {A} (m : M A) : Prop :=
  forall w,
    match m w with
    | Returned _ w' => w' = w
    | Thrown _ w' => w' = w
    end.

(** ** One class pass (§4.6.3, steps 1 to 6), from the world it starts in *)

(** Step 1: the in-connection peers of the class. *)
Definition passUp (test : Peer -> bool) (w : World) : list Peer :=
  List.filter test (peersInConnection w).

(** Step 1: the connectable database peers of the class. *)
Definition passDown (test : Peer -> bool) (w : World) : list Peer :=
  List.filter test (peersConnectable OriginDb w).

(** Step 2: how many peers are in excess. *)
Definition excessOf (q up : Z) : Z := if q * 2 <? up then up - q else 0.

(** Step 2: the peers disconnected for excess. *)
Definition passExcess (test : Peer -> bool) (opts : ConnScheduler.Opts)
    (w : World) : list Peer :=
  ConnScheduler.take
    (excessOf (ConnScheduler.quota opts) (Z.of_nat (length (passUp test w))))
    (sortByStateChange (passUp test w)).

(** Step 3: the free slots. *)
Definition passFree (test : Peer -> bool) (opts : ConnScheduler.Opts)
    (w : World) : Z :=
  ConnScheduler.neverJustOne
    (Z.max (ConnScheduler.quota opts - Z.of_nat (length (passUp test w))) 0).

(** Step 4: [autoconnect] is not [false]. *)
Definition autoconnectable (p : Peer) : bool :=
  negb (match autoconnect (snd p) with Some false => true | _ => false end).

(** Steps 4 and 5: the candidates that pass every filter. *)
Definition passSurvivors (test : Peer -> bool) (opts : ConnScheduler.Opts)
    (w : World) : list Peer :=
  List.filter
    (passesExpBackoff (ConnScheduler.backoffStep opts)
       (ConnScheduler.backoffMax opts) (clock w))
    (passesGroupDebounce (ConnScheduler.groupMin opts) (clock w)
       (List.filter autoconnectable
          (List.filter (onlineBy (answer w))
             (List.filter (fun p => negb (ConnScheduler.weBlockThem w p))
                (passDown test w))))).

(** Step 6: the draw that decides between shuffling and sorting. *)
Definition passDraw (w : World) : Q := rand w (randIx w).

(** Step 6: the comparator answers a shuffle then consumes. *)
Definition shuffleAnswers (w : World) : nat -> Q :=
  fun k => (rand w (S (randIx w) + k)%nat - (1 # 2))%Q.

(** Step 6: the candidates in dialing order. *)
Definition passOrdered (test : Peer -> bool) (opts : ConnScheduler.Opts)
    (w : World) : list Peer :=
  if Qle_bool (passDraw w) (3 # 10)
  then fst (arraySort Peer (shuffleAnswers w) (passSurvivors test opts w))
  else sortByStateChange (passSurvivors test opts w).

(** Step 6: the peers dialed. *)
Definition passDials (test : Peer -> bool) (opts : ConnScheduler.Opts)
    (w : World) : list Peer :=
  ConnScheduler.take (passFree test opts w) (passOrdered test opts w).

(** Some candidate makes the pass ask the network probe. *)
Definition passProbes (test : Peer -> bool) (w : World) : bool :=
  existsb asksNetwork
    (List.filter (fun p => negb (ConnScheduler.weBlockThem w p))
       (passDown test w)).

(** The position in the random sequence after the pass. *)
Definition passDrawn (test : Peer -> bool) (opts : ConnScheduler.Opts)
    (w : World) : nat :=
  if Qle_bool (passDraw w) (3 # 10)
  then (S (randIx w)
        + snd (arraySort Peer (shuffleAnswers w) (passSurvivors test opts w)))%nat
  else S (randIx w).

(** The world a class pass ends in. *)
Definition passResult (test : Peer -> bool) (opts : ConnScheduler.Opts)
    (w : World) : World :=
  let w1 := fold_left (fun w p => disconnectW (fst p) w)
              (passExcess test opts w) w in
  let w2 := if passProbes test w then refreshed w1 else w1 in
  let w3 := set_randIx (passDrawn test opts w) w2 in
  fold_left (fun w p => connectW (fst p) w) (passDials test opts w) w3.

(** ** Staging maintenance (§4.6.2), from the world it starts in *)

(** What [stage] does to the staging pool, given the hub and the clock. *)
Definition stageL (h : list HubEntry) (now : Z) (a : Address) (d : PeerData)
    (s : list Peer) : list Peer :=
  match lookup_addr a h with
  | Some _ => s
  | None =>
      if has_addr a s then s else s ++ [(a, with_stagingUpdated now d)]
  end.

(** Several peers staged in a row. *)
Definition stageAll (h : list HubEntry) (now : Z) (l s : list Peer)
  : list Peer :=
  fold_left (fun s p => stageL h now (fst p) (snd p) s) l s.

(** Several peers unstaged in a row. *)
Definition unstageAll (l : list Peer) (w : World) : World :=
  fold_left (fun w p => unstageW (fst p) w) l w.

(** First loop: the database peers to stage. *)
Definition toStage (w : World) : list Peer :=
  List.filter
    (fun p => match autoconnect (snd p) with Some false => true | _ => false end)
    (List.filter (fun p => negb (ConnScheduler.weBlockThem w p))
       (peersConnectable OriginDb w)).

(** Second loop: the staged peers that are blocked. *)
Definition blockedStaged (w : World) : list Peer :=
  List.filter (ConnScheduler.weBlockThem w) (peersConnectable OriginStaging w).

(** Third and fourth loop: the staged peers of a type that are too old. *)
Definition agedStaged (kind : string) (ms : Z) (w : World) : list Peer :=
  List.filter
    (fun p => ConnScheduler.olderThan (stagingUpdated (snd p)) ms (clock w))
    (List.filter (fun p => str_is (type (snd p)) kind)
       (peersConnectable OriginStaging w)).

(** The world [updateStagingNow] ends in. *)
Definition stagingResult (w : World) : World :=
  let w1 := fold_left (fun w p => stageW (fst p) (snd p) w) (toStage w) w in
  let w2 := unstageAll (blockedStaged w1) w1 in
  let w3 := unstageAll (agedStaged "lan" 10000 w2) w2 in
  unstageAll (agedStaged "bt" 30000 w3) w3.

(** One purge loop on the staging pool: the entries selected among the
    connectable ones are unstaged by address. *)
Definition purgeStep (idle sel : Peer -> bool) (s : list Peer) : list Peer :=
  removeAll (map fst (List.filter sel (List.filter idle s))) s.

(** The peer's address is not live in the hub. *)
Definition idleIn (w : World) (p : Peer) : bool :=
  negb (Hub_isActive (fst p) w).

(** The peer is of the given type and was staged more than [ms] ago. *)
Definition aged (kind : string) (ms : Z) (w : World) (p : Peer) : bool :=
  str_is (type (snd p)) kind
  && ConnScheduler.olderThan (stagingUpdated (snd p)) ms (clock w).

(** The staging pool after [updateStagingNow]. *)
Definition stagedAfter (w : World) : list Peer :=
  purgeStep (idleIn w) (aged "bt" 30000 w)
    (purgeStep (idleIn w) (aged "lan" 10000 w)
       (purgeStep (idleIn w) (ConnScheduler.weBlockThem w)
          (stageAll (hub w) (clock w) (toStage w) (staging w)))).

(** §3, pool membership invariant 1: nothing staged is live in the hub. *)
Definition stagedAreIdle (w : World) : Prop :=
  forall e, In e (staging w) -> Hub_isActive (fst e) w = false.

(** ** Assertions on whole ticks *)








(** ** Runs that may throw *)

(** The world a run ends in, whether it returns or throws. *)
Definition after {A} (o : Outcome A) : World :=
  match o with
  | Returned _ w => w
  | Thrown _ w => w
  end.

(** The run returns. *)
Definition returns {A} (o : Outcome A) : bool :=
  match o with
  | Returned _ _ => true
  | Thrown _ _ => false
  end.

(** Whatever its outcome, a run of the computation takes a world to one
    related to it. *)
Definition keeps {A} (R : World -> World -> Prop) (m : M A) : Prop :=
  forall w, R w (after (m w)).

(** The relation of a run that maintains an invariant. *)
Definition maintains (I : World -> Prop) (w w' : World) : Prop := I w -> I w'.

(** The relation of a run that leaves the frame alone. *)
Definition sameFrame (w w' : World) : Prop := frame w' = frame w.

(** The hub and the staging pool are keyed by address, and nothing staged
    is live in the hub (§3, invariant 1). *)
Definition poolsKeyed (w : World) : Prop :=
  stagedAreIdle w /\
  List.NoDup (map fst (staging w)) /\
  List.NoDup (map fst (hub w)).

(** The hub is keyed by address. *)
Definition hubKeyed (w : World) : Prop := List.NoDup (map fst (hub w)).

(** The peer answered a ping or is on the local network: what
    [updateHubNow] calls permanent. *)
Definition permanent (p : Peer) : bool :=
  hasPinged p || ConnScheduler.isLocal p.



(** What the purges of [updateHubNow] start from: multiserver addresses
    in the pools, the clock of the run, and a keyed hub. *)
Definition ready (now : Z) (w : World) : Prop :=
  (validPools w /\ clock w = now) /\ hubKeyed w.

(** ** The dial requests of a run *)

(** The addresses a sequence of calls dials. *)
Definition dialsOf (cs : list Call) : list Address :=
  flat_map (fun c => match c with HubConnect a _ => [a] | _ => [] end) cs.






(** ** Strings *)

(** The string with every occurrence of a character removed. *)
Fixpoint withoutChar (c : ascii) (s : string) : string :=
  match s with
  | EmptyString => EmptyString
  | String x rest =>
      if Ascii.eqb x c then withoutChar c rest
      else String x (withoutChar c rest)
  end.

(** The character occurs in the string. *)
Fixpoint occurs (c : ascii) (s : string) : bool :=
  match s with
  | EmptyString => false
  | String x rest => Ascii.eqb x c || occurs c rest
  end.

(** ** The Bluetooth scan *)

(** The record the scan handler builds for a device. *)
Definition btRecord (btPeer : ConnScheduler.BTPeer) : PeerData :=
  mkPeerData (Some (ConnScheduler.peerId btPeer)) None None None (Some "bt")
    None None None None None None None.

(** What the handler of a scan may log for the devices [discovered]: a
    dial without data for a device we follow, an offer to the staging pool
    for any other. *)
Definition scanCall (w : World) (discovered : list ConnScheduler.BTPeer)
    (c : Call) : Prop :=
  exists bt,
    In bt discovered /\
    ((c = HubConnect (ConnScheduler.btAddress bt) None /\
      ConnScheduler.weFollowThem w (ConnScheduler.btAddress bt, btRecord bt)
      = true) \/
     (c = StagingStage (ConnScheduler.btAddress bt) (btRecord bt) /\
      ConnScheduler.weFollowThem w (ConnScheduler.btAddress bt, btRecord bt)
      = false)).

(** A step of the scan handler. *)
Definition scanning (discovered : list ConnScheduler.BTPeer) (w w' : World)
  : Prop :=
  hops w' = hops w /\ db w' = db w /\
  exists extra, calls w' = calls w ++ extra /\ Forall (scanCall w discovered) extra.

(** ** Starting and stopping *)

(** The record [populateWithSeeds] remembers for a seed address. *)
Definition seedRecord (addr : string) : PeerData :=
  mkPeerData (ref_getKeyFromAddress addr) None None (Some "seed") None None
    None None None None None None.

(** The database after the seeds have been remembered. *)
Definition seeded (seeds : list string) (d : list Peer) : list Peer :=
  fold_left (fun d s => upsert s (seedRecord s) d) seeds d.


(** ** Computations that ignore the world *)

(** The computation returns the same value, or throws the same error, in
    every world, and leaves the world as it was. *)
Definition worldless {A} (m : M A) : Prop :=
  exists o : A + string,
    forall w,
      m w = match o with
            | inl a => Returned a w
            | inr e => Thrown e w
            end.

End Vocabulary.

(** * Properties *)

(** ** Lists, association lists and the sort *)

Lemma take_incl {T} (n : Z) (l : list T) : incl (ConnScheduler.take n l) l.
Proof.
  unfold ConnScheduler.take. intros x Hx.
  rewrite <- (firstn_skipn (Z.to_nat (Z.max n 0)) l).
  apply in_or_app. now left.
Qed.

Lemma take_length {T} (n : Z) (l : list T) :
  Z.of_nat (length (ConnScheduler.take n l))
  = Z.min (Z.max n 0) (Z.of_nat (length l)).
Proof.
  unfold ConnScheduler.take. rewrite length_firstn. lia.
Qed.

Lemma insertByStateChange_perm p l :
  Permutation (p :: l) (insertByStateChange p l).
Proof.
  induction l as [|q l IH]; simpl.
  - apply Permutation_refl.
  - destruct (stateChange_le p q).
    + apply Permutation_refl.
    + rewrite perm_swap. apply perm_skip, IH.
Qed.

Lemma sortByStateChange_perm l : Permutation l (sortByStateChange l).
Proof.
  induction l as [|p l IH]; simpl.
  - apply Permutation_refl.
  - rewrite <- insertByStateChange_perm. apply perm_skip, IH.
Qed.

Lemma sortByStateChange_length l : length (sortByStateChange l) = length l.
Proof. symmetry. apply Permutation_length, sortByStateChange_perm. Qed.

Lemma sortByStateChange_incl l : incl (sortByStateChange l) l.
Proof.
  intros x Hx. eapply Permutation_in; [|exact Hx].
  apply Permutation_sym, sortByStateChange_perm.
Qed.

Lemma stateChange_le_stamp p q :
  stateChange (snd p) <> None -> stateChange (snd q) <> None ->
  stateChange_le p q = (stamp p <=? stamp q).
Proof.
  unfold stateChange_le, stamp.
  destruct (stateChange (snd p)), (stateChange (snd q)); simpl; congruence.
Qed.

Lemma insertByStateChange_sorted p l :
  timed (p :: l) ->
  Sorted (fun a b => stamp a <= stamp b) l ->
  Sorted (fun a b => stamp a <= stamp b) (insertByStateChange p l).
Proof.
  intros Ht Hs.
  induction l as [|q l IH]; simpl.
  - repeat constructor.
  - inversion Ht as [|? ? Hp Hql]; subst.
    inversion Hql as [|? ? Hq Hl]; subst.
    rewrite stateChange_le_stamp by assumption.
    destruct (Z.leb_spec (stamp p) (stamp q)) as [Hle|Hgt].
    + constructor; [assumption|]. constructor. exact Hle.
    + inversion Hs as [|? ? Hs' Hhd]; subst.
      constructor.
      * apply IH; [constructor; assumption | assumption].
      * destruct l as [|r l]; simpl.
        -- constructor. lia.
        -- inversion Hl as [|? ? Hr _]; subst.
           rewrite stateChange_le_stamp by assumption.
           destruct (Z.leb_spec (stamp p) (stamp r)).
           ++ constructor. lia.
           ++ constructor. inversion Hhd; subst. assumption.
Qed.

Lemma timed_perm l l' : Permutation l l' -> timed l -> timed l'.
Proof. intros Hp Ht. unfold timed in *. now rewrite <- Hp. Qed.

Lemma sortByStateChange_sorted l :
  timed l -> Sorted (fun a b => stamp a <= stamp b) (sortByStateChange l).
Proof.
  induction l as [|p l IH]; intros Ht; simpl.
  - constructor.
  - inversion Ht as [|? ? Hp Hl]; subst.
    apply insertByStateChange_sorted.
    + constructor; [assumption|].
      eapply timed_perm; [apply sortByStateChange_perm | assumption].
    + apply IH, Hl.
Qed.

(** In an ascending list every element of a prefix is at most every
    element of the rest. *)
Lemma sorted_prefix_le (l : list Peer) (n : nat) :
  Sorted (fun a b => stamp a <= stamp b) l ->
  forall x y, In x (firstn n l) -> In y (skipn n l) -> stamp x <= stamp y.
Proof.
  intros Hs.
  apply Sorted_StronglySorted in Hs; [|intros a b c; lia].
  revert n.
  induction Hs as [|a l Hl IH Hall]; intros n x y Hx Hy.
  - rewrite firstn_nil in Hx. destruct Hx.
  - destruct n as [|n]; simpl in *; [destruct Hx|].
    destruct Hx as [<-|Hx].
    + rewrite List.Forall_forall in Hall. apply Hall.
      rewrite <- (firstn_skipn n l). apply in_or_app. now right.
    + eapply IH; eassumption.
Qed.

Lemma lookup_addr_None {V} a (l : list (Address * V)) :
  lookup_addr a l = None <-> ~ In a (map fst l).
Proof.
  induction l as [|[a' v'] l IH]; simpl.
  - split; [intros _ []|reflexivity].
  - destruct (String.eqb_spec a' a) as [->|Hne].
    + split; [discriminate|]. intros Hn. exfalso. apply Hn. now left.
    + rewrite IH. split.
      * intros Hn [Heq|Hin]; [congruence|auto].
      * intros Hn Hin. apply Hn. now right.
Qed.

Lemma remove_addr_In {V} a (e : Address * V) l :
  In e (remove_addr a l) <-> In e l /\ fst e <> a.
Proof.
  unfold remove_addr. rewrite filter_In. cbv beta.
  destruct (String.eqb_spec (fst e) a); simpl; intuition congruence.
Qed.

(** ** Running the primitives *)

Lemma world_eta w :
  mkWorld (db w) (hub w) (staging w) (hasSsbDb w) (closed w)
    (isLoadingHops w) (lastMessageAt w) (hasScheduledAnUpdate w) (hops w)
    (config w) (lastCheck w) (lastValue w) (clock w) (network w) (logReady w)
    (hasFriendsHops w) (ssb_id w) (rand w) (randIx w) (calls w) (notified w)
  = w.
Proof. now destruct w. Qed.

Lemma bind_Returned {A B} (m : M A) (k : A -> M B) w a w' :
  m w = Returned a w' -> bind m k w = k a w'.
Proof. unfold bind. now intros ->. Qed.

Lemma forEach_run {A} (f : A -> M unit) (g : A -> World -> World) l :
  (forall x, In x l -> forall w, f x w = Returned tt (g x w)) ->
  forall w, forEach f l w = Returned tt (fold_left (fun w x => g x w) l w).
Proof.
  induction l as [|x l IH]; intros Hf w; simpl.
  - reflexivity.
  - unfold bind. rewrite Hf by now left.
    apply IH. intros y Hy. apply Hf. now right.
Qed.

Section Runs.
Context `{Collaborators}.

Lemma disconnect_run a w :
  valid a ->
  CONN.disconnect a CONN.ArgUndefined w = Returned tt (disconnectW a w).
Proof.
  intros Hv. unfold CONN.disconnect, tryCatch, bind, CONN.assertValidAddress.
  rewrite Hv. reflexivity.
Qed.

Lemma disconnect_throws a w :
  msAddress_check a = false ->
  CONN.disconnect a CONN.ArgUndefined w
  = Thrown "TypeError: cb is not a function" w.
Proof.
  intros Hv. unfold CONN.disconnect, tryCatch, bind, CONN.assertValidAddress.
  rewrite Hv. reflexivity.
Qed.

Lemma connect_run a d w :
  valid a ->
  CONN.connect a (CONN.ArgObject d) CONN.ArgUndefined w
  = Returned tt (connectW a w).
Proof.
  intros Hv.
  unfold CONN.connect, tryCatch, bind, CONN.assertValidAddress. simpl.
  rewrite Hv. cbn.
  unfold Hub_connect, connectW, bind, modify, gets. cbn.
  change (Hub_isActive a (log_call (HubConnect a None) w))
    with (Hub_isActive a w).
  destruct (Hub_isActive a w); reflexivity.
Qed.

Lemma unstage_run a w : CONN.unstage a w = Returned tt (unstageW a w).
Proof. reflexivity. Qed.

(** *** The debounced network probe *)

Lemma hasNetworkDebounced_run w :
  ConnScheduler.hasNetworkDebounced w = Returned (answer w) (refreshed w).
Proof.
  unfold ConnScheduler.hasNetworkDebounced, answer, refreshed, bind, gets.
  destruct (lastCheck w + 1000 <? clock w); reflexivity.
Qed.

Lemma canBeConnected_run p w :
  ConnScheduler.canBeConnected p w
  = Returned (onlineBy (answer w) p) (if asksNetwork p then refreshed w else w).
Proof.
  unfold ConnScheduler.canBeConnected, ConnScheduler.isOffline, bind,
    onlineBy, asksNetwork.
  destruct (ip_isLoopback (host (snd p)) || str_is (host (snd p)) "localhost");
    simpl.
  - reflexivity.
  - rewrite hasNetworkDebounced_run. unfold ret.
    now rewrite negb_involutive.
Qed.

Lemma answer_refreshed w : answer (refreshed w) = answer w.
Proof.
  unfold answer, refreshed.
  destruct (lastCheck w + 1000 <? clock w) eqn:E; simpl; [|now rewrite E].
  destruct (Z.ltb_spec (clock w + 1000) (clock w)); [lia | reflexivity].
Qed.

Lemma refreshed_idem w : refreshed (refreshed w) = refreshed w.
Proof.
  unfold refreshed at 1.
  destruct (lastCheck (refreshed w) + 1000 <? clock (refreshed w)) eqn:E;
    [|reflexivity].
  exfalso. revert E. unfold refreshed.
  destruct (lastCheck w + 1000 <? clock w) eqn:E'; simpl.
  - destruct (Z.ltb_spec (clock w + 1000) (clock w)); [lia | discriminate].
  - now rewrite E'.
Qed.

Lemma filterM_canBeConnected l w :
  filterM ConnScheduler.canBeConnected l w
  = Returned (List.filter (onlineBy (answer w)) l)
      (if existsb asksNetwork l then refreshed w else w).
Proof.
  revert w.
  induction l as [|p l IH]; intros w; simpl.
  - reflexivity.
  - unfold bind. rewrite canBeConnected_run.
    destruct (asksNetwork p); simpl.
    + rewrite IH, answer_refreshed, refreshed_idem. unfold ret.
      destruct (existsb asksNetwork l); reflexivity.
    + rewrite IH. reflexivity.
Qed.

End Runs.

(** ** What no run of the scheduler touches *)

Lemma weBlockThem_hops w w' p :
  hops w = hops w' -> ConnScheduler.weBlockThem w p = ConnScheduler.weBlockThem w' p.
Proof. unfold ConnScheduler.weBlockThem. now intros ->. Qed.

Section ClassPass.
Context `{Collaborators}.

Lemma frame_refreshed w : frame (refreshed w) = frame w.
Proof. unfold refreshed. now destruct (_ <? _). Qed.

Lemma disconnect_fold (l : list Peer) w :
  fold_left (fun w p => disconnectW (fst p) w) l w
  = set_hub (removeAll (map fst l))
      (log_calls (map HubDisconnect (map fst l)) w).
Proof.
  revert w.
  induction l as [|p l IH]; intros w; simpl.
  - unfold set_hub, log_calls, removeAll. simpl.
    rewrite app_nil_r. symmetry. apply world_eta.
  - rewrite IH. unfold set_hub, log_calls, disconnectW, log_call, removeAll.
    simpl. rewrite <- app_assoc. reflexivity.
Qed.

Lemma valid_in_pool {V} (l : list (Address * V)) (e : Address * V) :
  Forall valid (map fst l) -> In e l -> valid (fst e).
Proof.
  intros Hall Hin. rewrite List.Forall_forall in Hall.
  apply Hall. now apply in_map.
Qed.

Lemma peersInConnection_hub w p :
  In p (peersInConnection w) -> In (fst p) (map fst (hub w)).
Proof.
  unfold peersInConnection. rewrite in_map_iff.
  intros [e [<- He]]. apply filter_In in He. simpl.
  apply in_map. tauto.
Qed.

Lemma passExcess_valid test opts w :
  validPools w -> forall p, In p (passExcess test opts w) -> valid (fst p).
Proof.
  intros (_ & Hhub & _) p Hp.
  apply take_incl, sortByStateChange_incl, filter_In in Hp.
  destruct Hp as [Hp _]. apply peersInConnection_hub in Hp.
  rewrite List.Forall_forall in Hhub. now apply Hhub.
Qed.

Lemma passSurvivors_down test opts w :
  incl (passSurvivors test opts w) (passDown test w).
Proof.
  intros p Hp. unfold passSurvivors in Hp.
  apply filter_In in Hp. destruct Hp as [Hp _].
  apply passesGroupDebounce_incl in Hp.
  do 3 (apply filter_In in Hp; destruct Hp as [Hp _]).
  exact Hp.
Qed.

Lemma passOrdered_survivors test opts w :
  Permutation (passSurvivors test opts w) (passOrdered test opts w).
Proof.
  unfold passOrdered. destruct (Qle_bool _ _).
  - apply arraySort_perm.
  - apply sortByStateChange_perm.
Qed.

Lemma passDials_down test opts w :
  incl (passDials test opts w) (passDown test w).
Proof.
  intros p Hp. apply take_incl in Hp.
  apply passSurvivors_down with (opts := opts).
  eapply Permutation_in; [|exact Hp].
  apply Permutation_sym, passOrdered_survivors.
Qed.

Lemma passDials_valid test opts w :
  validPools w -> forall p, In p (passDials test opts w) -> valid (fst p).
Proof.
  intros (Hdb & _ & _) p Hp.
  apply passDials_down, filter_In in Hp. destruct Hp as [Hp _].
  apply filter_In in Hp. destruct Hp as [Hp _].
  eapply valid_in_pool; eassumption.
Qed.

End ClassPass.

Section ClassPassRun.
Context `{Collaborators}.

Lemma ambient_fields w w' :
  ambient w' = ambient w ->
  hops w' = hops w /\ clock w' = clock w /\ network w' = network w /\
  rand w' = rand w /\ lastCheck w' = lastCheck w /\
  lastValue w' = lastValue w /\ randIx w' = randIx w /\ db w' = db w.
Proof. unfold ambient, frame, cacheOf. intros E. repeat split; congruence. Qed.

Lemma ambient_disconnects (l : list Peer) w :
  ambient (fold_left (fun w p => disconnectW (fst p) w) l w) = ambient w.
Proof. now rewrite disconnect_fold. Qed.

Lemma answer_ambient w w' : ambient w' = ambient w -> answer w' = answer w.
Proof.
  intros E. apply ambient_fields in E.
  destruct E as (_ & Hc & Hn & _ & Hlc & Hlv & _).
  unfold answer. now rewrite Hc, Hn, Hlc, Hlv.
Qed.

Lemma pass_run test opts w :
  validPools w ->
  ConnScheduler.updateTheseConnections test opts w
  = Returned tt (passResult test opts w).
Proof.
  intros HV.
  unfold ConnScheduler.updateTheseConnections.
  unfold bind at 1, gets at 1. unfold bind at 1, gets at 1.
  cbv zeta.
  change (List.filter test (peersInConnection w)) with (passUp test w).
  change (List.filter test (peersConnectable OriginDb w)) with (passDown test w).
  erewrite bind_Returned;
    [|apply (forEach_run _ (fun p w => disconnectW (fst p) w));
      intros p Hp w0; apply disconnect_run;
      apply (passExcess_valid test opts w HV p Hp)].
  fold (excessOf (ConnScheduler.quota opts) (Z.of_nat (length (passUp test w)))).
  fold (passExcess test opts w).
  pose proof (ambient_disconnects (passExcess test opts w) w) as Hamb.
  unfold passResult. cbv zeta.
  set (w1 := fold_left _ (passExcess test opts w) w) in *.
  pose proof (ambient_fields _ _ Hamb)
    as (Hhops & Hclock & Hnet & Hrand & Hlc & Hlv & Hix & Hdb).
  unfold bind at 1, gets at 1.
  rewrite (filter_ext _ (fun p => negb (ConnScheduler.weBlockThem w p)))
    by (intros p; f_equal; now apply weBlockThem_hops).
  unfold bind at 1. rewrite filterM_canBeConnected.
  rewrite (answer_ambient _ _ Hamb).
  fold (passProbes test w).
  set (w2 := if passProbes test w then refreshed w1 else w1).
  assert (Hamb2 : frame w2 = frame w /\ randIx w2 = randIx w).
  { unfold ambient in Hamb. subst w2. destruct (passProbes test w).
    - rewrite frame_refreshed. split; [congruence|].
      unfold refreshed. destruct (_ <? _); simpl; congruence.
    - split; congruence. }
  destruct Hamb2 as [Hf2 Hix2].
  assert (Hclock2 : clock w2 = clock w) by (unfold frame in Hf2; congruence).
  assert (Hrand2 : rand w2 = rand w) by (unfold frame in Hf2; congruence).
  unfold bind at 1, gets at 1. rewrite Hclock2.
  unfold bind at 1, Math_random at 1. rewrite Hrand2, Hix2.
  fold (passDraw w).
  change (List.filter
            (passesExpBackoff (ConnScheduler.backoffStep opts)
               (ConnScheduler.backoffMax opts) (clock w)) _)
    with (passSurvivors test opts w).
  change (ConnScheduler.neverJustOne _) with (passFree test opts w).
  unfold passDials, passOrdered, passDrawn.
  destruct (Qle_bool (passDraw w) (3 # 10)) eqn:Edraw.
  - unfold bind at 1, ConnScheduler.shufflePeers at 1.
    cbn [rand randIx set_randIx]. rewrite Hrand2.
    fold (shuffleAnswers w).
    destruct (arraySort _ (shuffleAnswers w) (passSurvivors test opts w))
      as [sorted used] eqn:Esort.
    cbn [fst snd].
    change (set_randIx (S (randIx w) + used) (set_randIx (S (randIx w)) w2))
      with (set_randIx (S (randIx w) + used) w2).
    apply (forEach_run _ (fun p w => connectW (fst p) w)).
    intros p Hp w0. apply connect_run.
    apply (passDials_valid test opts w HV).
    unfold passDials, passOrdered. fold (passDraw w). rewrite Edraw, Esort.
    exact Hp.
  - unfold bind at 1, ret at 1.
    apply (forEach_run _ (fun p w => connectW (fst p) w)).
    intros p Hp w0. apply connect_run.
    apply (passDials_valid test opts w HV).
    unfold passDials, passOrdered. fold (passDraw w). rewrite Edraw.
    exact Hp.
Qed.
End ClassPassRun.

(** ** Effects of a class pass on the hub and on the call log *)




Lemma filter_filter_andb {A} (f g : A -> bool) l :
  List.filter f (List.filter g l) = List.filter (fun x => g x && f x) l.
Proof.
  induction l as [|x l IH]; simpl; [reflexivity|].
  destruct (g x); simpl; [destruct (f x)|]; now rewrite IH.
Qed.

Lemma removeAll_filter {V} gone (l : list (Address * V)) :
  removeAll gone l = List.filter (gone_from gone) l.
Proof.
  unfold removeAll. revert l.
  induction gone as [|a gone IH]; intros l; simpl.
  - unfold gone_from. simpl. induction l as [|e l IHl]; simpl; congruence.
  - rewrite IH. unfold remove_addr. rewrite filter_filter_andb.
    apply filter_ext. intros e. unfold gone_from. simpl.
    now rewrite negb_orb.
Qed.

Lemma removeAll_In {V} gone (e : Address * V) l :
  In e (removeAll gone l) <-> In e l /\ ~ In (fst e) gone.
Proof.
  rewrite removeAll_filter, filter_In. unfold gone_from.
  rewrite negb_true_iff, <- not_true_iff_false, existsb_exists.
  split; intros [Hin Hn]; split; try assumption.
  - intros Hg. apply Hn. exists (fst e). split; [assumption|].
    apply String.eqb_refl.
  - intros [a [Ha Heq]]. apply String.eqb_eq in Heq. congruence.
Qed.




Section PassEffects.
Context `{Collaborators}.

Lemma calls_connects (l : list Peer) w :
  calls (fold_left (fun w p => connectW (fst p) w) l w)
  = calls w ++ map (fun p => HubConnect (fst p) None) l.
Proof.
  revert w.
  induction l as [|p l IH]; intros w; simpl.
  - now rewrite app_nil_r.
  - rewrite IH. unfold connectW.
    destruct (Hub_isActive (fst p) w); simpl; now rewrite <- app_assoc.
Qed.

Lemma calls_refreshed w : calls (refreshed w) = calls w.
Proof. unfold refreshed. now destruct (_ <? _). Qed.

Lemma hub_refreshed w : hub (refreshed w) = hub w.
Proof. unfold refreshed. now destruct (_ <? _). Qed.

Lemma passResult_calls test opts w :
  calls (passResult test opts w)
  = calls w
    ++ map HubDisconnect (map fst (passExcess test opts w))
    ++ map (fun p => HubConnect (fst p) None) (passDials test opts w).
Proof.
  unfold passResult. cbv zeta.
  rewrite calls_connects, disconnect_fold. cbn [calls set_randIx].
  destruct (passProbes test w); rewrite ?calls_refreshed; simpl;
    now rewrite app_assoc.
Qed.

(** The hub just after the excess step of a pass. *)
Lemma passResult_hub_no_dials test opts w :
  passDials test opts w = [] ->
  hub (passResult test opts w)
  = removeAll (map fst (passExcess test opts w)) (hub w).
Proof.
  unfold passResult. cbv zeta. intros ->. simpl.
  rewrite disconnect_fold.
  destruct (passProbes test w); rewrite ?hub_refreshed; reflexivity.
Qed.







End PassEffects.

(** ** The quota engine: one class pass *)

Section QuotaEngine.
Context `{Collaborators}.



(** C1.  In a class pass the number of free slots handed to candidate
    selection is [max(quota - |up|, 0)], except that exactly 1 becomes 2;
    the promotion comes after the clamp, and the number of excess
    disconnections is computed without it. *)
Theorem free_slots_never_just_one test opts w :
  validPools w ->
  let up := Z.of_nat (length (List.filter test (peersInConnection w))) in
  let clamped := Z.max (ConnScheduler.quota opts - up) 0 in
  let free := if clamped =? 1 then 2 else clamped in
  let excess :=
    if ConnScheduler.quota opts * 2 <? up
    then up - ConnScheduler.quota opts else 0 in
  exists w',
    ConnScheduler.updateTheseConnections test opts w = Returned tt w' /\
    calls w' =
      calls w
      ++ map HubDisconnect
           (map fst
              (ConnScheduler.take excess
                 (sortByStateChange
                    (List.filter test (peersInConnection w)))))
      ++ map (fun p => HubConnect (fst p) None)
           (ConnScheduler.take free (passOrdered test opts w)) /\
    0 <= free /\ free <> 1 /\
    (ConnScheduler.quota opts - up = 1 -> free = 2) /\
    (ConnScheduler.quota opts - up <= 0 -> free = 0).
Proof.
  intros HV up clamped free excess.
  exists (passResult test opts w).
  split; [now apply pass_run|].
  split.
  - rewrite passResult_calls. unfold passExcess, passDials, passFree,
      ConnScheduler.neverJustOne, excessOf, passUp.
    fold up. fold clamped. subst free.
    destruct (clamped =? 1) eqn:E; [apply Z.eqb_eq in E; rewrite E|];
      reflexivity.
  - subst free clamped.
    destruct (Z.max (ConnScheduler.quota opts - up) 0 =? 1) eqn:E;
      [apply Z.eqb_eq in E | apply Z.eqb_neq in E]; repeat split; lia.
Qed.

(** C2.  When more than [2 * quota] in-connection peers match the class,
    exactly [|up| - quota] of them are disconnected, the ones with the
    smallest stateChange; with at most [2 * quota] the pass disconnects
    nobody. *)
Theorem excess_disconnects_oldest test opts w :
  validPools w ->
  0 <= ConnScheduler.quota opts ->
  let up := List.filter test (peersInConnection w) in
  let n := Z.of_nat (length up) in
  let victims :=
    firstn (Z.to_nat (n - ConnScheduler.quota opts)) (sortByStateChange up) in
  let kept :=
    skipn (Z.to_nat (n - ConnScheduler.quota opts)) (sortByStateChange up) in
  exists w',
    ConnScheduler.updateTheseConnections test opts w = Returned tt w' /\
    (ConnScheduler.quota opts * 2 < n ->
       calls w' = calls w ++ map HubDisconnect (map fst victims) /\
       Z.of_nat (length victims) = n - ConnScheduler.quota opts /\
       Permutation up (victims ++ kept) /\
       (timed up ->
        forall x y, In x victims -> In y kept -> stamp x <= stamp y) /\
       hub w' = removeAll (map fst victims) (hub w) /\
       (forall p, In p victims -> Hub_getState (fst p) w' = None)) /\
    (n <= ConnScheduler.quota opts * 2 ->
       calls w' =
         calls w
         ++ map (fun p => HubConnect (fst p) None) (passDials test opts w)).
Proof.
  intros HV Hq up n victims kept.
  exists (passResult test opts w).
  split; [now apply pass_run|].
  split.
  - intros Hmany.
    assert (Hex : passExcess test opts w = victims).
    { unfold passExcess, ConnScheduler.take, excessOf. fold (passUp test w).
      change (passUp test w) with up. fold n.
      destruct (Z.ltb_spec (ConnScheduler.quota opts * 2) n); [|lia].
      subst victims. f_equal. lia. }
    assert (Hnodial : passDials test opts w = []).
    { unfold passDials, passFree, ConnScheduler.take,
        ConnScheduler.neverJustOne.
      change (passUp test w) with up. fold n.
      replace (Z.max (ConnScheduler.quota opts - n) 0) with 0 by lia.
      reflexivity. }
    assert (Hhub : hub (passResult test opts w)
                   = removeAll (map fst victims) (hub w))
      by (rewrite <- Hex; now apply passResult_hub_no_dials).
    repeat split.
    + rewrite passResult_calls, Hex, Hnodial. simpl. now rewrite app_nil_r.
    + subst victims. rewrite List.length_firstn, sortByStateChange_length.
      fold n. lia.
    + subst victims kept. rewrite firstn_skipn. apply sortByStateChange_perm.
    + intros Ht x y. apply sorted_prefix_le.
      now apply sortByStateChange_sorted.
    + exact Hhub.
    + intros p Hp. unfold Hub_getState. rewrite Hhub.
      replace (lookup_addr (fst p) (removeAll (map fst victims) (hub w)))
        with (@None (ConnectionState * PeerData)); [reflexivity|].
      symmetry. apply lookup_addr_None.
      rewrite in_map_iff. intros [e [He Hin]].
      apply removeAll_In in Hin. destruct Hin as [_ Hn]. apply Hn.
      rewrite He. now apply in_map.
  - intros Hfew.
    rewrite passResult_calls.
    assert (Hex : passExcess test opts w = []).
    { unfold passExcess, ConnScheduler.take, excessOf. fold (passUp test w).
      change (passUp test w) with up. fold n.
      destruct (Z.ltb_spec (ConnScheduler.quota opts * 2) n); [lia|].
      reflexivity. }
    now rewrite Hex.
Qed.

(** C3.  The dial candidates of a class pass are the connectable database
    peers matching the class that survive, in this order, the removal of
    blocked peers, of offline peers, of peers with autoconnect=false, the
    group debounce and the exponential backoff; they are shuffled when the
    draw is at most 0.3 and sorted ascending by stateChange otherwise, and
    the first free-slots many are dialed. *)
Theorem dial_candidates_pipeline test opts w :
  validPools w ->
  let now := clock w in
  let down := List.filter test (peersConnectable OriginDb w) in
  let unblocked :=
    List.filter (fun p => negb (ConnScheduler.weBlockThem w p)) down in
  let online := List.filter (onlineBy (answer w)) unblocked in
  let auto :=
    List.filter
      (fun p => negb (match autoconnect (snd p) with
                      | Some false => true
                      | _ => false
                      end)) online in
  let debounced :=
    passesGroupDebounce (ConnScheduler.groupMin opts) now auto in
  let survivors :=
    List.filter
      (passesExpBackoff (ConnScheduler.backoffStep opts)
         (ConnScheduler.backoffMax opts) now) debounced in
  let shuffle := Qle_bool (rand w (randIx w)) (3 # 10) in
  let ordered :=
    if shuffle
    then fst (arraySort Peer
                (fun k => (rand w (S (randIx w) + k)%nat - (1 # 2))%Q)
                survivors)
    else sortByStateChange survivors in
  let free :=
    ConnScheduler.neverJustOne
      (Z.max (ConnScheduler.quota opts
              - Z.of_nat (length (List.filter test (peersInConnection w))))
         0) in
  exists w',
    ConnScheduler.updateTheseConnections test opts w = Returned tt w' /\
    (exists disconnected,
       calls w' =
         calls w
         ++ map HubDisconnect disconnected
         ++ map (fun p => HubConnect (fst p) None)
              (ConnScheduler.take free ordered)) /\
    Permutation survivors ordered /\
    Z.of_nat (length (ConnScheduler.take free ordered))
    = Z.min (Z.max free 0) (Z.of_nat (length survivors)) /\
    (shuffle = false -> timed survivors ->
     Sorted (fun a b => stamp a <= stamp b) ordered).
Proof.
  intros HV now down unblocked online auto debounced survivors shuffle
    ordered free.
  exists (passResult test opts w).
  split; [now apply pass_run|].
  assert (Hperm : Permutation survivors ordered)
    by apply (passOrdered_survivors test opts w).
  repeat split.
  - eexists. rewrite passResult_calls. reflexivity.
  - exact Hperm.
  - rewrite take_length. now rewrite (Permutation_length Hperm).
  - intros Hs Ht. subst ordered. rewrite Hs.
    now apply sortByStateChange_sorted.
Qed.


End QuotaEngine.

(** ** The CONN facade *)

Section Facade.
Context `{Collaborators}.

(** C7.  [stage] refuses an address the hub has a state for: it answers
    false and changes nothing; only without a hub state does it hand the
    address to the staging pool and answer with the pool's result. *)
Theorem stage_refuses_live_address (a : Address) (data : option PeerData)
    (w : World) :
  CONN.stage a data w
  = match Hub_getState a w with
    | Some _ => Returned false w
    | None => Staging_stage a (from_option id CONN.stageDefault data) w
    end
  /\ (forall s, Hub_getState a w = Some s ->
        CONN.stage a data w = Returned false w)
  /\ (Hub_getState a w = None ->
        exists w',
          CONN.stage a data w
          = Returned (negb (has_addr a (staging w))) w' /\
          calls w'
          = calls w
            ++ [StagingStage a (from_option id CONN.stageDefault data)] /\
          staging w'
          = if has_addr a (staging w) then staging w
            else staging w
                 ++ [(a, with_stagingUpdated (clock w)
                           (from_option id CONN.stageDefault data))]).
Proof.
  assert (Heq : CONN.stage a data w
                = match Hub_getState a w with
                  | Some _ => Returned false w
                  | None =>
                      Staging_stage a (from_option id CONN.stageDefault data) w
                  end).
  { unfold CONN.stage, bind, gets. now destruct (Hub_getState a w). }
  split; [exact Heq|]. split.
  - intros s Hs. now rewrite Heq, Hs.
  - intros Hn. rewrite Heq, Hn.
    unfold Staging_stage, bind, modify, gets, ret. cbn.
    destruct (has_addr a (staging w)); eexists; repeat split; reflexivity.
Qed.

(** C9 (as amended).  The ping timeout is the configured [timers.ping]
    clamped into [10 s, 30 min] when that value is present and not zero,
    and 5 min when it is absent or zero. *)
Theorem ping_timeout_clamped (config : Config) :
  CONN.ping config
  = match timers config with
    | Some t =>
        match timers_ping t with
        | Some p => if p =? 0 then 300000
                    else Z.max 10000 (Z.min p 1800000)
        | None => 300000
        end
    | None => 300000
    end
  /\ 10000 <= CONN.ping config <= 1800000.
Proof.
  unfold CONN.ping, CONN.numberOr, CONN.MIN, CONN.MAX, CONN.DEFAULT.
  destruct (timers config) as [[[p|]]|]; simpl; try (split; [reflexivity|lia]).
  destruct (p =? 0); split; try reflexivity; lia.
Qed.

End Facade.

(** C9, as stated, fails for a configured timeout of zero: the heartbeat
    then runs with the default and not with the lower bound. *)
Lemma ping_zero_takes_default :
  ~ (forall (config : Config) (p : Z),
       timers config = Some (mkTimers (Some p)) ->
       CONN.ping config = Z.max 10000 (Z.min p 1800000)).
Proof.
  intros Hclaim.
  specialize (Hclaim (mkConfig None (Some (mkTimers (Some 0)))) 0 eq_refl).
  vm_compute in Hclaim. discriminate.
Qed.

(** ** The tick and its guards *)

Section Tick.
Context `{Collaborators}.

(** Past its three guards a tick is staging maintenance followed by hub
    maintenance. *)
Lemma updateNow_unguarded (w : World) :
  hasSsbDb w && negb (logReady w) = false ->
  (lastMessageAt w = 0 \/ lastMessageAt w <= clock w - 500) ->
  isLoadingHops w = false ->
  ConnScheduler.updateNow w
  = bind ConnScheduler.updateStagingNow
      (fun _ => ConnScheduler.updateHubNow) w.
Proof.
  intros Hdb Hquiet Hl.
  unfold ConnScheduler.updateNow, ConnScheduler.isCurrentlyDownloading.
  unfold bind at 1, gets at 1. unfold bind at 1, gets at 1.
  rewrite Hdb.
  unfold bind at 1. unfold bind at 1, gets at 1.
  unfold bind at 1, gets at 1. unfold ret at 1.
  assert (Hnot : negb (lastMessageAt w =? 0)
                 && (clock w - 500 <? lastMessageAt w) = false).
  { destruct (Z.eqb_spec (lastMessageAt w) 0); [reflexivity|]. simpl.
    apply Z.ltb_ge. lia. }
  rewrite Hnot.
  unfold bind at 1, gets at 1. rewrite Hl. reflexivity.
Qed.

(** C8.  [updateNow] leaves the world as it is when the message log exists
    and is not ready, when a message of another author arrived less than
    500 ms ago, or when the hops table is loading; otherwise it runs
    [updateStagingNow] and then [updateHubNow]. *)
Theorem updateNow_guards (w : World) :
  (hasSsbDb w = true -> logReady w = false ->
     ConnScheduler.updateNow w = Returned tt w) /\
  (lastMessageAt w <> 0 -> clock w - 500 < lastMessageAt w ->
     ConnScheduler.updateNow w = Returned tt w) /\
  (isLoadingHops w = true ->
     ConnScheduler.updateNow w = Returned tt w) /\
  (hasSsbDb w && negb (logReady w) = false ->
   (lastMessageAt w = 0 \/ lastMessageAt w <= clock w - 500) ->
   isLoadingHops w = false ->
     ConnScheduler.updateNow w
     = bind ConnScheduler.updateStagingNow
         (fun _ => ConnScheduler.updateHubNow) w) /\
  (forall author contentType,
     author <> ssb_id w -> 0 < clock w ->
     exists w',
       ConnScheduler.onPost author contentType w = Returned tt w' /\
       lastMessageAt w' = clock w /\ lastMessageAt w' <> 0 /\
       clock w' = clock w).
Proof.
  split; [|split; [|split; [|split]]].
  - intros Hdb Hready.
    unfold ConnScheduler.updateNow, bind, gets.
    now rewrite Hdb, Hready.
  - intros Hne Hlate.
    unfold ConnScheduler.updateNow, ConnScheduler.isCurrentlyDownloading,
      bind, gets, ret.
    destruct (hasSsbDb w && negb (logReady w)); [reflexivity|].
    destruct (Z.eqb_spec (lastMessageAt w) 0); [contradiction|].
    destruct (Z.ltb_spec (clock w - 500) (lastMessageAt w)); [|lia].
    reflexivity.
  - intros Hl.
    unfold ConnScheduler.updateNow, ConnScheduler.isCurrentlyDownloading,
      bind, gets, ret.
    destruct (hasSsbDb w && negb (logReady w)); [reflexivity|].
    destruct (negb (lastMessageAt w =? 0)
              && (clock w - 500 <? lastMessageAt w)); [reflexivity|].
    now rewrite Hl.
  - apply updateNow_unguarded.
  - intros author contentType Hauthor Hclock.
    unfold ConnScheduler.onPost, ConnScheduler.loadHops, bind, gets, modify,
      ret.
    apply String.eqb_neq in Hauthor. rewrite Hauthor. simpl.
    destruct (str_is contentType "contact"); cbn;
      [destruct (hasFriendsHops w)|]; cbn;
      eexists; (split; [reflexivity|]); cbn; repeat split; lia.
Qed.

End Tick.

(** ** The legacy gossip adapter *)

Section Legacy.
Context `{Collaborators}.

Lemma inert_ret {A} (a : A) : inert (ret a).
Proof. now intros w. Qed.

Lemma inert_throw {A} msg : inert (@throw A msg).
Proof. now intros w. Qed.

Lemma inert_bind {A B} (m : M A) (k : A -> M B) :
  inert m -> (forall a, inert (k a)) -> inert (bind m k).
Proof.
  intros Hm Hk w. unfold bind. specialize (Hm w).
  destruct (m w) as [a w1|e w1]; subst; [apply Hk | reflexivity].
Qed.

Lemma inert_toAddressString o : inert (Gossip.toAddressString o).
Proof.
  unfold Gossip.toAddressString, Gossip.toBase64.
  destruct (ref_isAddress (address o)); [apply inert_ret|].
  destruct (str_is (source o) "dht"); [apply inert_ret|].
  apply inert_bind; [|intros; apply inert_ret].
  destruct (key o); [apply inert_ret | apply inert_throw].
Qed.

Lemma inert_parseAddress s : inert (Gossip.parseAddress s).
Proof.
  unfold Gossip.parseAddress, Gossip.parseDhtAddress.
  destruct (Gossip.isDhtAddress s).
  - apply inert_bind; [|intros; apply inert_ret].
    destruct (negb _); [apply inert_throw|].
    destruct (nth_error _ 2); [apply inert_ret | apply inert_throw].
  - destruct (ref_parseAddress s); [apply inert_ret|].
    destruct (ref_isAddress (Some s)); apply inert_ret.
Qed.

Lemma inert_validateAddr addr : inert (Gossip.validateAddr addr).
Proof.
  unfold Gossip.validateAddr.
  destruct addr as [s|o|b]; [|  |apply inert_throw].
  - destruct s; [apply inert_throw|].
    apply inert_bind; [apply inert_parseAddress|].
    intros [parsed|]; [|apply inert_throw].
    destruct (negb _); [apply inert_throw|].
    destruct (negb _); [apply inert_throw | apply inert_ret].
  - apply inert_bind; [apply inert_toAddressString|].
    intros addressString.
    destruct (negb _); [apply inert_throw|].
    destruct (negb _); [apply inert_throw | apply inert_ret].
Qed.

(** C10.  When the validated key of the address is the local identity,
    [add] returns at once: the address database is not modified and no
    'discover' notification is pushed, whatever the source. *)
Theorem add_ignores_own_identity (addr : Gossip.AddrArg)
    (src : option string) (w w1 : World) (addressString : string)
    (parsed : PeerData) :
  Gossip.validateAddr addr w = Returned (addressString, parsed) w1 ->
  key parsed = Some (ssb_id w) ->
  exists w',
    Gossip.add addr src w = Returned None w' /\
    db w' = db w /\ notified w' = notified w /\ w' = w.
Proof.
  intros Hval Hkey.
  pose proof (inert_validateAddr addr w) as Hsame.
  rewrite Hval in Hsame. subst w1.
  exists w. split; [|repeat split].
  unfold Gossip.add. unfold bind at 1. rewrite Hval.
  unfold bind, gets, ret. rewrite Hkey. simpl.
  now rewrite String.eqb_refl.
Qed.

End Legacy.

(** ** Staging maintenance *)

Lemma has_addr_false {V} a (l : list (Address * V)) :
  has_addr a l = false <-> ~ In a (map fst l).
Proof.
  unfold has_addr. rewrite <- lookup_addr_None.
  destruct (lookup_addr a l); split; congruence.
Qed.

Lemma stageAll_incl h now l s : incl s (stageAll h now l s).
Proof.
  unfold stageAll. revert s.
  induction l as [|p l IH]; intros s; simpl; [apply incl_refl|].
  eapply incl_tran; [|apply IH].
  unfold stageL. destruct (lookup_addr (fst p) h); [apply incl_refl|].
  destruct (has_addr (fst p) s); [apply incl_refl | apply incl_appl, incl_refl].
Qed.

Lemma stageAll_In h now l s e :
  In e (stageAll h now l s) ->
  In e s \/
  exists p, In p l /\ e = (fst p, with_stagingUpdated now (snd p)) /\
            lookup_addr (fst p) h = None.
Proof.
  unfold stageAll. revert s.
  induction l as [|p l IH]; intros s; simpl; [now left|].
  intros He. apply IH in He. destruct He as [He|[q [Hq Hrest]]].
  - unfold stageL in He.
    destruct (lookup_addr (fst p) h) eqn:Eh; [now left|].
    destruct (has_addr (fst p) s); [now left|].
    apply in_app_or in He. destruct He as [He|[<-|[]]]; [now left|].
    right. exists p. repeat split; [now left | assumption].
  - right. exists q. split; [now right | assumption].
Qed.

Lemma stageAll_NoDup h now l s :
  List.NoDup (map fst s) -> List.NoDup (map fst (stageAll h now l s)).
Proof.
  unfold stageAll. revert s.
  induction l as [|p l IH]; intros s Hs; simpl; [assumption|].
  apply IH. unfold stageL.
  destruct (lookup_addr (fst p) h); [assumption|].
  destruct (has_addr (fst p) s) eqn:E; [assumption|].
  apply has_addr_false in E.
  rewrite List.map_app. simpl.
  apply List.NoDup_app; [assumption | repeat constructor; intros [] |].
  intros x Hx [<-|[]]. contradiction.
Qed.

Lemma NoDup_fst_unique {V} (l : list (Address * V)) a v v' :
  List.NoDup (map fst l) -> In (a, v) l -> In (a, v') l -> v = v'.
Proof.
  induction l as [|[b u] l IH]; simpl; [intros _ []|].
  intros Hnd Hin Hin'.
  inversion Hnd as [|? ? Hnotin Hnd']; subst.
  assert (Hfst : forall x, In (a, x) l -> In a (map fst l))
    by (intros x Hx; change a with (fst (a, x)); now apply in_map).
  destruct Hin as [E|Hin], Hin' as [E'|Hin'].
  - congruence.
  - injection E as -> ->. exfalso. eauto.
  - injection E' as -> ->. exfalso. eauto.
  - now apply IH.
Qed.

Section StagingRun.
Context `{Collaborators}.

Lemma stage_run a d w :
  bind (CONN.stage a (Some d)) (fun _ => ret tt) w
  = Returned tt (stageW a d w).
Proof.
  unfold CONN.stage, stageW, bind, gets, ret. simpl.
  destruct (Hub_getState a w); [reflexivity|].
  unfold Staging_stage, bind, modify, gets, ret. cbn.
  destruct (has_addr a (staging w)); reflexivity.
Qed.

Lemma stageW_outside a d w : outsideStaging (stageW a d w) = outsideStaging w.
Proof.
  unfold stageW. destruct (Hub_getState a w); [reflexivity|].
  now destruct (has_addr a (staging w)).
Qed.

Lemma stageW_staging a d w :
  staging (stageW a d w) = stageL (hub w) (clock w) a d (staging w).
Proof.
  unfold stageW, stageL, Hub_getState.
  destruct (lookup_addr a (hub w)); simpl; [reflexivity|].
  now destruct (has_addr a (staging w)).
Qed.

Lemma outsideStaging_fields w w' :
  outsideStaging w' = outsideStaging w ->
  hub w' = hub w /\ hops w' = hops w /\ clock w' = clock w /\
  db w' = db w /\ frame w' = frame w.
Proof. unfold outsideStaging, frame. intros E. repeat split; congruence. Qed.

Lemma stage_fold (l : list Peer) w :
  let w' := fold_left (fun w p => stageW (fst p) (snd p) w) l w in
  outsideStaging w' = outsideStaging w /\
  staging w' = stageAll (hub w) (clock w) l (staging w).
Proof.
  revert w.
  induction l as [|p l IH]; intros w; simpl; [split; reflexivity|].
  destruct (IH (stageW (fst p) (snd p) w)) as [Hout Hst].
  pose proof (stageW_outside (fst p) (snd p) w) as Hstep.
  destruct (outsideStaging_fields _ _ Hstep) as (Hh & _ & Hc & _).
  split; [congruence|].
  rewrite Hst, Hh, Hc, stageW_staging. reflexivity.
Qed.

Lemma unstage_fold (l : list Peer) w :
  unstageAll l w
  = set_staging (removeAll (map fst l))
      (log_calls (map StagingUnstage (map fst l)) w).
Proof.
  unfold unstageAll. revert w.
  induction l as [|p l IH]; intros w; simpl.
  - unfold set_staging, log_calls, removeAll. simpl.
    rewrite app_nil_r. symmetry. apply world_eta.
  - rewrite IH. unfold set_staging, log_calls, unstageW, log_call, removeAll.
    simpl. rewrite <- app_assoc. reflexivity.
Qed.

Lemma staging_run w :
  ConnScheduler.updateStagingNow w = Returned tt (stagingResult w).
Proof.
  unfold ConnScheduler.updateStagingNow, stagingResult.
  unfold bind at 1, gets at 1. fold (toStage w).
  erewrite bind_Returned;
    [|apply (forEach_run _ (fun p w => stageW (fst p) (snd p) w));
      intros p _ w0; apply stage_run].
  unfold bind at 1, gets at 1.
  erewrite bind_Returned;
    [|apply (forEach_run _ (fun p w => unstageW (fst p) w));
      intros p _ w0; apply unstage_run].
  unfold bind at 1, gets at 1.
  erewrite bind_Returned;
    [|apply (forEach_run _ (fun p w => unstageW (fst p) w));
      intros p _ w0; apply unstage_run].
  unfold bind at 1, gets at 1.
  apply (forEach_run _ (fun p w => unstageW (fst p) w)).
  intros p _ w0. apply unstage_run.
Qed.

End StagingRun.

Lemma purgeStep_In idle sel s e :
  In e (purgeStep idle sel s) <->
  In e s /\ ~ In (fst e) (map fst (List.filter sel (List.filter idle s))).
Proof. apply removeAll_In. Qed.

Lemma purgeStep_incl idle sel s : incl (purgeStep idle sel s) s.
Proof. intros e He. now apply purgeStep_In in He. Qed.

Lemma purgeStep_removes idle sel s e :
  In e s -> idle e = true -> sel e = true ->
  ~ In (fst e) (map fst (purgeStep idle sel s)).
Proof.
  intros Hin Hidle Hsel Hstill.
  apply in_map_iff in Hstill. destruct Hstill as [e' [Hfst He']].
  apply purgeStep_In in He'. destruct He' as [_ Hn]. apply Hn.
  rewrite Hfst. apply in_map. apply filter_In. split; [|assumption].
  apply filter_In. now split.
Qed.


Lemma purgeStep_keeps idle sel s a d :
  List.NoDup (map fst s) -> In (a, d) s -> sel (a, d) = false ->
  In (a, d) (purgeStep idle sel s).
Proof.
  intros Hnd Hin Hsel. apply purgeStep_In. split; [assumption|].
  simpl. intros Hgone. apply in_map_iff in Hgone.
  destruct Hgone as [[a' d'] [Hfst He]]. simpl in Hfst. subst a'.
  apply filter_In in He. destruct He as [He Hsel'].
  apply filter_In in He. destruct He as [He _].
  assert (d' = d) by (eapply NoDup_fst_unique; eassumption).
  congruence.
Qed.

Lemma purgeStep_NoDup idle sel s :
  List.NoDup (map fst s) -> List.NoDup (map fst (purgeStep idle sel s)).
Proof.
  intros Hnd. unfold purgeStep. rewrite removeAll_filter.
  generalize (gone_from (V := PeerData)
                (map fst (List.filter sel (List.filter idle s)))).
  intros f. induction s as [|e s IH]; simpl; [constructor|].
  inversion Hnd as [|? ? Hnotin Hnd']; subst.
  destruct (f e); simpl; [|now apply IH].
  constructor; [|now apply IH].
  intros Hin. apply Hnotin. apply in_map_iff in Hin.
  destruct Hin as [e' [Hfst He']]. apply filter_In in He'.
  rewrite <- Hfst. apply in_map. tauto.
Qed.

Section StagingFacts.
Context `{Collaborators}.

Lemma Hub_isActive_hub a w w' :
  hub w' = hub w -> Hub_isActive a w' = Hub_isActive a w.
Proof. unfold Hub_isActive, Hub_getState. now intros ->. Qed.

Lemma unstageAll_outside l w :
  outsideStaging (unstageAll l w) = outsideStaging w.
Proof. now rewrite unstage_fold. Qed.

Lemma unstageAll_staging l w :
  staging (unstageAll l w) = removeAll (map fst l) (staging w).
Proof. now rewrite unstage_fold. Qed.

Lemma blockedStaged_at w v :
  outsideStaging v = outsideStaging w ->
  staging (unstageAll (blockedStaged v) v)
  = purgeStep (idleIn w) (ConnScheduler.weBlockThem w) (staging v).
Proof.
  intros Hout. apply outsideStaging_fields in Hout.
  destruct Hout as (Hh & Hhops & _).
  rewrite unstageAll_staging. unfold purgeStep, blockedStaged,
    peersConnectable. do 2 f_equal.
  rewrite (filter_ext _ (ConnScheduler.weBlockThem w))
    by (intros p; now apply weBlockThem_hops).
  f_equal. apply filter_ext. intros p. unfold idleIn.
  now rewrite (Hub_isActive_hub _ w v).
Qed.

Lemma agedStaged_at kind ms w v :
  outsideStaging v = outsideStaging w ->
  staging (unstageAll (agedStaged kind ms v) v)
  = purgeStep (idleIn w) (aged kind ms w) (staging v).
Proof.
  intros Hout. apply outsideStaging_fields in Hout.
  destruct Hout as (Hh & _ & Hc & _).
  rewrite unstageAll_staging. unfold purgeStep, agedStaged,
    peersConnectable. do 2 f_equal.
  rewrite filter_filter_andb. rewrite Hc.
  rewrite (filter_ext _ (aged kind ms w)) by reflexivity.
  f_equal. apply filter_ext. intros p. unfold idleIn.
  now rewrite (Hub_isActive_hub _ w v).
Qed.


Lemma stagingResult_staging w : staging (stagingResult w) = stagedAfter w.
Proof.
  unfold stagingResult, stagedAfter. cbv zeta.
  destruct (stage_fold (toStage w) w) as [Hout1 Hst1].
  set (w1 := fold_left _ (toStage w) w) in *.
  assert (Hout2 : outsideStaging (unstageAll (blockedStaged w1) w1)
                  = outsideStaging w)
    by now rewrite unstageAll_outside.
  set (w2 := unstageAll (blockedStaged w1) w1) in *.
  assert (Hout3 : outsideStaging (unstageAll (agedStaged "lan" 10000 w2) w2)
                  = outsideStaging w)
    by now rewrite unstageAll_outside.
  set (w3 := unstageAll (agedStaged "lan" 10000 w2) w2) in *.
  rewrite (agedStaged_at "bt" 30000 w w3 Hout3).
  subst w3. rewrite (agedStaged_at "lan" 10000 w w2 Hout2).
  subst w2. rewrite (blockedStaged_at w w1 Hout1).
  now rewrite Hst1.
Qed.

End StagingFacts.

Lemma purgeStep_same_address idle sel s e a d :
  In e (purgeStep idle sel s) -> fst e = a -> In (a, d) s ->
  In (a, d) (purgeStep idle sel s).
Proof.
  intros He Hfst Hin. apply purgeStep_In in He. destruct He as [_ Hn].
  apply purgeStep_In. split; [assumption|]. simpl. congruence.
Qed.

Lemma str_is_true o lit : str_is o lit = true <-> o = Some lit.
Proof.
  unfold str_is. destruct o as [s|]; [|split; discriminate].
  rewrite String.eqb_eq. split; congruence.
Qed.

Section StagingClaims.
Context `{Collaborators}.




(** C6 (as amended).  A run of [updateStagingNow] unstages every staged
    LAN entry whose stagingUpdated + 10 s lies before now and every staged
    Bluetooth entry whose stagingUpdated + 30 s lies before now; an entry
    younger than its bound is kept unless its key is blocked. *)
Theorem staged_entries_age_out (w : World) :
  stagedAreIdle w ->
  List.NoDup (map fst (staging w)) ->
  exists w',
    ConnScheduler.updateStagingNow w = Returned tt w' /\
    (forall a d t,
       In (a, d) (staging w) -> type d = Some "lan" ->
       stagingUpdated d = Some t -> t + 10000 < clock w ->
       ~ In a (map fst (staging w'))) /\
    (forall a d t,
       In (a, d) (staging w) -> type d = Some "bt" ->
       stagingUpdated d = Some t -> t + 30000 < clock w ->
       ~ In a (map fst (staging w'))) /\
    (forall a d,
       In (a, d) (staging w) ->
       ConnScheduler.weBlockThem w (a, d) = false ->
       (type d = Some "lan" ->
        forall t, stagingUpdated d = Some t -> clock w <= t + 10000) ->
       (type d = Some "bt" ->
        forall t, stagingUpdated d = Some t -> clock w <= t + 30000) ->
       In (a, d) (staging w')).
Proof.
  intros Hidle Hnd.
  exists (stagingResult w). split; [apply staging_run|].
  rewrite stagingResult_staging. unfold stagedAfter.
  set (S1 := stageAll (hub w) (clock w) (toStage w) (staging w)).
  set (S2 := purgeStep (idleIn w) (ConnScheduler.weBlockThem w) S1).
  set (S3 := purgeStep (idleIn w) (aged "lan" 10000 w) S2).
  assert (Hin1 : forall e, In e (staging w) -> In e S1)
    by (intros e; apply stageAll_incl).
  assert (Hidle' : forall e, In e (staging w) -> idleIn w e = true)
    by (intros e He; unfold idleIn; now rewrite Hidle).
  split; [|split].
  - intros a d t Hin Hty Hup Hold Hstill.
    apply in_map_iff in Hstill. destruct Hstill as [e [Hfst He]].
    apply purgeStep_incl in He.
    assert (He2 : In e S2) by now apply purgeStep_incl in He.
    assert (Hd2 : In (a, d) S2)
      by (eapply purgeStep_same_address; [exact He2 | exact Hfst | auto]).
    refine (purgeStep_removes (idleIn w) (aged "lan" 10000 w) S2 (a, d)
              Hd2 (Hidle' _ Hin) _ _).
    + unfold aged, ConnScheduler.olderThan. simpl. rewrite Hty, Hup. simpl.
      now apply Z.ltb_lt.
    + simpl. rewrite <- Hfst. now apply in_map.
  - intros a d t Hin Hty Hup Hold Hstill.
    apply in_map_iff in Hstill. destruct Hstill as [e [Hfst He]].
    assert (He3 : In e S3) by now apply purgeStep_incl in He.
    assert (He2 : In e S2) by now apply purgeStep_incl in He3.
    assert (Hd2 : In (a, d) S2)
      by (eapply purgeStep_same_address; [exact He2 | exact Hfst | auto]).
    assert (Hd3 : In (a, d) S3)
      by (eapply purgeStep_same_address; [exact He3 | exact Hfst | auto]).
    refine (purgeStep_removes (idleIn w) (aged "bt" 30000 w) S3 (a, d)
              Hd3 (Hidle' _ Hin) _ _).
    + unfold aged, ConnScheduler.olderThan. simpl. rewrite Hty, Hup. simpl.
      now apply Z.ltb_lt.
    + simpl. rewrite <- Hfst. now apply in_map.
  - intros a d Hin Hfree Hlan Hbt.
    assert (Hnd1 : List.NoDup (map fst S1)) by now apply stageAll_NoDup.
    assert (Hnd2 : List.NoDup (map fst S2)) by now apply purgeStep_NoDup.
    assert (Hnd3 : List.NoDup (map fst S3)) by now apply purgeStep_NoDup.
    assert (Hyoung : forall kind ms,
              (type d = Some kind ->
               forall t, stagingUpdated d = Some t -> clock w <= t + ms) ->
              aged kind ms w (a, d) = false).
    { intros kind ms Hk. unfold aged, ConnScheduler.olderThan. simpl.
      destruct (str_is (type d) kind) eqn:Es; [|reflexivity].
      apply str_is_true in Es. simpl.
      destruct (stagingUpdated d) as [t|] eqn:Et; [|reflexivity].
      apply Z.ltb_ge. now apply Hk. }
    apply purgeStep_keeps; [assumption| |now apply Hyoung].
    apply purgeStep_keeps; [assumption| |now apply Hyoung].
    apply purgeStep_keeps; [assumption| |assumption].
    now apply Hin1.
Qed.

End StagingClaims.

(** ** A program logic for whole ticks *)








Section HubMaintenance.
Context `{Collaborators}.



















End HubMaintenance.

(** ** Whole ticks *)

Section TickClaims.
Context `{Collaborators}.


End TickClaims.

(** ** The theorems at work on the sample worlds *)

(** Two seeds connected, quota 3: one slot is free, two seeds are dialed. *)
Lemma free_slots_never_just_one_witness :
  exists w',
    ConnScheduler.updateTheseConnections (H := Reference.collaborators)
      Examples.seedClass (ConnScheduler.mkOpts 3 2000 600000 1000)
      Examples.bootstrapping = Returned tt w' /\
    calls w' =
      [HubConnect (Examples.addrOf "3.3.3.3" "CAROL") None;
       HubConnect (Examples.addrOf "4.4.4.4" "MALLORY") None].
Proof.
  assert (HV : validPools (H := Reference.collaborators)
                 Examples.bootstrapping)
    by (vm_compute; repeat constructor).
  pose proof (free_slots_never_just_one (H := Reference.collaborators)
                Examples.seedClass (ConnScheduler.mkOpts 3 2000 600000 1000)
                Examples.bootstrapping HV) as Hthm.
  cbv zeta in Hthm. destruct Hthm as (w' & Hrun & Hcalls & _).
  exists w'. split; [exact Hrun|].
  rewrite Hcalls. vm_compute. reflexivity.
Defined.

(** Three seeds connected, quota 1: the two oldest are disconnected. *)
Lemma excess_disconnects_oldest_witness :
  exists w',
    ConnScheduler.updateTheseConnections (H := Reference.collaborators)
      Examples.seedClass (ConnScheduler.mkOpts 1 2000 600000 1000)
      Examples.crowded = Returned tt w' /\
    calls w' =
      [HubDisconnect (Examples.addrOf "2.2.2.2" "BOB");
       HubDisconnect (Examples.addrOf "3.3.3.3" "CAROL")] /\
    map fst (hub w') = [Examples.addrOf "1.1.1.1" "ALICE"].
Proof.
  assert (HV : validPools (H := Reference.collaborators) Examples.crowded)
    by (vm_compute; repeat constructor).
  assert (Hq : 0 <= ConnScheduler.quota (ConnScheduler.mkOpts 1 2000 600000 1000))
    by (simpl; lia).
  pose proof (excess_disconnects_oldest (H := Reference.collaborators)
                Examples.seedClass (ConnScheduler.mkOpts 1 2000 600000 1000)
                Examples.crowded HV Hq) as Hthm.
  cbv zeta in Hthm. destruct Hthm as (w' & Hrun & Hmany & _).
  assert (Hlt : ConnScheduler.quota (ConnScheduler.mkOpts 1 2000 600000 1000) * 2
                < Z.of_nat (length (List.filter Examples.seedClass
                                      (peersInConnection Examples.crowded))))
    by (vm_compute; reflexivity).
  destruct (Hmany Hlt) as (Hcalls & _ & _ & _ & Hhub & _).
  exists w'. split; [exact Hrun|]. split.
  - rewrite Hcalls. vm_compute. reflexivity.
  - rewrite Hhub. vm_compute. reflexivity.
Defined.

(** The draw 1/2 sorts the three candidate seeds; the first two are dialed. *)
Lemma dial_candidates_pipeline_witness :
  exists w',
    ConnScheduler.updateTheseConnections (H := Reference.collaborators)
      Examples.seedClass (ConnScheduler.mkOpts 3 2000 600000 1000)
      Examples.bootstrapping = Returned tt w' /\
    exists disconnected,
      calls w' =
        map HubDisconnect disconnected
        ++ [HubConnect (Examples.addrOf "3.3.3.3" "CAROL") None;
            HubConnect (Examples.addrOf "4.4.4.4" "MALLORY") None].
Proof.
  assert (HV : validPools (H := Reference.collaborators)
                 Examples.bootstrapping)
    by (vm_compute; repeat constructor).
  pose proof (dial_candidates_pipeline (H := Reference.collaborators)
                Examples.seedClass (ConnScheduler.mkOpts 3 2000 600000 1000)
                Examples.bootstrapping HV) as Hthm.
  cbv zeta in Hthm. destruct Hthm as (w' & Hrun & (gone & Hcalls) & _).
  exists w'. split; [exact Hrun|]. exists gone.
  rewrite Hcalls. vm_compute. reflexivity.
Defined.




(** C6, as stated, fails for a young LAN entry whose key is blocked: the
    same run unstages it. *)
Lemma young_blocked_entry_is_unstaged :
  ~ (forall (w w' : World) (a : Address) (d : PeerData) (t : Z),
       stagedAreIdle w ->
       List.NoDup (map fst (staging w)) ->
       In (a, d) (staging w) ->
       type d = Some "lan" ->
       stagingUpdated d = Some t ->
       clock w <= t + 10000 ->
       ConnScheduler.updateStagingNow w = Returned tt w' ->
       In (a, d) (staging w')).
Proof.
  intros Hclaim.
  destruct (ConnScheduler.updateStagingNow Examples.blockedLan)
    as [[] w'|e w'] eqn:E; [|vm_compute in E; discriminate].
  assert (Hidle : stagedAreIdle Examples.blockedLan)
    by (intros e [<-|[]]; vm_compute; reflexivity).
  assert (Hnd : List.NoDup (map fst (staging Examples.blockedLan)))
    by (repeat constructor; intros []).
  specialize (Hclaim Examples.blockedLan w' (fst Examples.youngBlocked)
                (snd Examples.youngBlocked) 15000 Hidle Hnd
                (or_introl eq_refl) eq_refl eq_refl).
  assert (Hyoung : clock Examples.blockedLan <= 15000 + 10000)
    by (vm_compute; discriminate).
  specialize (Hclaim Hyoung E).
  vm_compute in E. injection E as <-.
  exact Hclaim.
Qed.

(** The LAN peer staged 10.1 s ago and the Bluetooth peer staged 30.1 s ago
    go, the LAN peer staged 9.9 s ago stays. *)
Lemma staged_entries_age_out_witness :
  exists w',
    ConnScheduler.updateStagingNow Examples.mixed = Returned tt w' /\
    ~ In (fst Examples.oldLan) (map fst (staging w')) /\
    ~ In (fst Examples.oldBt) (map fst (staging w')) /\
    In Examples.youngLan (staging w').
Proof.
  assert (Hidle : stagedAreIdle Examples.mixed)
    by (intros e [<-|[<-|[<-|[<-|[]]]]]; vm_compute; reflexivity).
  assert (Hnd : List.NoDup (map fst (staging Examples.mixed))).
  { vm_compute. repeat constructor; simpl; intuition discriminate. }
  destruct (staged_entries_age_out Examples.mixed Hidle Hnd)
    as (w' & Hrun & Hlan & Hbt & Hkeep).
  exists w'. split; [exact Hrun|]. split; [|split].
  - apply (Hlan (fst Examples.oldLan) (snd Examples.oldLan) 29900);
      [left; reflexivity | reflexivity | reflexivity | vm_compute; reflexivity].
  - apply (Hbt (fst Examples.oldBt) (snd Examples.oldBt) 9900);
      [right; right; left; reflexivity | reflexivity | reflexivity
      | vm_compute; reflexivity].
  - apply (Hkeep (fst Examples.youngLan) (snd Examples.youngLan));
      [right; left; reflexivity | vm_compute; reflexivity | |].
    + intros _ t [= <-]. vm_compute. discriminate.
    + intros [=].
Defined.

(** Staging a connected address is refused, staging a new one succeeds. *)
Lemma stage_refuses_live_address_witness :
  CONN.stage (Examples.addrOf "6.6.6.6" "MALLORY") None Examples.mixed
  = Returned false Examples.mixed /\
  exists w',
    CONN.stage (Examples.addrOf "7.7.7.7" "BOB") None Examples.mixed
    = Returned true w'.
Proof.
  destruct (stage_refuses_live_address
              (Examples.addrOf "6.6.6.6" "MALLORY") None Examples.mixed)
    as (_ & Hlive & _).
  destruct (stage_refuses_live_address
              (Examples.addrOf "7.7.7.7" "BOB") None Examples.mixed)
    as (_ & _ & Hfree).
  split.
  - apply (Hlive connected). vm_compute. reflexivity.
  - destruct (Hfree eq_refl) as (w' & Hrun & _). exists w'. exact Hrun.
Defined.

(** The three guards, and a message that arrived exactly 500 ms ago. *)
Lemma updateNow_guards_witness :
  ConnScheduler.updateNow (H := Reference.collaborators)
    (Examples.guarded true false false 0)
  = Returned tt (Examples.guarded true false false 0) /\
  ConnScheduler.updateNow (H := Reference.collaborators)
    (Examples.guarded false true false 39800)
  = Returned tt (Examples.guarded false true false 39800) /\
  ConnScheduler.updateNow (H := Reference.collaborators)
    (Examples.guarded false true true 0)
  = Returned tt (Examples.guarded false true true 0) /\
  ConnScheduler.updateNow (H := Reference.collaborators)
    (Examples.guarded true true false 39500)
  = bind ConnScheduler.updateStagingNow
      (fun _ => ConnScheduler.updateHubNow (H := Reference.collaborators))
      (Examples.guarded true true false 39500).
Proof.
  split; [|split; [|split]].
  - destruct (updateNow_guards (H := Reference.collaborators)
                (Examples.guarded true false false 0)) as (G & _).
    apply G; reflexivity.
  - destruct (updateNow_guards (H := Reference.collaborators)
                (Examples.guarded false true false 39800))
      as (_ & G & _).
    apply G; [discriminate | reflexivity].
  - destruct (updateNow_guards (H := Reference.collaborators)
                (Examples.guarded false true true 0))
      as (_ & _ & G & _).
    apply G; reflexivity.
  - destruct (updateNow_guards (H := Reference.collaborators)
                (Examples.guarded true true false 39500))
      as (_ & _ & _ & G & _).
    apply G; [reflexivity | right; vm_compute; discriminate | reflexivity].
Defined.

(** Adding our own address changes nothing. *)
Lemma add_ignores_own_identity_witness :
  exists w',
    Gossip.add (H := Reference.collaborators)
      (Gossip.AddrString "net:10.0.0.9:8008~shs:ME") (Some "manual")
      Examples.mixed = Returned None w' /\
    db w' = db Examples.mixed /\ notified w' = notified Examples.mixed.
Proof.
  destruct (add_ignores_own_identity (H := Reference.collaborators)
              (Gossip.AddrString "net:10.0.0.9:8008~shs:ME") (Some "manual")
              Examples.mixed Examples.mixed "net:10.0.0.9:8008~shs:ME"
              (mkPeerData (Some "@ME.ed25519") (Some "10.0.0.9") (Some 8008)
                 None None None None None None None None None)
              eq_refl eq_refl)
    as (w' & Hrun & Hdb & Hn & _).
  exists w'. repeat split; assumption.
Defined.

(** * The facade, the scheduler and the adapter beyond the pools *)

(** ** Association lists, continued *)

Lemma lookup_addr_remove_same {V} a (l : list (Address * V)) :
  lookup_addr a (remove_addr a l) = None.
Proof.
  apply lookup_addr_None. intros Hin. apply in_map_iff in Hin.
  destruct Hin as (e & He & Hin). apply remove_addr_In in Hin.
  destruct Hin as [_ Hne]. contradiction.
Qed.

Lemma lookup_addr_remove_other {V} a b (l : list (Address * V)) :
  b <> a -> lookup_addr b (remove_addr a l) = lookup_addr b l.
Proof.
  intros Hne. unfold remove_addr.
  induction l as [|[c v] l IH]; simpl; [reflexivity|].
  destruct (String.eqb_spec c a) as [->|Hca]; simpl.
  - destruct (String.eqb_spec a b) as [->|_]; [contradiction | exact IH].
  - destruct (String.eqb c b); [reflexivity | exact IH].
Qed.

Lemma lookup_addr_app {V} a (l l' : list (Address * V)) :
  lookup_addr a (l ++ l')
  = match lookup_addr a l with
    | Some v => Some v
    | None => lookup_addr a l'
    end.
Proof.
  induction l as [|[c v] l IH]; simpl; [reflexivity|].
  destruct (String.eqb c a); [reflexivity | exact IH].
Qed.

Lemma remove_addr_absent {V} a (l : list (Address * V)) :
  ~ In a (map fst l) -> remove_addr a l = l.
Proof.
  unfold remove_addr. induction l as [|[c v] l IH]; simpl; intros Hn.
  - reflexivity.
  - destruct (String.eqb_spec c a) as [->|Hca]; simpl.
    + exfalso. apply Hn. left. reflexivity.
    + f_equal. apply IH. intros Hin. apply Hn. right. exact Hin.
Qed.

Lemma remove_addr_app {V} a (l l' : list (Address * V)) :
  remove_addr a (l ++ l') = remove_addr a l ++ remove_addr a l'.
Proof. unfold remove_addr. apply List.filter_app. Qed.

Lemma remove_addr_NoDup {V} a (l : list (Address * V)) :
  List.NoDup (map fst l) -> List.NoDup (map fst (remove_addr a l)).
Proof.
  unfold remove_addr. induction l as [|[c v] l IH]; simpl; intros Hnd.
  - constructor.
  - inversion Hnd as [|? ? Hc Hl]; subst.
    destruct (negb (String.eqb c a)); simpl.
    + constructor; [|apply IH, Hl].
      intros Hin. apply Hc. apply in_map_iff in Hin.
      destruct Hin as (e & He & Hin). apply filter_In in Hin.
      apply in_map_iff. exists e. tauto.
    + apply IH, Hl.
Qed.

Lemma remove_addr_fst {V} a (l : list (Address * V)) b :
  In b (map fst (remove_addr a l)) <-> In b (map fst l) /\ b <> a.
Proof.
  rewrite !in_map_iff. split.
  - intros (e & He & Hin). apply remove_addr_In in Hin. subst b.
    split; [exists e|]; tauto.
  - intros ((e & He & Hin) & Hne). exists e. split; [exact He|].
    apply remove_addr_In. subst b. tauto.
Qed.

Lemma lookup_addr_upsert_same a d l :
  lookup_addr a (upsert a d l)
  = Some (match lookup_addr a l with
          | Some old => mergeData old d
          | None => d
          end).
Proof.
  induction l as [|[c v] l IH]; simpl.
  - rewrite String.eqb_refl. reflexivity.
  - destruct (String.eqb_spec c a) as [->|Hca]; simpl.
    + rewrite String.eqb_refl. reflexivity.
    + destruct (String.eqb_spec c a); [contradiction | exact IH].
Qed.

Lemma lookup_addr_upsert_other a b d l :
  b <> a -> lookup_addr b (upsert a d l) = lookup_addr b l.
Proof.
  intros Hne. induction l as [|[c v] l IH]; simpl.
  - destruct (String.eqb_spec a b) as [->|_]; [contradiction | reflexivity].
  - destruct (String.eqb_spec c a) as [->|Hca]; simpl.
    + destruct (String.eqb_spec a b) as [->|_]; [contradiction | reflexivity].
    + destruct (String.eqb c b); [reflexivity | exact IH].
Qed.

Lemma lookup_addr_In {V} a (v : V) l :
  lookup_addr a l = Some v -> In (a, v) l.
Proof.
  induction l as [|[c u] l IH]; simpl; [discriminate|].
  destruct (String.eqb_spec c a) as [->|_].
  - intros [= ->]. left. reflexivity.
  - intros Hl. right. apply IH, Hl.
Qed.


(** ** The CONN facade, continued *)

Section FacadeMore.
Context `{Collaborators}.

(** X1 ([CONN.connect], invalid addresses): an address that is not a
    multiserver address never reaches the hub.  The world is left as it
    was; the call returns when exactly one of the two trailing arguments is
    a function (the callback receives the error), and throws otherwise. *)
Theorem connect_refuses_invalid_address (a : Address) (second third : CONN.Arg)
    (w : World) :
  msAddress_check a = false ->
  after (CONN.connect a second third w) = w /\
  returns (CONN.connect a second third w)
  = xorb (CONN.isFunction second) (CONN.isFunction third).
Proof.
  intros Hbad. unfold CONN.connect, CONN.assertValidAddress, tryCatch, bind.
  destruct second, third; cbn; rewrite ?Hbad; cbn; split; reflexivity.
Qed.

(** X2 ([CONN.connect], the data argument): for a multiserver address that
    is not live, the record the hub creates carries the caller's data only
    when a callback follows it.  Called as [connect(address, data)], as the
    scheduler does, the data object is taken for the callback and the hub
    is dialed without data. *)
Theorem connect_passes_data_only_before_a_callback (a : Address)
    (d : PeerData) (w : World) :
  msAddress_check a = true ->
  Hub_isActive a w = false ->
  (exists w',
     CONN.connect a (CONN.ArgObject d) CONN.ArgFunction w = Returned tt w' /\
     calls w' = calls w ++ [HubConnect a (Some d)] /\
     lookup_addr a (hub w')
     = Some (connecting, with_stateChange (clock w) d)) /\
  (exists w',
     CONN.connect a (CONN.ArgObject d) CONN.ArgUndefined w = Returned tt w' /\
     calls w' = calls w ++ [HubConnect a None] /\
     lookup_addr a (hub w')
     = Some (connecting, with_stateChange (clock w) emptyData)).
Proof.
  intros Hok Hidle.
  assert (Hactive : forall c,
             Hub_isActive a (log_call c w) = false).
  { intros c. exact Hidle. }
  split; eexists;
    (split;
     [ unfold CONN.connect, CONN.assertValidAddress, tryCatch, bind,
         Hub_connect, modify, gets, ret; cbn; rewrite Hok; cbn;
       rewrite Hactive; cbn; reflexivity
     | split;
       [ reflexivity
       | unfold set_staging, set_hub, log_call; simpl hub;
         rewrite lookup_addr_app, lookup_addr_remove_same; simpl;
         rewrite String.eqb_refl; reflexivity ] ]).
Qed.


(** X3 ([CONN.disconnect]): with a multiserver address the call returns,
    the hub holds no state for the address afterwards and every other
    address keeps its state; the staging pool and the database are left
    alone, and a second call changes the hub no further.  With any other
    address the world is left as it was, and the call returns exactly when
    [cb] is a function. *)
Theorem disconnect_clears_the_address (a : Address) (cb : CONN.Arg)
    (w : World) :
  (msAddress_check a = true ->
   exists w' w'',
     CONN.disconnect a cb w = Returned tt w' /\
     Hub_getState a w' = None /\
     (forall b, b <> a -> Hub_getState b w' = Hub_getState b w) /\
     staging w' = staging w /\ db w' = db w /\
     calls w' = calls w ++ [HubDisconnect a] /\
     CONN.disconnect a cb w' = Returned tt w'' /\
     hub w'' = hub w') /\
  (msAddress_check a = false ->
   after (CONN.disconnect a cb w) = w /\
   returns (CONN.disconnect a cb w) = CONN.isFunction cb).
Proof.
  split; intros Hcheck.
  - assert (Hrun : forall v,
               CONN.disconnect a cb v = Returned tt (disconnectW a v)).
    { intros v. unfold CONN.disconnect, CONN.assertValidAddress, tryCatch,
        bind. rewrite Hcheck. reflexivity. }
    exists (disconnectW a w), (disconnectW a (disconnectW a w)).
    repeat split; try apply Hrun.
    + unfold Hub_getState. simpl hub. rewrite lookup_addr_remove_same.
      reflexivity.
    + intros b Hne. unfold Hub_getState. simpl hub.
      rewrite lookup_addr_remove_other by exact Hne. reflexivity.
    + simpl hub. apply remove_addr_absent. intros Hin.
      apply remove_addr_fst in Hin. destruct Hin as [_ Hne]. congruence.
  - unfold CONN.disconnect, CONN.assertValidAddress, tryCatch, bind.
    rewrite Hcheck. destruct cb; cbn; split; reflexivity.
Qed.

(** X4 ([CONN.remember], [CONN.forget]): with a multiserver address,
    [remember] stores the data merged over the record the address had, and
    [forget] removes the record again; neither touches the record of
    another address.  With any other address both throw and leave the
    database as it was. *)
Theorem remember_then_forget (a : Address) (data : option PeerData)
    (w : World) :
  (msAddress_check a = true ->
   exists w1 w2,
     CONN.remember a data w = Returned tt w1 /\
     DB_get a w1
     = Some (match DB_get a w with
             | Some old => mergeData old (from_option id emptyData data)
             | None => from_option id emptyData data
             end) /\
     (forall b, b <> a -> DB_get b w1 = DB_get b w) /\
     CONN.forget a w1 = Returned tt w2 /\
     DB_has a w2 = false /\
     (forall b, b <> a -> DB_get b w2 = DB_get b w)) /\
  (msAddress_check a = false ->
   (exists e, CONN.remember a data w = Thrown e w) /\
   (exists e, CONN.forget a w = Thrown e w)).
Proof.
  split; intros Hcheck.
  - exists (set_db (upsert a (from_option id emptyData data)) w),
      (set_db (remove_addr a)
         (set_db (upsert a (from_option id emptyData data)) w)).
    unfold CONN.remember, CONN.forget, CONN.assertValidAddress, bind.
    rewrite Hcheck. unfold DB_get, DB_has, has_addr. simpl db.
    repeat split.
    + apply lookup_addr_upsert_same.
    + intros b Hne. apply lookup_addr_upsert_other, Hne.
    + rewrite lookup_addr_remove_same. reflexivity.
    + intros b Hne. rewrite lookup_addr_remove_other by exact Hne.
      apply lookup_addr_upsert_other, Hne.
  - unfold CONN.remember, CONN.forget, CONN.assertValidAddress, bind.
    rewrite Hcheck. split; eexists; reflexivity.
Qed.

(** X5 ([CONN.stage], [CONN.unstage]): staging an address the hub and the
    staging pool do not know succeeds and records the data with the time of
    staging; staging it again is refused and changes nothing in the pool;
    unstaging it gives back the pool as it was. *)
Theorem stage_then_unstage (a : Address) (data : option PeerData)
    (w : World) :
  Hub_getState a w = None ->
  has_addr a (staging w) = false ->
  exists w1 w2 w3,
    CONN.stage a data w = Returned true w1 /\
    Staging_get a w1
    = Some (with_stagingUpdated (clock w)
              (from_option id CONN.stageDefault data)) /\
    hub w1 = hub w /\
    CONN.stage a data w1 = Returned false w2 /\
    staging w2 = staging w1 /\
    CONN.unstage a w1 = Returned tt w3 /\
    staging w3 = staging w.
Proof.
  intros Hstate Hfresh.
  set (d := from_option id CONN.stageDefault data).
  set (w1 := set_staging
               (fun l => l ++ [(a, with_stagingUpdated (clock w) d)])
               (log_call (StagingStage a d) w)).
  assert (Hnot : ~ In a (map fst (staging w)))
    by (apply has_addr_false; exact Hfresh).
  assert (Hget : lookup_addr a (staging w1)
                 = Some (with_stagingUpdated (clock w) d)).
  { subst w1. simpl staging. rewrite lookup_addr_app.
    apply lookup_addr_None in Hnot. rewrite Hnot. simpl.
    rewrite String.eqb_refl. reflexivity. }
  exists w1, (log_call (StagingStage a d) w1), (unstageW a w1).
  repeat split.
  - unfold CONN.stage, bind, gets, ret. rewrite Hstate.
    unfold Staging_stage, bind, modify, gets, ret. cbn.
    rewrite Hfresh. reflexivity.
  - exact Hget.
  - unfold CONN.stage, bind, gets, ret.
    change (Hub_getState a w1) with (Hub_getState a w). rewrite Hstate.
    unfold Staging_stage, bind, modify, gets, ret, has_addr.
    change (staging (log_call (StagingStage a (from_option id CONN.stageDefault data)) w1))
      with (staging w1).
    rewrite Hget. reflexivity.
  - subst w1. simpl staging. rewrite remove_addr_app.
    rewrite remove_addr_absent by exact Hnot.
    unfold remove_addr. simpl. rewrite String.eqb_refl. simpl.
    apply app_nil_r.
Qed.

End FacadeMore.

(** ** Runs that may throw: what every outcome preserves *)

Section Keeps.
Context `{Collaborators}.
Variable R : World -> World -> Prop.
Hypothesis R_refl : forall w, R w w.
Hypothesis R_trans : forall w1 w2 w3, R w1 w2 -> R w2 w3 -> R w1 w3.

Lemma keeps_ret {A} (a : A) : keeps R (ret a).
Proof. intros w. apply R_refl. Qed.

Lemma keeps_throw {A} msg : keeps R (@throw A msg).
Proof. intros w. apply R_refl. Qed.

Lemma keeps_gets {A} (f : World -> A) : keeps R (gets f).
Proof. intros w. apply R_refl. Qed.

Lemma keeps_modify (f : World -> World) :
  (forall w, R w (f w)) -> keeps R (modify f).
Proof. intros Hf w. apply Hf. Qed.

Lemma keeps_bind {A B} (m : M A) (k : A -> M B) :
  keeps R m -> (forall a, keeps R (k a)) -> keeps R (bind m k).
Proof.
  intros Hm Hk w. unfold bind. specialize (Hm w).
  destruct (m w) as [a w1|e w1]; simpl in *.
  - eapply R_trans; [exact Hm | apply Hk].
  - exact Hm.
Qed.

Lemma keeps_tryCatch {A} (body : M A) (handler : string -> M A) :
  keeps R body -> (forall e, keeps R (handler e)) ->
  keeps R (tryCatch body handler).
Proof.
  intros Hm Hk w. unfold tryCatch. specialize (Hm w).
  destruct (body w) as [a w1|e w1]; simpl in *.
  - exact Hm.
  - eapply R_trans; [exact Hm | apply Hk].
Qed.

Lemma keeps_forEach {A} (f : A -> M unit) (l : list A) :
  (forall x, keeps R (f x)) -> keeps R (forEach f l).
Proof.
  intros Hf. induction l as [|x l IH]; simpl.
  - apply keeps_ret.
  - apply keeps_bind; [apply Hf | intros _; exact IH].
Qed.

Lemma keeps_filterM {A} (f : A -> M bool) (l : list A) :
  (forall x, keeps R (f x)) -> keeps R (filterM f l).
Proof.
  intros Hf. induction l as [|x l IH]; simpl.
  - apply keeps_ret.
  - apply keeps_bind; [apply Hf | intros b].
    apply keeps_bind; [exact IH | intros rest; apply keeps_ret].
Qed.

Lemma keeps_invoke cb : keeps R (CONN.invoke cb).
Proof. destruct cb; [apply keeps_throw | apply keeps_throw | apply keeps_ret]. Qed.

Lemma keeps_assertValidAddress a : keeps R (CONN.assertValidAddress a).
Proof.
  unfold CONN.assertValidAddress.
  destruct (msAddress_check a); [apply keeps_ret | apply keeps_throw].
Qed.

(** What the relation has to allow: the probe's cache and the position in
    the random sequence may change, and the pools may change as the hub and
    the staging pool change them. *)
Hypothesis R_cache : forall c v w, R w (set_netCache c v w).
Hypothesis R_rand : forall n w, R w (set_randIx n w).
Hypothesis R_connect : forall a d, keeps R (Hub_connect a d).
Hypothesis R_disconnect : forall a, keeps R (Hub_disconnect a).
Hypothesis R_stage : forall a data, keeps R (CONN.stage a data).
Hypothesis R_unstage : forall a, keeps R (Staging_unstage a).

Lemma keeps_connect a second third : keeps R (CONN.connect a second third).
Proof.
  unfold CONN.connect.
  destruct (_ && _); [apply keeps_throw|].
  apply keeps_bind.
  - apply keeps_tryCatch.
    + apply keeps_bind; [apply keeps_assertValidAddress|].
      intros _. apply keeps_ret.
    + intros _. apply keeps_bind; [apply keeps_invoke|].
      intros _. apply keeps_ret.
  - intros [|]; [apply R_connect | apply keeps_ret].
Qed.

Lemma keeps_disconnect a cb : keeps R (CONN.disconnect a cb).
Proof.
  unfold CONN.disconnect. apply keeps_bind.
  - apply keeps_tryCatch.
    + apply keeps_bind; [apply keeps_assertValidAddress|].
      intros _. apply keeps_ret.
    + intros _. apply keeps_bind; [apply keeps_invoke|].
      intros _. apply keeps_ret.
  - intros [|]; [apply R_disconnect | apply keeps_ret].
Qed.

Lemma keeps_unstage a : keeps R (CONN.unstage a).
Proof. apply R_unstage. Qed.

Lemma keeps_hasNetworkDebounced : keeps R ConnScheduler.hasNetworkDebounced.
Proof.
  unfold ConnScheduler.hasNetworkDebounced.
  apply keeps_bind; [apply keeps_gets | intros lc].
  apply keeps_bind; [apply keeps_gets | intros now].
  apply keeps_bind; [| intros _; apply keeps_gets].
  destruct (_ <? _); [| apply keeps_ret].
  apply keeps_bind; [apply keeps_gets | intros net].
  apply keeps_modify. intros w. apply R_cache.
Qed.

Lemma keeps_canBeConnected p : keeps R (ConnScheduler.canBeConnected p).
Proof.
  unfold ConnScheduler.canBeConnected, ConnScheduler.isOffline.
  apply keeps_bind; [| intros off; apply keeps_ret].
  destruct (_ || _); [apply keeps_ret|].
  apply keeps_bind; [apply keeps_hasNetworkDebounced|].
  intros v. apply keeps_ret.
Qed.

Lemma keeps_random : keeps R Math_random.
Proof. intros w. apply R_rand. Qed.

Lemma keeps_shufflePeers peers : keeps R (ConnScheduler.shufflePeers peers).
Proof.
  intros w. unfold ConnScheduler.shufflePeers.
  destruct (arraySort _ _ _) as [sorted used]. apply R_rand.
Qed.

Lemma keeps_conf name def : keeps R (ConnScheduler.conf name def).
Proof.
  unfold ConnScheduler.conf. apply keeps_bind; [apply keeps_gets|].
  intros cfg. destruct (gossip cfg); apply keeps_ret.
Qed.

Lemma keeps_updateTheseConnections test opts :
  keeps R (ConnScheduler.updateTheseConnections test opts).
Proof.
  unfold ConnScheduler.updateTheseConnections.
  apply keeps_bind; [apply keeps_gets | intros peersUp].
  apply keeps_bind; [apply keeps_gets | intros peersDown].
  apply keeps_bind.
  { apply keeps_forEach. intros p. apply keeps_disconnect. }
  intros _.
  apply keeps_bind; [apply keeps_gets | intros notBlocked].
  apply keeps_bind.
  { apply keeps_filterM. intros p. apply keeps_canBeConnected. }
  intros online.
  apply keeps_bind; [apply keeps_gets | intros now].
  apply keeps_bind; [apply keeps_random | intros r].
  apply keeps_bind.
  { destruct (Qle_bool r (3 # 10)); [apply keeps_shufflePeers | apply keeps_ret]. }
  intros ordered. apply keeps_forEach. intros p. apply keeps_connect.
Qed.

Lemma keeps_sweep {A} (snap : World -> list A) (f : A -> M unit) :
  (forall x, keeps R (f x)) ->
  keeps R (bind (gets snap) (fun l => forEach f l)).
Proof.
  intros Hf. apply keeps_bind; [apply keeps_gets|].
  intros l. apply keeps_forEach, Hf.
Qed.

Lemma keeps_updateStagingNow : keeps R ConnScheduler.updateStagingNow.
Proof.
  unfold ConnScheduler.updateStagingNow.
  apply keeps_bind; [apply keeps_gets | intros toStage].
  apply keeps_bind.
  { apply keeps_forEach. intros p.
    apply keeps_bind; [apply R_stage | intros _; apply keeps_ret]. }
  intros _.
  apply keeps_bind; [apply keeps_gets | intros blocked].
  apply keeps_bind; [apply keeps_forEach; intros p; apply keeps_unstage|].
  intros _.
  apply keeps_bind; [apply keeps_gets | intros oldLan].
  apply keeps_bind; [apply keeps_forEach; intros p; apply keeps_unstage|].
  intros _.
  apply keeps_bind; [apply keeps_gets | intros oldBt].
  apply keeps_forEach; intros p; apply keeps_unstage.
Qed.

Lemma keeps_updateHubNow : keeps R ConnScheduler.updateHubNow.
Proof.
  unfold ConnScheduler.updateHubNow.
  apply keeps_bind; [apply keeps_conf | intros seed].
  apply keeps_bind.
  { destruct (truthy seed);
      [apply keeps_updateTheseConnections | apply keeps_ret]. }
  intros _.
  apply keeps_bind; [apply keeps_gets | intros inConnection].
  apply keeps_bind.
  { destruct (_ =? _)%nat;
      [apply keeps_updateTheseConnections | apply keeps_ret]. }
  intros _.
  do 5 (apply keeps_bind; [apply keeps_updateTheseConnections | intros _]).
  apply keeps_bind; [apply keeps_gets | intros followed].
  apply keeps_bind; [apply keeps_forEach; intros p; apply keeps_connect|].
  intros _.
  apply keeps_bind; [apply keeps_gets | intros blocked].
  apply keeps_bind; [apply keeps_forEach; intros p; apply keeps_disconnect|].
  intros _.
  apply keeps_bind; [apply keeps_gets | intros frustrating].
  apply keeps_bind; [apply keeps_forEach; intros p; apply keeps_disconnect|].
  intros _.
  apply keeps_bind; [apply keeps_gets | intros longLived].
  apply keeps_forEach; intros p; apply keeps_disconnect.
Qed.

Lemma keeps_updateNow : keeps R ConnScheduler.updateNow.
Proof.
  unfold ConnScheduler.updateNow.
  apply keeps_bind; [apply keeps_gets | intros hasDb].
  apply keeps_bind; [apply keeps_gets | intros ready].
  destruct (_ && _); [apply keeps_ret|].
  apply keeps_bind.
  { unfold ConnScheduler.isCurrentlyDownloading.
    apply keeps_bind; [apply keeps_gets | intros last].
    apply keeps_bind; [apply keeps_gets | intros now]. apply keeps_ret. }
  intros [|]; [apply keeps_ret|].
  apply keeps_bind; [apply keeps_gets | intros [|]]; [apply keeps_ret|].
  apply keeps_bind; [apply keeps_updateStagingNow|].
  intros _. apply keeps_updateHubNow.
Qed.

End Keeps.

(** ** The frame and the pool invariants under every outcome *)

Section Preserved.
Context `{Collaborators}.

Lemma after_Hub_connect a d w :
  after (Hub_connect a d w)
  = if Hub_isActive a w then log_call (HubConnect a d) w
    else set_staging (remove_addr a)
           (set_hub
              (fun l => remove_addr a l
                        ++ [(a, (connecting,
                                 with_stateChange (clock w)
                                   (from_option id emptyData d)))])
              (log_call (HubConnect a d) w)).
Proof.
  unfold Hub_connect, bind, modify, gets, ret. cbn.
  change (Hub_isActive a (log_call (HubConnect a d) w))
    with (Hub_isActive a w).
  destruct (Hub_isActive a w); reflexivity.
Qed.

Lemma after_Staging_stage a d w :
  after (Staging_stage a d w)
  = if has_addr a (staging w) then log_call (StagingStage a d) w
    else set_staging (fun l => l ++ [(a, with_stagingUpdated (clock w) d)])
           (log_call (StagingStage a d) w).
Proof.
  unfold Staging_stage, bind, modify, gets, ret. cbn.
  destruct (has_addr a (staging w)); reflexivity.
Qed.

Lemma sameFrame_refl w : sameFrame w w.
Proof. reflexivity. Qed.

Lemma sameFrame_trans w1 w2 w3 :
  sameFrame w1 w2 -> sameFrame w2 w3 -> sameFrame w1 w3.
Proof. unfold sameFrame. congruence. Qed.

Lemma sameFrame_updateNow : keeps sameFrame ConnScheduler.updateNow.
Proof.
  apply (keeps_updateNow sameFrame sameFrame_refl sameFrame_trans).
  - reflexivity.
  - reflexivity.
  - intros a d w. rewrite after_Hub_connect.
    destruct (Hub_isActive a w); reflexivity.
  - intros a w. reflexivity.
  - intros a data w. unfold CONN.stage, bind, gets.
    destruct (Hub_getState a w); [reflexivity|].
    rewrite after_Staging_stage.
    destruct (has_addr a (staging w)); reflexivity.
  - intros a w. reflexivity.
Qed.

Lemma isActive_fresh a b (s : ConnectionState) (r : PeerData) w w' :
  hub w' = remove_addr a (hub w) ++ [(a, (s, r))] ->
  b <> a -> Hub_isActive b w' = Hub_isActive b w.
Proof.
  intros Hhub Hne. unfold Hub_isActive, Hub_getState. rewrite Hhub.
  rewrite lookup_addr_app, lookup_addr_remove_other by exact Hne.
  destruct (lookup_addr b (hub w)) as [v|]; [reflexivity|].
  simpl. destruct (String.eqb_spec a b) as [->|_]; [contradiction|].
  reflexivity.
Qed.

Lemma isActive_removed a b w w' :
  hub w' = remove_addr a (hub w) ->
  Hub_isActive b w = false -> Hub_isActive b w' = false.
Proof.
  intros Hhub Hidle. unfold Hub_isActive, Hub_getState in *. rewrite Hhub.
  destruct (String.eqb_spec b a) as [->|Hne].
  - rewrite lookup_addr_remove_same. reflexivity.
  - rewrite lookup_addr_remove_other by exact Hne. exact Hidle.
Qed.

Lemma poolsKeyed_Hub_connect a d :
  keeps (maintains poolsKeyed) (Hub_connect a d).
Proof.
  intros w (Hidle & Hs & Hh). rewrite after_Hub_connect.
  destruct (Hub_isActive a w) eqn:Hact.
  - repeat split; assumption.
  - repeat split.
    + intros e He. simpl staging in He. apply remove_addr_In in He.
      destruct He as [He Hne].
      erewrite isActive_fresh; [apply Hidle, He | reflexivity | exact Hne].
    + simpl staging. apply remove_addr_NoDup, Hs.
    + simpl hub. rewrite List.map_app. apply List.NoDup_app.
      * apply remove_addr_NoDup, Hh.
      * simpl. constructor; [intros [] | constructor].
      * intros b Hb [Hab|[]]. simpl in Hab. subst b.
        apply remove_addr_fst in Hb. destruct Hb as [_ Hne]. congruence.
Qed.

Lemma poolsKeyed_Hub_disconnect a :
  keeps (maintains poolsKeyed) (Hub_disconnect a).
Proof.
  intros w (Hidle & Hs & Hh). repeat split.
  - intros e He. eapply isActive_removed; [reflexivity | apply Hidle, He].
  - exact Hs.
  - simpl. apply remove_addr_NoDup, Hh.
Qed.

Lemma poolsKeyed_Staging_unstage a :
  keeps (maintains poolsKeyed) (Staging_unstage a).
Proof.
  intros w (Hidle & Hs & Hh). repeat split.
  - intros e He. simpl in He. apply remove_addr_In in He.
    apply Hidle, He.
  - simpl. apply remove_addr_NoDup, Hs.
  - exact Hh.
Qed.

Lemma poolsKeyed_stage a data : keeps (maintains poolsKeyed) (CONN.stage a data).
Proof.
  intros w (Hidle & Hs & Hh). unfold CONN.stage, bind, gets.
  destruct (Hub_getState a w) eqn:Hstate; [repeat split; assumption|].
  rewrite after_Staging_stage.
  destruct (has_addr a (staging w)) eqn:Hhas; [repeat split; assumption|].
  repeat split.
  - intros e He. simpl staging in He. apply in_app_or in He.
    destruct He as [He|[<-|[]]]; [apply Hidle, He|].
    unfold Hub_isActive. simpl fst.
    change (Hub_getState a _) with (Hub_getState a w).
    rewrite Hstate. reflexivity.
  - simpl staging. rewrite List.map_app. apply List.NoDup_app.
    + exact Hs.
    + simpl. constructor; [intros [] | constructor].
    + intros b Hb [Hab|[]]. simpl in Hab. subst b.
      apply has_addr_false in Hhas. contradiction.
  - exact Hh.
Qed.

Lemma maintains_refl (I : World -> Prop) w : maintains I w w.
Proof. intros Hw. exact Hw. Qed.

Lemma maintains_trans (I : World -> Prop) w1 w2 w3 :
  maintains I w1 w2 -> maintains I w2 w3 -> maintains I w1 w3.
Proof. unfold maintains. auto. Qed.

(** X6 (the four pool operations of [src/conn.ts]): whatever their
    arguments and whether they return or throw, [connect], [disconnect],
    [stage] and [unstage] leave the hub and the staging pool keyed by
    address, with nothing staged that is live in the hub. *)
Theorem facade_keeps_pools_keyed (w : World) (a : Address)
    (second third cb : CONN.Arg) (data : option PeerData) :
  poolsKeyed w ->
  poolsKeyed (after (CONN.connect a second third w)) /\
  poolsKeyed (after (CONN.disconnect a cb w)) /\
  poolsKeyed (after (CONN.stage a data w)) /\
  poolsKeyed (after (CONN.unstage a w)).
Proof.
  intros Hw. split; [|split; [|split]].
  - exact (keeps_connect (maintains poolsKeyed) (maintains_refl _)
             (maintains_trans _) poolsKeyed_Hub_connect a second third w Hw).
  - exact (keeps_disconnect (maintains poolsKeyed) (maintains_refl _)
             (maintains_trans _) poolsKeyed_Hub_disconnect a cb w Hw).
  - exact (poolsKeyed_stage a data w Hw).
  - exact (poolsKeyed_Staging_unstage a w Hw).
Qed.

(** X7 ([updateNow], what it never writes): whether a tick is suppressed,
    completes or throws half-way, it leaves the address database, the hops
    table, the notification stream and every flag of the scheduler as they
    were; it acts on the hub and the staging pool only. *)
Theorem tick_writes_only_hub_and_staging (w : World) :
  let w' := after (ConnScheduler.updateNow w) in
  db w' = db w /\ hops w' = hops w /\ notified w' = notified w /\
  closed w' = closed w /\ isLoadingHops w' = isLoadingHops w /\
  lastMessageAt w' = lastMessageAt w /\
  hasScheduledAnUpdate w' = hasScheduledAnUpdate w.
Proof.
  intros w'. pose proof (sameFrame_updateNow w) as Hf.
  fold w' in Hf. unfold sameFrame, frame in Hf.
  inversion Hf. repeat split; reflexivity || assumption.
Qed.

(** X8 ([updateNow], the pool invariants): whether a tick is suppressed,
    completes or throws half-way, it leaves the hub and the staging pool
    keyed by address, with nothing staged that is live in the hub. *)
Theorem tick_keeps_pools_keyed (w : World) :
  poolsKeyed w -> poolsKeyed (after (ConnScheduler.updateNow w)).
Proof.
  apply (keeps_updateNow (maintains poolsKeyed)
           (maintains_refl _) (maintains_trans _)).
  - intros c v w0 Hw. exact Hw.
  - intros n w0 Hw. exact Hw.
  - apply poolsKeyed_Hub_connect.
  - apply poolsKeyed_Hub_disconnect.
  - apply poolsKeyed_stage.
  - apply poolsKeyed_Staging_unstage.
Qed.

End Preserved.

(** ** Hub maintenance: the purges of old connections *)

Section Purges.
Context `{Collaborators}.



















End Purges.

(** ** The dial requests of a tick *)

Lemma weFollowThem_hops w w' p :
  hops w = hops w' ->
  ConnScheduler.weFollowThem w p = ConnScheduler.weFollowThem w' p.
Proof. intros Hh. unfold ConnScheduler.weFollowThem. now rewrite Hh. Qed.






Section Dials.
Context `{Collaborators}.

















End Dials.

Section TickDials.
Context `{Collaborators}.










End TickDials.

(** ** Staging maintenance, continued *)

Lemma stageAll_covers h now (l s : list Peer) p :
  In p l -> lookup_addr (fst p) h = None ->
  In (fst p) (map fst (stageAll h now l s)).
Proof.
  unfold stageAll. revert s.
  induction l as [|q l IH]; intros s Hin Hh; [contradiction|].
  simpl. destruct Hin as [->|Hin]; [|now apply IH].
  assert (Hnow : In (fst p) (map fst (stageL h now (fst p) (snd p) s))).
  { unfold stageL. rewrite Hh.
    destruct (has_addr (fst p) s) eqn:Hhas.
    - unfold has_addr in Hhas.
      destruct (lookup_addr (fst p) s) as [v|] eqn:Hl; [|discriminate].
      apply lookup_addr_In in Hl. apply in_map_iff.
      exists (fst p, v). split; [reflexivity | exact Hl].
    - rewrite List.map_app. apply in_or_app. right. left. reflexivity. }
  apply in_map_iff in Hnow. destruct Hnow as (e & He & Hin).
  apply in_map_iff. exists e. split; [exact He|].
  apply (stageAll_incl h now l). exact Hin.
Qed.

Lemma purgeStep_keeps_address idle sel (s : list Peer) e :
  In e s ->
  (forall e', In e' s -> fst e' = fst e -> sel e' = false) ->
  In e (purgeStep idle sel s).
Proof.
  intros Hin Hsel. apply purgeStep_In. split; [exact Hin|].
  intros Hgone. apply in_map_iff in Hgone.
  destruct Hgone as (e' & He' & Hf). apply filter_In in Hf.
  destruct Hf as [Hf Hs]. apply filter_In in Hf. destruct Hf as [Hf _].
  rewrite (Hsel e' Hf He') in Hs. discriminate.
Qed.

Section StagingMore.
Context `{Collaborators}.

(** X12 ([updateStagingNow], the first loop): a database record with
    [autoconnect = false] whose key is not blocked, at an address the hub
    has no state for and that is not staged yet, is staged by the run: when
    it has returned, the staging pool holds such a database record of that
    address, stamped with the time of the run. *)
Theorem manual_peers_are_staged (w : World) (a : Address) (rec : PeerData) :
  In (a, rec) (db w) ->
  autoconnect rec = Some false ->
  ConnScheduler.weBlockThem w (a, rec) = false ->
  Hub_getState a w = None ->
  ~ In a (map fst (staging w)) ->
  exists w' rec0,
    ConnScheduler.updateStagingNow w = Returned tt w' /\
    In (a, rec0) (db w) /\
    autoconnect rec0 = Some false /\
    ConnScheduler.weBlockThem w (a, rec0) = false /\
    In (a, with_stagingUpdated (clock w) rec0) (staging w').
Proof.
  intros Hdb Hauto Hnb Hstate Hfresh.
  set (S1 := stageAll (hub w) (clock w) (toStage w) (staging w)).
  assert (Hto : In (a, rec) (toStage w)).
  { unfold toStage. apply filter_In. split; [|simpl; now rewrite Hauto].
    apply filter_In. split; [|simpl; now rewrite Hnb].
    unfold peersConnectable. apply filter_In. split; [exact Hdb|].
    unfold Hub_isActive. simpl. now rewrite Hstate. }
  assert (Hlook : lookup_addr a (hub w) = None).
  { unfold Hub_getState in Hstate.
    destruct (lookup_addr a (hub w)); [discriminate | reflexivity]. }
  assert (Hform : forall e, In e S1 -> fst e = a ->
            exists rec0,
              e = (a, with_stagingUpdated (clock w) rec0) /\
              In (a, rec0) (toStage w)).
  { intros e He Hfst. apply stageAll_In in He.
    destruct He as [He|(p & Hp & -> & _)].
    - exfalso. apply Hfresh. rewrite <- Hfst. now apply in_map.
    - simpl in Hfst. exists (snd p). split; [now rewrite Hfst|].
      rewrite <- Hfst. now destruct p. }
  pose proof (stageAll_covers (hub w) (clock w) (toStage w) (staging w)
                (a, rec) Hto Hlook) as Hcov.
  apply in_map_iff in Hcov. destruct Hcov as (e0 & Hfst0 & Hin0).
  simpl in Hfst0. fold S1 in Hin0.
  destruct (Hform e0 Hin0 Hfst0) as (rec0 & -> & Hto0).
  assert (Hrec0 : In (a, rec0) (db w) /\ autoconnect rec0 = Some false /\
                  ConnScheduler.weBlockThem w (a, rec0) = false).
  { unfold toStage in Hto0. apply filter_In in Hto0.
    destruct Hto0 as [Hto0 Ha0]. apply filter_In in Hto0.
    destruct Hto0 as [Hto0 Hb0]. unfold peersConnectable in Hto0.
    apply filter_In in Hto0. destruct Hto0 as [Hto0 _]. simpl in *.
    split; [exact Hto0|]. split; [|now apply negb_true_iff in Hb0].
    destruct (autoconnect rec0) as [[|]|]; try discriminate. reflexivity. }
  exists (stagingResult w), rec0.
  split; [apply staging_run|].
  destruct Hrec0 as (Hd0 & Ha0 & Hb0).
  split; [exact Hd0|]. split; [exact Ha0|]. split; [exact Hb0|].
  rewrite stagingResult_staging. unfold stagedAfter. fold S1.
  assert (Hkeep : forall (sel : Peer -> bool) s,
            incl s S1 ->
            (forall rec1, In (a, rec1) (toStage w) ->
               sel (a, with_stagingUpdated (clock w) rec1) = false) ->
            In (a, with_stagingUpdated (clock w) rec0) s ->
            In (a, with_stagingUpdated (clock w) rec0)
               (purgeStep (idleIn w) sel s)).
  { intros sel s Hincl Hsel Hin. apply purgeStep_keeps_address; [exact Hin|].
    intros e' He' Hf'. simpl in Hf'.
    destruct (Hform e' (Hincl _ He') Hf') as (rec1 & -> & Hto1).
    now apply Hsel. }
  apply Hkeep.
  { intros e He. now do 2 apply purgeStep_incl in He. }
  { intros rec1 _. unfold aged. simpl.
    replace (clock w + 30000 <? clock w) with false
      by (symmetry; apply Z.ltb_ge; lia).
    apply andb_false_r. }
  apply Hkeep.
  { intros e He. now apply purgeStep_incl in He. }
  { intros rec1 _. unfold aged. simpl.
    replace (clock w + 10000 <? clock w) with false
      by (symmetry; apply Z.ltb_ge; lia).
    apply andb_false_r. }
  apply Hkeep.
  { apply incl_refl. }
  { intros rec1 Hto1. unfold toStage in Hto1. apply filter_In in Hto1.
    destruct Hto1 as [Hto1 _]. apply filter_In in Hto1.
    destruct Hto1 as [_ Hb1]. apply negb_true_iff in Hb1. exact Hb1. }
  exact Hin0.
Qed.

End StagingMore.

(** ** The network probe, the hops table and the tick timer *)

Section Triggers.
Context `{Collaborators}.

(** X13 ([hasNetworkDebounced], [isOffline], [canBeConnected]): filtering a
    list of candidates with [canBeConnected] judges all of them by one
    answer of the network probe.  Peers on a loopback host or on localhost
    always pass; the others pass exactly when that answer is [true].  The
    answer is the cached one while the last check is at most a second old,
    in which case the network is not consulted and nothing changes; a cache
    that was never filled counts as offline. *)
Theorem candidates_share_one_network_answer (l : list Peer) (w : World) :
  exists w',
    filterM ConnScheduler.canBeConnected l w
    = Returned
        (List.filter
           (fun p =>
              ip_isLoopback (host (snd p)) || str_is (host (snd p)) "localhost"
              || match answer w with Some b => b | None => false end) l)
        w' /\
    frame w' = frame w /\ hub w' = hub w /\ staging w' = staging w /\
    answer w
    = (if lastCheck w + 1000 <? clock w then Some (network w)
       else lastValue w) /\
    (clock w <= lastCheck w + 1000 -> w' = w) /\
    (lastCheck w + 1000 < clock w -> existsb asksNetwork l = true ->
     lastCheck w' = clock w /\ lastValue w' = Some (network w)).
Proof.
  rewrite filterM_canBeConnected.
  eexists. split; [reflexivity|].
  unfold refreshed, answer.
  destruct (Z.ltb_spec (lastCheck w + 1000) (clock w)) as [Hstale|Hfresh].
  - destruct (existsb asksNetwork l); repeat split; try reflexivity;
      try (intros; lia); intros _ Hex; discriminate.
  - destruct (existsb asksNetwork l); repeat split; try reflexivity;
      intros; lia.
Qed.

Lemma updateNow_while_loading w :
  isLoadingHops w = true -> ConnScheduler.updateNow w = Returned tt w.
Proof.
  intros Hl.
  unfold ConnScheduler.updateNow, ConnScheduler.isCurrentlyDownloading,
    bind, gets, ret.
  destruct (hasSsbDb w && negb (logReady w)); [reflexivity|].
  destruct (negb (lastMessageAt w =? 0) && (clock w - 500 <? lastMessageAt w));
    [reflexivity|].
  rewrite Hl. reflexivity.
Qed.

(** X14 ([loadHops] and its callback): when ssb-friends is present,
    [loadHops] raises [isLoadingHops], and a tick that runs before the
    answer arrives is suppressed.  An answer that reports an error leaves
    the flag raised and the hops table as it was, so ticks stay suppressed;
    a successful answer installs the new table and lowers the flag.
    Without ssb-friends [loadHops] does nothing. *)
Theorem hops_load_suspends_ticks (w : World) :
  (hasFriendsHops w = true ->
   exists w1,
     ConnScheduler.loadHops w = Returned tt w1 /\
     isLoadingHops w1 = true /\ hops w1 = hops w /\
     ConnScheduler.updateNow w1 = Returned tt w1 /\
     (forall newHops cb,
        ConnScheduler.hopsLoaded true newHops cb w1 = Returned tt w1) /\
     (forall newHops,
        exists w2,
          ConnScheduler.hopsLoaded false newHops None w1 = Returned tt w2 /\
          hops w2 = newHops /\ isLoadingHops w2 = false /\
          db w2 = db w /\ hub w2 = hub w /\ staging w2 = staging w)) /\
  (hasFriendsHops w = false -> ConnScheduler.loadHops w = Returned tt w).
Proof.
  split; intros Hfriends.
  - exists (set_isLoadingHops true w).
    unfold ConnScheduler.loadHops, bind, gets. rewrite Hfriends. simpl.
    split; [reflexivity|]. split; [reflexivity|]. split; [reflexivity|].
    split; [|split].
    + apply updateNow_while_loading. reflexivity.
    + intros newHops cb. reflexivity.
    + intros newHops. eexists. split; [reflexivity|].
      repeat split; reflexivity.
  - unfold ConnScheduler.loadHops, bind, gets. rewrite Hfriends. reflexivity.
Qed.

(** X15 ([updateSoon]): on a running scheduler with no update pending,
    [updateSoon] arms one timer, after [period/2 + period * Math.random()]
    ms, which lies in [[period/2, 3*period/2)] for a draw in [[0, 1)], and
    marks the update as scheduled without touching the pools.  Until that
    timer has run, and on a closed scheduler, every further [updateSoon]
    is dropped and changes nothing. *)
Theorem updateSoon_coalesces (period : option Z) (w : World) :
  (closed w = false -> hasScheduledAnUpdate w = false ->
   let p := inject_Z (from_option id 1000 period) in
   let r := rand w (randIx w) in
   exists delay w1,
     ConnScheduler.updateSoon period w = Returned (Some delay) w1 /\
     delay = (p * (1 # 2) + p * r)%Q /\
     ((0 <= r)%Q -> (r < 1)%Q -> (0 < p)%Q ->
      (p * (1 # 2) <= delay)%Q /\ (delay < p * (3 # 2))%Q) /\
     hasScheduledAnUpdate w1 = true /\
     db w1 = db w /\ hub w1 = hub w /\ staging w1 = staging w /\
     calls w1 = calls w /\
     forall period', ConnScheduler.updateSoon period' w1 = Returned None w1) /\
  (closed w = true \/ hasScheduledAnUpdate w = true ->
   ConnScheduler.updateSoon period w = Returned None w).
Proof.
  split.
  - intros Hopen Hidle p r.
    unfold ConnScheduler.updateSoon, bind, gets, ret, modify, Math_random.
    rewrite Hopen, Hidle. cbn -[Qmult Qplus inject_Z].
    eexists. eexists. split; [reflexivity|].
    split; [reflexivity|]. split.
    + intros H0 H1 Hp. fold p r. split.
      * apply Qle_trans with (p * (1 # 2) + 0)%Q.
        { rewrite Qplus_0_r. apply Qle_refl. }
        apply Qplus_le_r. apply Qmult_le_0_compat; [apply Qlt_le_weak|];
          assumption.
      * apply Qlt_le_trans with (p * (1 # 2) + p * 1)%Q.
        { apply Qplus_lt_r. apply Qmult_lt_l; assumption. }
        assert (Heq : (p * (1 # 2) + p * 1 == p * (3 # 2))%Q) by ring.
        rewrite Heq. apply Qle_refl.
    + repeat split; try reflexivity. intros period'. simpl.
      rewrite Hopen. reflexivity.
  - unfold ConnScheduler.updateSoon, bind, gets, ret.
    intros [Hc|Hs].
    + rewrite Hc. reflexivity.
    + destruct (closed w); [reflexivity|]. rewrite Hs. reflexivity.
Qed.

(** X16 (the timer armed by [updateSoon]): the timer's callback lowers
    [hasScheduledAnUpdate] only after [updateNow] has returned.  When the
    tick throws, the callback throws with it and the flag stays as it was;
    with the flag raised, every later [updateSoon] is then dropped. *)
Theorem throwing_tick_leaves_update_scheduled (w : World) :
  (forall w',
     ConnScheduler.updateNow w = Returned tt w' ->
     ConnScheduler.updateSoonTimer w
     = Returned tt (set_hasScheduledAnUpdate false w')) /\
  (forall e w',
     ConnScheduler.updateNow w = Thrown e w' ->
     ConnScheduler.updateSoonTimer w = Thrown e w' /\
     hasScheduledAnUpdate w' = hasScheduledAnUpdate w /\
     closed w' = closed w /\
     (hasScheduledAnUpdate w = true ->
      forall period, ConnScheduler.updateSoon period w' = Returned None w')).
Proof.
  split.
  - intros w' Hrun. unfold ConnScheduler.updateSoonTimer, bind.
    rewrite Hrun. reflexivity.
  - intros e w' Hrun.
    pose proof (sameFrame_updateNow w) as Hf. rewrite Hrun in Hf.
    simpl in Hf. unfold sameFrame, frame in Hf.
    assert (Hs : hasScheduledAnUpdate w' = hasScheduledAnUpdate w)
      by congruence.
    assert (Hc : closed w' = closed w) by congruence.
    split; [|split; [exact Hs | split; [exact Hc|]]].
    + unfold ConnScheduler.updateSoonTimer, bind. rewrite Hrun. reflexivity.
    + intros Hset period.
      unfold ConnScheduler.updateSoon, bind, gets, ret.
      destruct (closed w'); [reflexivity|]. rewrite Hs, Hset. reflexivity.
Qed.

End Triggers.

(** ** The discovery handlers *)

Section Discovery.
Context `{Collaborators}.

Lemma connect_data_dropped a d w :
  msAddress_check a = true ->
  CONN.connect a (CONN.ArgObject d) CONN.ArgUndefined w
  = Returned tt (connectW a w).
Proof. intros Hv. now apply connect_run. Qed.

Lemma connectW_settles a w :
  Hub_isActive a w = false ->
  Hub_getState a (connectW a w) = Some connecting /\
  has_addr a (staging (connectW a w)) = false.
Proof.
  intros Hidle. unfold connectW. rewrite Hidle. split.
  - unfold Hub_getState. simpl hub.
    rewrite lookup_addr_app, lookup_addr_remove_same. simpl.
    rewrite String.eqb_refl. reflexivity.
  - unfold has_addr. simpl staging. rewrite lookup_addr_remove_same.
    reflexivity.
Qed.

(** X17 (the handler of [setupLanDiscovery]): a beacon whose address
    ssb-ref cannot parse, or parses without a key, is ignored.  Otherwise a
    peer we follow is dialed at once, without data and without being
    staged; any other peer is only offered to the staging pool, as a
    record of type [lan], and the hub is left alone. *)
Theorem lan_beacon_dials_followed_peers (address : string) (w : World) :
  (forall peer,
     ref_parseAddress address = Some peer ->
     key peer = None \/ key peer = Some "" ->
     ConnScheduler.onLanDiscovered address w = Returned tt w) /\
  (ref_parseAddress address = None ->
   ConnScheduler.onLanDiscovered address w = Returned tt w) /\
  (forall peer k,
     ref_parseAddress address = Some peer ->
     key peer = Some k -> k <> "" ->
     let data :=
       mkPeerData (Some k) None None None (Some "lan") None None None None
         None None None in
     (ConnScheduler.weFollowThem w (address, data) = true ->
      msAddress_check address = true ->
      exists w',
        ConnScheduler.onLanDiscovered address w = Returned tt w' /\
        calls w' = calls w ++ [HubConnect address None] /\
        (Hub_isActive address w = false ->
         Hub_getState address w' = Some connecting /\
         has_addr address (staging w') = false)) /\
     (ConnScheduler.weFollowThem w (address, data) = false ->
      exists w',
        ConnScheduler.onLanDiscovered address w = Returned tt w' /\
        hub w' = hub w /\ db w' = db w /\
        dialsOf (skipn (length (calls w)) (calls w')) = [] /\
        (Hub_getState address w <> None -> w' = w) /\
        (Hub_getState address w = None ->
         has_addr address (staging w) = false ->
         Staging_get address w'
         = Some (with_stagingUpdated (clock w) data)))).
Proof.
  split; [|split].
  - intros peer Hparse Hkey. unfold ConnScheduler.onLanDiscovered.
    rewrite Hparse. destruct Hkey as [->| ->]; reflexivity.
  - intros Hparse. unfold ConnScheduler.onLanDiscovered.
    rewrite Hparse. reflexivity.
  - intros peer k Hparse Hkey Hk data.
    assert (Hne : String.eqb k "" = false) by now apply String.eqb_neq.
    split.
    + intros Hfollow Hvalid. exists (connectW address w).
      split; [|split].
      * unfold ConnScheduler.onLanDiscovered. rewrite Hparse, Hkey, Hne.
        unfold bind at 1, gets. fold data. rewrite Hfollow.
        now apply connect_data_dropped.
      * unfold connectW. destruct (Hub_isActive address w); reflexivity.
      * apply connectW_settles.
    + intros Hfollow. exists (stageW address data w).
      split; [|split; [|split; [|split; [|split]]]].
      * unfold ConnScheduler.onLanDiscovered. rewrite Hparse, Hkey, Hne.
        unfold bind at 1, gets. fold data. rewrite Hfollow.
        apply stage_run.
      * unfold stageW. destruct (Hub_getState address w); [reflexivity|].
        destruct (has_addr address (staging w)); reflexivity.
      * unfold stageW. destruct (Hub_getState address w); [reflexivity|].
        destruct (has_addr address (staging w)); reflexivity.
      * unfold stageW. destruct (Hub_getState address w).
        { rewrite skipn_all. reflexivity. }
        destruct (has_addr address (staging w)); simpl calls;
          rewrite skipn_app, skipn_all, Nat.sub_diag; reflexivity.
      * intros Hstate. unfold stageW.
        destruct (Hub_getState address w); [reflexivity | contradiction].
      * intros Hstate Hfresh. unfold stageW, Staging_get.
        rewrite Hstate, Hfresh. simpl staging. rewrite lookup_addr_app.
        unfold has_addr in Hfresh.
        destruct (lookup_addr address (staging w)); [discriminate|].
        simpl. rewrite String.eqb_refl. reflexivity.
Qed.


End Discovery.

(** ** Strings *)

Lemma append_cons (c : ascii) (s t : string) :
  String c s +:+ t = String c (s +:+ t).
Proof. reflexivity. Qed.

Lemma append_nil_l (t : string) : "" +:+ t = t.
Proof. reflexivity. Qed.

Lemma append_nil_r (s : string) : s +:+ "" = s.
Proof.
  induction s as [|c s IH]; [reflexivity|].
  now rewrite append_cons, IH.
Qed.

Lemma append_assoc (s1 s2 s3 : string) :
  (s1 +:+ s2) +:+ s3 = s1 +:+ (s2 +:+ s3).
Proof.
  induction s1 as [|c s1 IH]; [reflexivity|].
  now rewrite !append_cons, IH.
Qed.

Lemma length_append (s1 s2 : string) :
  String.length (s1 +:+ s2) = (String.length s1 + String.length s2)%nat.
Proof.
  induction s1 as [|c s1 IH]; [reflexivity|].
  rewrite append_cons. simpl. now rewrite IH.
Qed.

Lemma substring_skip (s1 s2 : string) (m : nat) :
  String.substring (String.length s1) m (s1 +:+ s2) = String.substring 0 m s2.
Proof.
  induction s1 as [|c s1 IH]; [reflexivity|].
  rewrite append_cons. simpl. exact IH.
Qed.

Lemma substring_all (s : string) :
  String.substring 0 (String.length s) s = s.
Proof. induction s as [|c s IH]; simpl; [reflexivity | now rewrite IH]. Qed.

Lemma substring_prefix (s1 s2 : string) :
  String.substring 0 (String.length s1) (s1 +:+ s2) = s1.
Proof.
  induction s1 as [|c s1 IH].
  - rewrite append_nil_l. destruct s2; reflexivity.
  - rewrite append_cons. simpl. now rewrite IH.
Qed.

Lemma js_endsWith_append (s suffix : string) :
  js_endsWith (s +:+ suffix) suffix = true.
Proof.
  unfold js_endsWith. rewrite length_append.
  replace (String.length s + String.length suffix - String.length suffix)%nat
    with (String.length s) by lia.
  rewrite substring_skip, substring_all, String.eqb_refl.
  rewrite andb_true_r. apply Nat.leb_le. lia.
Qed.

Lemma js_dropSuffix_append (s suffix : string) :
  js_dropSuffix suffix (s +:+ suffix) = s.
Proof.
  unfold js_dropSuffix. rewrite js_endsWith_append, length_append.
  replace (String.length s + String.length suffix - String.length suffix)%nat
    with (String.length s) by lia.
  apply substring_prefix.
Qed.

Lemma concat_empty_cons (x : string) (xs : list string) :
  String.concat "" (x :: xs) = x +:+ String.concat "" xs.
Proof. destruct xs; simpl; [now rewrite append_nil_r | reflexivity]. Qed.

Lemma js_split_cons (c : ascii) (s : string) :
  exists piece pieces, js_split c s = piece :: pieces.
Proof.
  induction s as [|x s (piece & pieces & IH)]; simpl.
  - eexists. eexists. reflexivity.
  - destruct (Ascii.eqb x c); [eexists; eexists; reflexivity|].
    rewrite IH. eexists. eexists. reflexivity.
Qed.

Lemma js_join_split (c : ascii) (s : string) :
  js_join (js_split c s) = withoutChar c s.
Proof.
  unfold js_join. induction s as [|x s IH]; simpl; [reflexivity|].
  destruct (Ascii.eqb x c).
  - rewrite concat_empty_cons. exact IH.
  - destruct (js_split_cons c s) as (piece & pieces & Hs).
    rewrite Hs in *. rewrite concat_empty_cons in *.
    rewrite append_cons. now rewrite IH.
Qed.

Lemma js_split_free (c : ascii) (s : string) :
  occurs c s = false -> js_split c s = [s].
Proof.
  induction s as [|x s IH]; simpl; intros Hfree; [reflexivity|].
  apply orb_false_iff in Hfree. destruct Hfree as [Hx Hs].
  rewrite Hx, (IH Hs). reflexivity.
Qed.

Lemma js_split_at (c : ascii) (s rest : string) :
  occurs c s = false ->
  js_split c (s +:+ String c rest) = s :: js_split c rest.
Proof.
  induction s as [|x s IH]; intros Hfree.
  - rewrite append_nil_l. simpl. rewrite Ascii.eqb_refl. reflexivity.
  - simpl in Hfree. apply orb_false_iff in Hfree. destruct Hfree as [Hx Hs].
    rewrite append_cons. simpl. rewrite Hx, (IH Hs). reflexivity.
Qed.

Lemma occurs_append (c : ascii) (s1 s2 : string) :
  occurs c (s1 +:+ s2) = occurs c s1 || occurs c s2.
Proof.
  induction s1 as [|x s1 IH]; [reflexivity|].
  rewrite append_cons. simpl. now rewrite IH, orb_assoc.
Qed.

Lemma index_first (c : ascii) (s rest : string) :
  occurs c s = false ->
  String.index 0 (String c "") (s +:+ String c rest)
  = Some (String.length s).
Proof.
  induction s as [|x s IH]; intros Hfree.
  - rewrite append_nil_l. simpl.
    destruct (ascii_dec c c) as [_|Hne]; [|contradiction].
    destruct rest; reflexivity.
  - simpl in Hfree. apply orb_false_iff in Hfree. destruct Hfree as [Hx Hs].
    rewrite append_cons. simpl.
    destruct (ascii_dec c x) as [->|_].
    + rewrite Ascii.eqb_refl in Hx. discriminate.
    + rewrite (IH Hs). reflexivity.
Qed.

(** ** The Bluetooth scan *)

Section Bluetooth.
Context `{Collaborators}.

(** X19 ([setupBluetoothDiscovery], the address of a device): for a device
    whose id is ["@" ++ k ++ ".ed25519"], the address the handler
    synthesises is ["bt:"], the device's hardware address with its colons
    removed, ["~shs:"] and [k]. *)
Theorem bluetooth_address_shape (mac k name : string) :
  ConnScheduler.btAddress
    (ConnScheduler.mkBTPeer mac ("@" +:+ k +:+ ".ed25519") name)
  = "bt:" +:+ withoutChar ":"%char mac +:+ "~shs:" +:+ k.
Proof.
  unfold ConnScheduler.btAddress. simpl ConnScheduler.remoteAddress.
  simpl ConnScheduler.peerId.
  rewrite js_join_split.
  change (js_dropLeadingAt ("@" +:+ k +:+ ".ed25519"))
    with (k +:+ ".ed25519").
  rewrite js_dropSuffix_append.
  rewrite append_assoc. reflexivity.
Qed.

Lemma keeps_forEach_In {A} (R : World -> World -> Prop) (f : A -> M unit)
    (l : list A) :
  (forall w, R w w) ->
  (forall w1 w2 w3, R w1 w2 -> R w2 w3 -> R w1 w3) ->
  (forall x, In x l -> keeps R (f x)) -> keeps R (forEach f l).
Proof.
  intros Hrefl Htrans Hf. induction l as [|x l IH]; simpl.
  - now apply keeps_ret.
  - apply keeps_bind; [exact Htrans | apply Hf; now left|].
    intros _. apply IH. intros y Hy. apply Hf. now right.
Qed.

Lemma scanning_refl discovered w : scanning discovered w w.
Proof.
  split; [reflexivity|]. split; [reflexivity|].
  exists []. rewrite app_nil_r. split; [reflexivity | constructor].
Qed.

Lemma scanning_trans discovered w1 w2 w3 :
  scanning discovered w1 w2 -> scanning discovered w2 w3 ->
  scanning discovered w1 w3.
Proof.
  intros (Hh1 & Hd1 & e1 & Hc1 & He1) (Hh2 & Hd2 & e2 & Hc2 & He2).
  split; [congruence|]. split; [congruence|].
  exists (e1 ++ e2). split; [rewrite Hc2, Hc1; symmetry; apply app_assoc|].
  apply List.Forall_app. split; [exact He1|].
  eapply List.Forall_impl; [|exact He2].
  intros c (bt & Hin & Hor). exists bt. split; [exact Hin|].
  rewrite !(weFollowThem_hops w1 w2) by (symmetry; exact Hh1). exact Hor.
Qed.

(** X20 (the handler of [setupBluetoothDiscovery]): whatever a scan
    reports and however the run ends, the handler leaves the database
    alone and logs only two kinds of calls, each for a reported device: a
    dial, without data, of a device whose id we follow, and an offer to the
    staging pool, as a record of type [bt], of a device we do not follow.
    When the address of every reported device is a multiserver address,
    the handler returns. *)
Theorem bluetooth_scan_dials_followed_devices
    (discovered : list ConnScheduler.BTPeer) (w : World) :
  let outcome := ConnScheduler.onBluetoothScan discovered w in
  db (after outcome) = db w /\
  (exists extra,
     calls (after outcome) = calls w ++ extra /\
     forall c, In c extra ->
       exists bt,
         In bt discovered /\
         ((c = HubConnect (ConnScheduler.btAddress bt) None /\
           ConnScheduler.weFollowThem w
             (ConnScheduler.btAddress bt, btRecord bt) = true) \/
          (c = StagingStage (ConnScheduler.btAddress bt) (btRecord bt) /\
           ConnScheduler.weFollowThem w
             (ConnScheduler.btAddress bt, btRecord bt) = false))) /\
  ((forall bt, In bt discovered ->
      msAddress_check (ConnScheduler.btAddress bt) = true) ->
   returns outcome = true).
Proof.
  intros outcome.
  assert (Hstep : forall bt, In bt discovered ->
            keeps (scanning discovered)
              (fun w0 =>
                 bind (gets (fun w1 =>
                         ConnScheduler.weFollowThem w1
                           (ConnScheduler.btAddress bt, btRecord bt)))
                   (fun follow =>
                      if follow
                      then CONN.connect (ConnScheduler.btAddress bt)
                             (CONN.ArgObject (btRecord bt)) CONN.ArgUndefined
                      else bind (CONN.stage (ConnScheduler.btAddress bt)
                                   (Some (btRecord bt)))
                             (fun _ => ret tt)) w0)).
  { intros bt Hbt w0. unfold bind at 1, gets.
    destruct (ConnScheduler.weFollowThem w0 _) eqn:Hfollow.
    - unfold CONN.connect, CONN.assertValidAddress, tryCatch, bind.
      simpl. destruct (msAddress_check (ConnScheduler.btAddress bt)); simpl.
      + rewrite after_Hub_connect.
        assert (Hok : scanCall w0 discovered
                        (HubConnect (ConnScheduler.btAddress bt) None)).
        { exists bt. split; [exact Hbt|]. left. split; [reflexivity|].
          exact Hfollow. }
        destruct (Hub_isActive _ w0);
          (split; [reflexivity|]; split; [reflexivity|];
           exists [HubConnect (ConnScheduler.btAddress bt) None];
           split; [reflexivity | constructor; [exact Hok | constructor]]).
      + apply scanning_refl.
    - rewrite stage_run. simpl. unfold stageW.
      assert (Hok : scanCall w0 discovered
                      (StagingStage (ConnScheduler.btAddress bt)
                         (btRecord bt))).
      { exists bt. split; [exact Hbt|]. right. split; [reflexivity|].
        exact Hfollow. }
      destruct (Hub_getState _ w0); [apply scanning_refl|].
      destruct (has_addr _ (staging w0));
        (split; [reflexivity|]; split; [reflexivity|];
         exists [StagingStage (ConnScheduler.btAddress bt) (btRecord bt)];
         split; [reflexivity | constructor; [exact Hok | constructor]]). }
  pose proof (keeps_forEach_In (scanning discovered) _ discovered
                (scanning_refl discovered) (scanning_trans discovered)
                Hstep w) as (Hh & Hd & extra & Hc & He).
  split; [exact Hd|]. split.
  - exists extra. split; [exact Hc|].
    intros c Hin. rewrite List.Forall_forall in He. exact (He c Hin).
  - intros Hvalid. subst outcome. unfold ConnScheduler.onBluetoothScan.
    clear Hstep Hh Hd extra Hc He. revert w.
    induction discovered as [|bt l IH]; intros w; [reflexivity|].
    simpl. unfold bind at 1. unfold bind at 1, gets.
    destruct (ConnScheduler.weFollowThem w _).
    + rewrite connect_data_dropped by (apply Hvalid; now left).
      apply IH. intros bt' Hin. apply Hvalid. now right.
    + rewrite stage_run. apply IH. intros bt' Hin. apply Hvalid. now right.
Qed.

End Bluetooth.

(** ** Starting and stopping the scheduler *)


Section StartStop.
Context `{Collaborators}.

Lemma populate_run (l : list string) w :
  Forall (fun s => msAddress_check s = true) l ->
  forEach
    (fun addr =>
       CONN.remember addr
         (Some (mkPeerData (ref_getKeyFromAddress addr) None None
                  (Some "seed") None None None None None None None None)))
    l w
  = Returned tt (set_db (seeded l) w).
Proof.
  revert w. induction l as [|s l IH]; intros w Hv.
  - simpl. unfold ret. f_equal. symmetry. apply world_eta.
  - inversion Hv as [|? ? Hs Hl]; subst. simpl. unfold bind at 1.
    unfold CONN.remember, CONN.assertValidAddress, bind. rewrite Hs.
    simpl. rewrite (IH _ Hl). reflexivity.
Qed.

Lemma populate_throws (l : list string) w :
  Exists (fun s => msAddress_check s = false) l ->
  returns
    (forEach
       (fun addr =>
          CONN.remember addr
            (Some (mkPeerData (ref_getKeyFromAddress addr) None None
                     (Some "seed") None None None None None None None None)))
       l w) = false.
Proof.
  revert w. induction l as [|s l IH]; intros w Hex.
  - inversion Hex.
  - simpl. unfold bind at 1.
    unfold CONN.remember, CONN.assertValidAddress, bind.
    destruct (msAddress_check s) eqn:Hs; simpl; [|reflexivity].
    apply IH. inversion Hex as [? ? Hbad|? ? Hrest]; subst; [|exact Hrest].
    congruence.
Qed.

Lemma seeded_other l d a :
  ~ In a l -> lookup_addr a (seeded l d) = lookup_addr a d.
Proof.
  unfold seeded. revert d. induction l as [|s l IH]; intros d Hn; simpl.
  - reflexivity.
  - rewrite IH by (intros Hin; apply Hn; now right).
    apply lookup_addr_upsert_other. intros ->. apply Hn. now left.
Qed.

Lemma seeded_keeps_seed l d a r :
  lookup_addr a d = Some r -> source r = Some "seed" ->
  (forall k, ref_getKeyFromAddress a = Some k -> key r = Some k) ->
  exists r', lookup_addr a (seeded l d) = Some r' /\
             source r' = Some "seed" /\
             (forall k, ref_getKeyFromAddress a = Some k -> key r' = Some k).
Proof.
  unfold seeded. revert d r. induction l as [|s l IH]; intros d r Hl Hs Hk.
  - exists r. auto.
  - simpl. destruct (String.eqb_spec s a) as [->|Hne].
    + eapply IH.
      * rewrite lookup_addr_upsert_same, Hl. reflexivity.
      * reflexivity.
      * intros k Hkey. simpl. rewrite Hkey. reflexivity.
    + eapply IH; [|exact Hs | exact Hk].
      rewrite lookup_addr_upsert_other by congruence. exact Hl.
Qed.

Lemma seeded_In l d a :
  In a l ->
  exists r, lookup_addr a (seeded l d) = Some r /\
            source r = Some "seed" /\
            (forall k, ref_getKeyFromAddress a = Some k -> key r = Some k).
Proof.
  revert d. induction l as [|s l IH]; intros d Hin; [contradiction|].
  destruct (String.eqb_spec s a) as [->|Hne].
  - change (seeded (a :: l) d) with (seeded l (upsert a (seedRecord a) d)).
    destruct (lookup_addr a d) as [old|] eqn:Hold.
    + eapply seeded_keeps_seed.
      * rewrite lookup_addr_upsert_same, Hold. reflexivity.
      * reflexivity.
      * intros k Hkey. simpl. rewrite Hkey. reflexivity.
    + eapply seeded_keeps_seed.
      * rewrite lookup_addr_upsert_same, Hold. reflexivity.
      * reflexivity.
      * intros k Hkey. simpl. exact Hkey.
  - destruct Hin as [Heq|Hin]; [contradiction|].
    change (seeded (s :: l) d) with (seeded l (upsert s (seedRecord s) d)).
    now apply IH.
Qed.

Lemma seedList_nonempty seeds s :
  In s (ConnScheduler.seedList seeds) -> s <> "".
Proof.
  assert (Hone : forall o : option string,
             In s match o with
                  | Some s0 => if String.eqb s0 "" then [] else [s0]
                  | None => []
                  end -> s <> "").
  { intros [s0|]; [|intros []].
    destruct (String.eqb_spec s0 ""); [intros []|].
    intros [<-|[]]. assumption. }
  destruct seeds as [|s0|l]; simpl.
  - intros [].
  - apply (Hone (Some s0)).
  - intros Hin. apply in_flat_map in Hin. destruct Hin as (o & _ & Ho).
    now apply (Hone o).
Qed.

(** X21 ([populateWithSeeds]): when every configured seed is a multiserver
    address, the run returns and the database holds, for each seed, a
    record with source [seed] and the key read from the address; the
    records of other addresses, the hub and the staging pool are left
    alone.  Missing and empty seeds are skipped.  A seed that is not a
    multiserver address makes the run throw. *)
Theorem seeds_are_remembered (seeds : ConnScheduler.Seeds) (w : World) :
  (forall s, In s (ConnScheduler.seedList seeds) -> s <> "") /\
  (Forall (fun s => msAddress_check s = true) (ConnScheduler.seedList seeds) ->
   exists w',
     ConnScheduler.populateWithSeeds seeds w = Returned tt w' /\
     hub w' = hub w /\ staging w' = staging w /\
     (forall s,
        In s (ConnScheduler.seedList seeds) ->
        exists d,
          DB_get s w' = Some d /\ source d = Some "seed" /\
          (forall k, ref_getKeyFromAddress s = Some k -> key d = Some k)) /\
     (forall a,
        ~ In a (ConnScheduler.seedList seeds) -> DB_get a w' = DB_get a w)) /\
  (Exists (fun s => msAddress_check s = false) (ConnScheduler.seedList seeds) ->
   returns (ConnScheduler.populateWithSeeds seeds w) = false).
Proof.
  split; [apply seedList_nonempty|]. split.
  - intros Hv. exists (set_db (seeded (ConnScheduler.seedList seeds)) w).
    split; [now apply populate_run|].
    split; [reflexivity|]. split; [reflexivity|]. split.
    + intros s Hin. unfold DB_get. simpl db. now apply seeded_In.
    + intros a Hn. unfold DB_get. simpl db. now apply seeded_other.
  - intros Hex. now apply populate_throws.
Qed.










End StartStop.

(** ** The legacy gossip adapter, continued *)

Lemma worldless_ret {A} (a : A) : worldless (ret a).
Proof. exists (inl a). reflexivity. Qed.

Lemma worldless_throw {A} msg : worldless (@throw A msg).
Proof. exists (inr msg). reflexivity. Qed.

Lemma worldless_bind {A B} (m : M A) (k : A -> M B) :
  worldless m -> (forall a, worldless (k a)) -> worldless (bind m k).
Proof.
  intros [[a|e] Hm] Hk.
  - destruct (Hk a) as [o Ho]. exists o. intros w. unfold bind.
    rewrite Hm. apply Ho.
  - exists (inr e). intros w. unfold bind. rewrite Hm. reflexivity.
Qed.

Lemma worldless_run {A} (m : M A) w v a w' :
  worldless m -> m w = Returned a w' -> w' = w /\ m v = Returned a v.
Proof.
  intros [[b|e] Hm] Hrun; rewrite Hm in Hrun; [|discriminate].
  injection Hrun as -> ->. split; [reflexivity | apply Hm].
Qed.

Lemma worldless_thrown {A} (m : M A) w e w' :
  worldless m -> m w = Thrown e w' -> w' = w.
Proof.
  intros [[b|e'] Hm] Hrun; rewrite Hm in Hrun; [discriminate|].
  now injection Hrun as _ ->.
Qed.

Section LegacyMore.
Context `{Collaborators}.

Lemma worldless_toAddressString o : worldless (Gossip.toAddressString o).
Proof.
  unfold Gossip.toAddressString.
  destruct (ref_isAddress (address o)); [apply worldless_ret|].
  destruct (str_is (source o) "dht"); [apply worldless_ret|].
  apply worldless_bind.
  - unfold Gossip.toBase64.
    destruct (key o); [apply worldless_ret | apply worldless_throw].
  - intros b64. apply worldless_ret.
Qed.

Lemma worldless_parseAddress s : worldless (Gossip.parseAddress s).
Proof.
  unfold Gossip.parseAddress.
  destruct (Gossip.isDhtAddress s).
  - apply worldless_bind; [|intros p; apply worldless_ret].
    unfold Gossip.parseDhtAddress.
    destruct (negb _); [apply worldless_throw|].
    destruct (nth_error _ 2); [apply worldless_ret | apply worldless_throw].
  - destruct (ref_parseAddress s); [apply worldless_ret|].
    destruct (ref_isAddress (Some s)); apply worldless_ret.
Qed.

Lemma worldless_validateAddr addr : worldless (Gossip.validateAddr addr).
Proof.
  unfold Gossip.validateAddr. destruct addr as [s|o|isNull].
  - destruct s as [|c s]; [apply worldless_throw|].
    apply worldless_bind; [apply worldless_parseAddress|].
    intros [parsed|]; [|apply worldless_throw].
    destruct (negb _); [apply worldless_throw|].
    destruct (negb _); [apply worldless_throw | apply worldless_ret].
  - apply worldless_bind; [apply worldless_toAddressString|].
    intros addressString.
    destruct (negb _); [apply worldless_throw|].
    destruct (negb _); [apply worldless_throw | apply worldless_ret].
  - apply worldless_throw.
Qed.

(** X24 ([validateAddr]): validation never changes anything and does not
    depend on the pools.  When it succeeds, the record it returns has a
    non-empty key that ssb-ref accepts as a feed id; for a string argument
    the address string is that string, which is not empty, and for an
    object argument the record is that object.  Anything that is neither a
    string nor an object is refused, and so is the empty string. *)
Theorem validateAddr_guarantees (addr : Gossip.AddrArg) (w : World) :
  (forall s parsed w',
     Gossip.validateAddr addr w = Returned (s, parsed) w' ->
     w' = w /\
     (exists k, key parsed = Some k /\ k <> "" /\ ref_isFeed (Some k) = true) /\
     match addr with
     | Gossip.AddrString str => s = str /\ str <> ""
     | Gossip.AddrObject o => parsed = o
     | Gossip.AddrOther _ => False
     end /\
     forall v, Gossip.validateAddr addr v = Returned (s, parsed) v) /\
  (forall e w', Gossip.validateAddr addr w = Thrown e w' -> w' = w) /\
  (addr = Gossip.AddrString "" \/ (exists n, addr = Gossip.AddrOther n) ->
   Gossip.validateAddr addr w
   = Thrown "address should be an object or string" w).
Proof.
  split; [|split].
  - intros s parsed w' Hrun.
    destruct (worldless_run _ w w _ _ (worldless_validateAddr addr) Hrun)
      as [-> _].
    split; [reflexivity|].
    assert (Hkey : forall (p : PeerData) (x : string * PeerData) v v',
              (if negb (match key p with
                        | Some k => negb (String.eqb k "")
                        | None => false
                        end)
               then throw "address must have ed25519 key"
               else if negb (ref_isFeed (key p))
                    then throw "key must be ed25519 public id"
                    else ret x) v = Returned (s, parsed) v' ->
              x = (s, parsed) /\
              exists k, key p = Some k /\ k <> "" /\
                        ref_isFeed (Some k) = true).
    { intros p x v v'. destruct (key p) as [k|]; simpl; [|discriminate].
      destruct (String.eqb_spec k ""); simpl; [discriminate|].
      destruct (ref_isFeed (Some k)) eqn:Hfeed; simpl; [|discriminate].
      intros [= <- _]. split; [reflexivity|]. exists k. auto. }
    split; [|split].
    + destruct addr as [str|o|isNull]; simpl in Hrun.
      * destruct str as [|c str]; [discriminate|].
        unfold bind in Hrun.
        destruct (Gossip.parseAddress (String c str) w) as [[p|] w1|e w1];
          try discriminate.
        apply Hkey in Hrun. destruct Hrun as [[= _ <-] Hk]. exact Hk.
      * unfold bind in Hrun.
        destruct (Gossip.toAddressString o w) as [a w1|e w1];
          try discriminate.
        apply Hkey in Hrun. destruct Hrun as [[= _ <-] Hk]. exact Hk.
      * discriminate.
    + destruct addr as [str|o|isNull]; simpl in Hrun.
      * destruct str as [|c str]; [discriminate|].
        unfold bind in Hrun.
        destruct (Gossip.parseAddress (String c str) w) as [[p|] w1|e w1];
          try discriminate.
        apply Hkey in Hrun. destruct Hrun as [[= <- _] _].
        split; [reflexivity | discriminate].
      * unfold bind in Hrun.
        destruct (Gossip.toAddressString o w) as [a w1|e w1];
          try discriminate.
        apply Hkey in Hrun. destruct Hrun as [[= _ <-] _]. reflexivity.
      * discriminate.
    + intros v.
      apply (worldless_run _ w v _ _ (worldless_validateAddr addr) Hrun).
  - intros e w' Hrun.
    exact (worldless_thrown _ w e w' (worldless_validateAddr addr) Hrun).
  - intros [->|[n ->]]; reflexivity.
Qed.





Lemma isDhtAddress_prefix (x : string) :
  Gossip.isDhtAddress ("dht:" +:+ x) = true.
Proof.
  unfold Gossip.isDhtAddress.
  change ("dht:" +:+ x)
    with (String "d"%char (String "h"%char (String "t"%char
            (String ":"%char x)))).
  simpl. destruct x; reflexivity.
Qed.

(** X27 ([parseAddress], [toAddressString], DHT addresses): an address
    ["dht:" ++ seed ++ ":" ++ remote ++ "~noauth"], with neither colon nor
    tilde inside [seed] and [remote], is parsed as a record of source [dht]
    with host [seed ++ ":" ++ remote], port 0 and the key [remote], led by
    an [@] when it has none; and the address string of that record is the
    address it was parsed from. *)
Theorem dht_address_round_trip (seed remote : string) (w : World) :
  occurs ":"%char seed = false -> occurs "~"%char seed = false ->
  occurs ":"%char remote = false -> occurs "~"%char remote = false ->
  ref_isAddress None = false ->
  let addr := "dht:" +:+ seed +:+ ":" +:+ remote +:+ "~noauth" in
  let parsed :=
    mkPeerData
      (Some (if String.eqb (String.substring 0 1 remote) "@"
             then remote else "@" +:+ remote))
      (Some (seed +:+ ":" +:+ remote)) (Some 0) (Some "dht")
      None None None None None None None None in
  Gossip.parseAddress addr w = Returned (Some parsed) w /\
  Gossip.toAddressString parsed w = Returned addr w.
Proof.
  intros Hs1 Hs2 Hr1 Hr2 Hnone addr parsed. split.
  - unfold Gossip.parseAddress.
    subst addr. rewrite isDhtAddress_prefix.
    set (addr := "dht:" +:+ seed +:+ ":" +:+ remote +:+ "~noauth").
    unfold bind, Gossip.parseDhtAddress.
    assert (Hsplit : js_split "~"%char addr
                     = ("dht:" +:+ seed +:+ ":" +:+ remote)
                         :: js_split "~"%char "noauth").
    { subst addr.
      replace ("dht:" +:+ seed +:+ ":" +:+ remote +:+ "~noauth")
        with (("dht:" +:+ seed +:+ ":" +:+ remote)
                +:+ String "~"%char "noauth").
      2:{ rewrite !append_assoc. reflexivity. }
      apply js_split_at.
      rewrite !occurs_append, Hs2, Hr2. reflexivity. }
    rewrite Hsplit. cbn [hd].
    assert (Hparts : js_split ":"%char ("dht:" +:+ seed +:+ ":" +:+ remote)
                     = ["dht"; seed; remote]).
    { change ("dht:" +:+ seed +:+ ":" +:+ remote)
        with ("dht" +:+ String ":"%char (seed +:+ String ":"%char remote)).
      rewrite js_split_at by reflexivity.
      rewrite js_split_at by exact Hs1.
      rewrite js_split_free by exact Hr1. reflexivity. }
    rewrite Hparts. simpl. reflexivity.
  - subst parsed. unfold Gossip.toAddressString. cbn [address].
    rewrite Hnone. cbn [source str_is host].
    change (String.eqb "dht" "dht") with true. cbv iota.
    change (js_str (Some (seed +:+ ":" +:+ remote)))
      with (seed +:+ ":" +:+ remote).
    subst addr. unfold ret. f_equal. rewrite !append_assoc. reflexivity.
Qed.

Lemma toBase64_feed (b : string) w :
  occurs "."%char b = false ->
  Gossip.toBase64 (Some ("@" +:+ b +:+ ".ed25519")) w = Returned b w.
Proof.
  intros Hfree. unfold Gossip.toBase64, ret. f_equal.
  unfold js_indexOf.
  change ("@" +:+ b +:+ ".ed25519")
    with (("@" +:+ b) +:+ String "."%char "ed25519").
  rewrite index_first by (rewrite occurs_append, Hfree; reflexivity).
  unfold js_substring.
  rewrite !length_append.
  change (String.length "@") with 1%nat.
  change (String.length (String "."%char "ed25519")) with 8%nat.
  set (n := String.length b).
  replace (Z.max 0 (Z.min 1 (Z.of_nat (1 + n + 8)))) with 1 by lia.
  replace (Z.max 0 (Z.min (Z.of_nat (1 + n)) (Z.of_nat (1 + n + 8))))
    with (Z.of_nat (1 + n)) by lia.
  replace (Z.to_nat (Z.min 1 (Z.of_nat (1 + n)))) with 1%nat by lia.
  replace (Z.to_nat (Z.max 1 (Z.of_nat (1 + n)) - Z.min 1 (Z.of_nat (1 + n))))
    with n by lia.
  change (("@" +:+ b) +:+ String "."%char "ed25519")
    with (String "@"%char (b +:+ ".ed25519")).
  simpl String.substring. subst n. apply substring_prefix.
Qed.

(** X28 ([toAddressString], peer objects): a record without a usable
    [address] field and not of source [dht], with a host and with the key
    ["@" ++ b ++ ".ed25519"] where [b] holds no dot, is written
    [protocol:host:port~shs:b]; the protocol is [onion] when the host ends
    in [.onion] and [net] otherwise.  Without a key the address string
    cannot be built, and validating such an object fails with a TypeError
    before the key is looked at. *)
Theorem address_string_of_a_peer_object (o : PeerData) (h : string)
    (w : World) :
  ref_isAddress (address o) = false ->
  source o <> Some "dht" ->
  host o = Some h ->
  (forall b,
     key o = Some ("@" +:+ b +:+ ".ed25519") ->
     occurs "."%char b = false ->
     Gossip.toAddressString o w
     = Returned
         ((if js_endsWith h ".onion" then "onion" else "net")
          +:+ ":" +:+ h +:+ ":" +:+ js_num (port o) +:+ "~shs:" +:+ b) w) /\
  (key o = None ->
   (exists e, Gossip.toAddressString o w = Thrown e w) /\
   Gossip.validateAddr (Gossip.AddrObject o) w
   = Thrown "TypeError: Cannot read property 'toString' of undefined" w).
Proof.
  intros Haddr Hsrc Hhost.
  assert (Hdht : str_is (source o) "dht" = false).
  { destruct (str_is (source o) "dht") eqn:Hs; [|reflexivity].
    apply str_is_true in Hs. contradiction. }
  split.
  - intros b Hkey Hfree. unfold Gossip.toAddressString.
    rewrite Haddr, Hdht, Hhost, Hkey. unfold bind.
    rewrite toBase64_feed by exact Hfree. unfold ret. f_equal.
    destruct (String.eqb_spec h "") as [->|Hne]; simpl negb; cbv iota.
    + change (js_endsWith "" ".onion") with false. cbv iota.
      simpl js_str. rewrite !append_assoc. reflexivity.
    + simpl andb. destruct (js_endsWith h ".onion");
        simpl js_str; rewrite !append_assoc; reflexivity.
  - intros Hkey. split.
    + eexists. unfold Gossip.toAddressString.
      rewrite Haddr, Hdht, Hkey. reflexivity.
    + unfold Gossip.validateAddr, Gossip.toAddressString, bind.
      rewrite Haddr, Hdht, Hkey. reflexivity.
Qed.




End LegacyMore.

(** ** The further theorems at work on the sample worlds *)

(** X1: a dial of something that is no address, with a callback. *)
Lemma connect_refuses_invalid_address_witness :
  after (CONN.connect (H := Reference.collaborators) "bogus"
           (CONN.ArgObject emptyData) CONN.ArgFunction Examples.mixed)
  = Examples.mixed /\
  returns (CONN.connect (H := Reference.collaborators) "bogus"
             (CONN.ArgObject emptyData) CONN.ArgFunction Examples.mixed)
  = true.
Proof.
  exact (connect_refuses_invalid_address (H := Reference.collaborators)
           "bogus" (CONN.ArgObject emptyData) CONN.ArgFunction Examples.mixed
           eq_refl).
Defined.

(** X2: the scheduler's way of dialing loses the record it hands over. *)
Lemma connect_passes_data_only_before_a_callback_witness :
  exists w',
    CONN.connect (H := Reference.collaborators)
      (Examples.addrOf "7.7.7.7" "BOB")
      (CONN.ArgObject (snd Examples.youngLan)) CONN.ArgUndefined
      Examples.mixed = Returned tt w' /\
    lookup_addr (Examples.addrOf "7.7.7.7" "BOB") (hub w')
    = Some (connecting, with_stateChange 40000 emptyData).
Proof.
  assert (Hok : msAddress_check (Collaborators := Reference.collaborators)
                  (Examples.addrOf "7.7.7.7" "BOB") = true)
    by (vm_compute; reflexivity).
  assert (Hidle : Hub_isActive (Examples.addrOf "7.7.7.7" "BOB")
                    Examples.mixed = false)
    by (vm_compute; reflexivity).
  destruct (connect_passes_data_only_before_a_callback
              (H := Reference.collaborators)
              (Examples.addrOf "7.7.7.7" "BOB") (snd Examples.youngLan)
              Examples.mixed Hok Hidle)
    as [_ (w' & Hrun & _ & Hhub)].
  exists w'. split; assumption.
Defined.

(** X3: the connection to the blocked peer is closed by hand. *)
Lemma disconnect_clears_the_address_witness :
  exists w',
    CONN.disconnect (H := Reference.collaborators)
      (Examples.addrOf "6.6.6.6" "MALLORY") CONN.ArgFunction Examples.mixed
    = Returned tt w' /\
    Hub_getState (Examples.addrOf "6.6.6.6" "MALLORY") w' = None.
Proof.
  assert (Hok : msAddress_check (Collaborators := Reference.collaborators)
                  (Examples.addrOf "6.6.6.6" "MALLORY") = true)
    by (vm_compute; reflexivity).
  destruct (disconnect_clears_the_address (H := Reference.collaborators)
              (Examples.addrOf "6.6.6.6" "MALLORY") CONN.ArgFunction
              Examples.mixed) as [Hvalid _].
  destruct (Hvalid Hok) as (w' & w'' & Hrun & Hstate & _).
  exists w'. split; assumption.
Defined.

(** X4: a pub is remembered and forgotten again. *)
Lemma remember_then_forget_witness :
  exists w1 w2,
    CONN.remember (H := Reference.collaborators)
      (fst Examples.suggestion) (Some (snd Examples.suggestion))
      Examples.mixed = Returned tt w1 /\
    DB_get (fst Examples.suggestion) w1 = Some (snd Examples.suggestion) /\
    CONN.forget (H := Reference.collaborators) (fst Examples.suggestion) w1
    = Returned tt w2 /\
    DB_has (fst Examples.suggestion) w2 = false.
Proof.
  assert (Hok : msAddress_check (Collaborators := Reference.collaborators)
                  (fst Examples.suggestion) = true)
    by (vm_compute; reflexivity).
  destruct (remember_then_forget (H := Reference.collaborators)
              (fst Examples.suggestion) (Some (snd Examples.suggestion))
              Examples.mixed) as [Hvalid _].
  destruct (Hvalid Hok) as (w1 & w2 & Hrun & Hget & _ & Hforget & Hhas & _).
  exists w1, w2. repeat split; assumption.
Defined.

(** X5: an address nobody knows is staged and unstaged. *)
Lemma stage_then_unstage_witness :
  exists w1 w3,
    CONN.stage (Examples.addrOf "7.7.7.7" "BOB") None Examples.mixed
    = Returned true w1 /\
    CONN.unstage (Examples.addrOf "7.7.7.7" "BOB") w1 = Returned tt w3 /\
    staging w3 = staging Examples.mixed.
Proof.
  assert (Hstate : Hub_getState (Examples.addrOf "7.7.7.7" "BOB")
                     Examples.mixed = None)
    by (vm_compute; reflexivity).
  assert (Hfresh : has_addr (Examples.addrOf "7.7.7.7" "BOB")
                     (staging Examples.mixed) = false)
    by (vm_compute; reflexivity).
  destruct (stage_then_unstage (Examples.addrOf "7.7.7.7" "BOB") None
              Examples.mixed Hstate Hfresh)
    as (w1 & w2 & w3 & Hrun & _ & _ & _ & _ & Hun & Hback).
  exists w1, w3. repeat split; assumption.
Defined.

Lemma mixed_poolsKeyed : poolsKeyed Examples.mixed.
Proof.
  split; [|split].
  - intros e [<-|[<-|[<-|[<-|[]]]]]; vm_compute; reflexivity.
  - vm_compute. repeat constructor; simpl; intuition discriminate.
  - vm_compute. repeat constructor; simpl; intuition discriminate.
Defined.

(** X6: dialing a staged peer keeps the pools keyed and apart. *)
Lemma facade_keeps_pools_keyed_witness :
  poolsKeyed
    (after (CONN.connect (H := Reference.collaborators)
              (fst Examples.youngLan) (CONN.ArgObject (snd Examples.youngLan))
              CONN.ArgUndefined Examples.mixed)).
Proof.
  exact (proj1 (facade_keeps_pools_keyed (H := Reference.collaborators)
                  Examples.mixed (fst Examples.youngLan)
                  (CONN.ArgObject (snd Examples.youngLan)) CONN.ArgUndefined
                  CONN.ArgUndefined None mixed_poolsKeyed)).
Defined.

(** X8: a tick keeps the pools keyed and apart. *)
Lemma tick_keeps_pools_keyed_witness :
  poolsKeyed
    (after (ConnScheduler.updateNow (H := Reference.collaborators)
              Examples.mixed)).
Proof.
  exact (tick_keeps_pools_keyed (H := Reference.collaborators) Examples.mixed
           mixed_poolsKeyed).
Defined.




(** X12: the pub with [autoconnect] off is staged. *)
Lemma manual_peers_are_staged_witness :
  exists w' rec0,
    ConnScheduler.updateStagingNow Examples.suggested = Returned tt w' /\
    In (fst Examples.suggestion, with_stagingUpdated 5000 rec0) (staging w').
Proof.
  destruct (manual_peers_are_staged Examples.suggested
              (fst Examples.suggestion) (snd Examples.suggestion))
    as (w' & rec0 & Hrun & _ & _ & _ & Hin).
  - left. reflexivity.
  - reflexivity.
  - vm_compute. reflexivity.
  - vm_compute. reflexivity.
  - intros [].
  - exists w', rec0. split; assumption.
Defined.

(** X14: the hops table is requested and the tick waits for it. *)
Lemma hops_load_suspends_ticks_witness :
  exists w1,
    ConnScheduler.loadHops Examples.mixed = Returned tt w1 /\
    isLoadingHops w1 = true /\
    ConnScheduler.updateNow (H := Reference.collaborators) w1
    = Returned tt w1.
Proof.
  destruct (hops_load_suspends_ticks (H := Reference.collaborators)
              Examples.mixed) as [Hpresent _].
  destruct (Hpresent eq_refl) as (w1 & Hrun & Hflag & _ & Htick & _).
  exists w1. repeat split; assumption.
Defined.

(** X15: with the draw 1/2 the default period gives a delay of one second,
    and a second request is dropped. *)
Lemma updateSoon_coalesces_witness :
  exists delay w1,
    ConnScheduler.updateSoon None Examples.mixed = Returned (Some delay) w1 /\
    (500 <= delay)%Q /\ (delay < 1500)%Q /\
    ConnScheduler.updateSoon (Some 200) w1 = Returned None w1.
Proof.
  destruct (updateSoon_coalesces None Examples.mixed) as [Hopen _].
  destruct (Hopen eq_refl eq_refl)
    as (delay & w1 & Hrun & Hdelay & _ & _ & _ & _ & _ & _ & Hagain).
  exists delay, w1. split; [exact Hrun|].
  split; [|split; [|apply Hagain]]; rewrite Hdelay; vm_compute;
    [discriminate | reflexivity].
Defined.

(** X16: the tick that has to disconnect something the facade refuses
    throws, and the scheduler stays with its update pending. *)
Lemma throwing_tick_leaves_update_scheduled_witness :
  exists e w',
    ConnScheduler.updateSoonTimer (H := Reference.collaborators)
      Examples.wedged = Thrown e w' /\
    hasScheduledAnUpdate w' = true /\
    ConnScheduler.updateSoon None w' = Returned None w'.
Proof.
  destruct (ConnScheduler.updateNow (H := Reference.collaborators)
              Examples.wedged) as [u w'|e w'] eqn:Hrun.
  { exfalso. vm_compute in Hrun. discriminate Hrun. }
  destruct (throwing_tick_leaves_update_scheduled
              (H := Reference.collaborators) Examples.wedged)
    as [_ Hthrown].
  destruct (Hthrown e w' Hrun) as (Htimer & Hflag & _ & Hdrop).
  exists e, w'. split; [exact Htimer|]. split; [exact Hflag|].
  apply Hdrop. reflexivity.
Defined.

(** X17: the beacon of a peer we follow. *)
Lemma lan_beacon_dials_followed_peers_witness :
  exists w',
    ConnScheduler.onLanDiscovered (H := Reference.collaborators)
      (Examples.addrOf "192.168.1.8" "ALICE") Examples.followedStaged
    = Returned tt w' /\
    calls w'
    = calls Examples.followedStaged
      ++ [HubConnect (Examples.addrOf "192.168.1.8" "ALICE") None].
Proof.
  destruct (lan_beacon_dials_followed_peers (H := Reference.collaborators)
              (Examples.addrOf "192.168.1.8" "ALICE") Examples.followedStaged)
    as (_ & _ & Hparsed).
  destruct (Hparsed
              (mkPeerData (Some Examples.alice) (Some "192.168.1.8")
                 (Some 8008) None None None None None None None None None)
              Examples.alice)
    as [Hfollow _].
  - vm_compute. reflexivity.
  - reflexivity.
  - discriminate.
  - destruct Hfollow as (w' & Hrun & Hcalls & _).
    + vm_compute. reflexivity.
    + vm_compute. reflexivity.
    + exists w'. split; assumption.
Defined.

(** X21: one seed among missing and empty entries. *)
Lemma seeds_are_remembered_witness :
  exists w' d,
    ConnScheduler.populateWithSeeds (H := Reference.collaborators)
      (ConnScheduler.SeedsArray
         [None; Some "net:1.2.3.4:8008~shs:ALICE"; Some ""])
      Examples.mixed = Returned tt w' /\
    DB_get "net:1.2.3.4:8008~shs:ALICE" w' = Some d /\
    source d = Some "seed" /\ key d = Some Examples.alice.
Proof.
  destruct (seeds_are_remembered (H := Reference.collaborators)
              (ConnScheduler.SeedsArray
                 [None; Some "net:1.2.3.4:8008~shs:ALICE"; Some ""])
              Examples.mixed) as (_ & Hvalid & _).
  destruct Hvalid as (w' & Hrun & _ & _ & Hseeds & _).
  { vm_compute. repeat constructor. }
  destruct (Hseeds "net:1.2.3.4:8008~shs:ALICE") as (d & Hget & Hsrc & Hkey).
  { vm_compute. left. reflexivity. }
  exists w', d. split; [exact Hrun|]. split; [exact Hget|].
  split; [exact Hsrc|]. apply Hkey. vm_compute. reflexivity.
Defined.


(** X24: a well-formed address string is returned as it came. *)
Lemma validateAddr_guarantees_witness :
  exists parsed,
    Gossip.validateAddr (H := Reference.collaborators)
      (Gossip.AddrString "net:10.0.0.9:8008~shs:BOB") Examples.mixed
    = Returned ("net:10.0.0.9:8008~shs:BOB", parsed) Examples.mixed /\
    exists k, key parsed = Some k /\ k <> "".
Proof.
  destruct (Gossip.validateAddr (H := Reference.collaborators)
              (Gossip.AddrString "net:10.0.0.9:8008~shs:BOB") Examples.mixed)
    as [[s parsed] w'|e w'] eqn:Hrun.
  2:{ exfalso. vm_compute in Hrun. discriminate Hrun. }
  destruct (validateAddr_guarantees (H := Reference.collaborators)
              (Gossip.AddrString "net:10.0.0.9:8008~shs:BOB") Examples.mixed)
    as [Hok _].
  destruct (Hok s parsed w' Hrun) as (-> & (k & Hk & Hne & _) & [-> _] & _).
  exists parsed. split; [reflexivity|]. exists k. split; assumption.
Defined.



(** X27: a DHT address whose remote id has no leading [@]. *)
Lemma dht_address_round_trip_witness :
  exists parsed,
    Gossip.parseAddress (H := Reference.collaborators)
      "dht:SEED:REMOTE~noauth" Examples.mixed
    = Returned (Some parsed) Examples.mixed /\
    key parsed = Some "@REMOTE" /\
    Gossip.toAddressString (H := Reference.collaborators) parsed
      Examples.mixed
    = Returned "dht:SEED:REMOTE~noauth" Examples.mixed.
Proof.
  destruct (dht_address_round_trip (H := Reference.collaborators)
              "SEED" "REMOTE" Examples.mixed
              eq_refl eq_refl eq_refl eq_refl eq_refl)
    as [Hparse Hback].
  eexists. split; [exact Hparse|]. split; [reflexivity | exact Hback].
Defined.

(** X28: the address string of a pub given by host, port and key. *)
Lemma address_string_of_a_peer_object_witness :
  Gossip.toAddressString (H := Reference.collaborators)
    (Examples.record Examples.alice "10.0.0.1" None None None None)
    Examples.mixed
  = Returned "net:10.0.0.1:8008~shs:ALICE" Examples.mixed.
Proof.
  destruct (address_string_of_a_peer_object (H := Reference.collaborators)
              (Examples.record Examples.alice "10.0.0.1" None None None None)
              "10.0.0.1" Examples.mixed)
    as [Hkey _].
  - reflexivity.
  - discriminate.
  - reflexivity.
  - exact (Hkey "ALICE" eq_refl eq_refl).
Defined.



(** X20: a scan that reports the phone of a peer we follow. *)
Lemma bluetooth_scan_dials_followed_devices_witness :
  returns
    (ConnScheduler.onBluetoothScan (H := Reference.collaborators)
       [ConnScheduler.mkBTPeer "aa:bb:cc:dd:ee:ff" Examples.alice "phone"]
       Examples.followedStaged)
  = true.
Proof.
  destruct (bluetooth_scan_dials_followed_devices
              (H := Reference.collaborators)
              [ConnScheduler.mkBTPeer "aa:bb:cc:dd:ee:ff" Examples.alice
                 "phone"]
              Examples.followedStaged) as (_ & _ & Hreturns).
  apply Hreturns. intros bt [<-|[]]. vm_compute. reflexivity.
Defined.
